(** * Morphological comment filtering: the fusion classifier and its training loop

    A shallow embedding of [bert.py]: the three pooling strategies, the
    fusion classifier [MorphologicalBertForSequenceClassification], the
    training controller [BertController] with its [train], [validate] and
    [fit] passes and the feature dictionary of the script; and of
    [preprocess.py]: [extract_features], the loop over the examples and
    the name of the written file.

    Conventions.
    - Python integers are [Z]; [//] is [Z.div] (floor division) guarded by
      a [ZeroDivisionError]; lengths are [nat].
    - Tensors are nested lists that carry their shape.  Floating-point
      entries are idealised as real numbers ([R]); the validation
      accuracy, an integer ratio, is a rational ([Q]).
    - Exceptions are values of [exn]; fallible code returns [result].
    - The pretrained encoder, the recurrent layer, the names that
      [nn.ModuleDict] accepts, the random draws of [torch.randperm] and
      of dropout, the gradients computed by autograd, the tagging
      pipeline and [json.dumps] are inputs of the model: the code
      consumes them as black boxes.  In [fit] the two passes are inputs
      as well, and may raise. *)

From Stdlib Require Import ZArith QArith Reals Lia Lra List String Ascii.
From stdpp Require Import base gmap strings list numbers.
Import ListNotations.

Open Scope Z_scope.

(** ** Exceptions *)

Inductive exn : Type :=
| ZeroDivisionError
| KeyError (key : string)
| IndexError
| AttributeError
| AssertionError
| ValueError
| RuntimeError.

Inductive result (A : Type) : Type :=
| Ok (a : A)
| Raise (e : exn).
Arguments Ok {A} a.
Arguments Raise {A} e.

Definition bind {A B} (r : result A) (k : A -> result B) : result B :=
  match r with
  | Ok a => k a
  | Raise e => Raise e
  end.

Notation "'do' x <- r ; k" := (bind r (fun x => k))
  (at level 10, x pattern, r at level 100, k at level 200).

Definition is_ok {A} (r : result A) : bool :=
  match r with Ok _ => true | Raise _ => false end.

(** A loop that builds a list and stops at the first exception. *)
Fixpoint mapM {A B} (f : A -> result B) (l : list A) : result (list B) :=
  match l with
  | [] => Ok []
  | x :: l' =>
      do y <- f x;
      do ys <- mapM f l';
      Ok (y :: ys)
  end.

(** [d[key]] on a dictionary *)
Definition getitem {V} (d : gmap string V) (key : string) : result V :=
  match d !! key with
  | Some v => Ok v
  | None => Raise (KeyError key)
  end.

(** A dictionary that is iterated in insertion order, with its keys
    kept distinct. *)
Definition odict (V : Type) : Type := list (string * V).

Fixpoint odict_get {V} (d : odict V) (key : string) : result V :=
  match d with
  | [] => Raise (KeyError key)
  | (k, v) :: d' => if String.eqb k key then Ok v else odict_get d' key
  end.

(** [d[key] = value]: the value is replaced in place when the key is
    there, and the entry is appended otherwise. *)
Fixpoint odict_set {V} (d : odict V) (key : string) (value : V) : odict V :=
  match d with
  | [] => [(key, value)]
  | (k, v) :: d' =>
      if String.eqb k key then (k, value) :: d' else (k, v) :: odict_set d' key value
  end.

(** *** Facts on loops and dictionaries *)

Lemma mapM_app {A B} (f : A -> result B) (l1 l2 : list A) :
  mapM f (l1 ++ l2) =
  do ys1 <- mapM f l1; do ys2 <- mapM f l2; Ok (ys1 ++ ys2).
Proof.
  induction l1 as [|x l1 IH]; simpl.
  - by destruct (mapM f l2).
  - destruct (f x) as [y|e]; simpl; [|done]. rewrite IH.
    destruct (mapM f l1) as [ys1|e]; simpl; [|done].
    by destruct (mapM f l2).
Qed.

Lemma mapM_raise {A B} (f : A -> result B) (l : list A) (x : A) :
  x ∈ l -> is_ok (f x) = false -> is_ok (mapM f l) = false.
Proof.
  induction l as [|y l IH]; intros Hx Hf; [by apply elem_of_nil in Hx|].
  apply elem_of_cons in Hx as [->|Hx]; simpl.
  - by destruct (f y).
  - destruct (f y); simpl; [|done]. specialize (IH Hx Hf).
    by destruct (mapM f l).
Qed.

Lemma mapM_Forall2 {A B} (f : A -> result B) (P : A -> B -> Prop) (l : list A) :
  (forall x, x ∈ l -> exists y, f x = Ok y /\ P x y) ->
  exists ys, mapM f l = Ok ys /\ Forall2 P l ys.
Proof.
  induction l as [|x l IH]; intros H; simpl; [by exists []|].
  destruct (H x ltac:(by left)) as (y & -> & Hy).
  destruct IH as (ys & -> & Hys); [intros; apply H; by right|].
  simpl. exists (y :: ys). split; [done|]. by constructor.
Qed.

Lemma mapM_ext {A B} (f g : A -> result B) (l : list A) :
  (forall x, x ∈ l -> f x = g x) -> mapM f l = mapM g l.
Proof.
  induction l as [|x l IH]; intros H; simpl; [done|].
  rewrite (H x) by by left. rewrite IH; [done|]. intros y Hy. apply H. by right.
Qed.

Lemma odict_get_elem {V} (d : odict V) (key : string) (v : V) :
  odict_get d key = Ok v -> (key, v) ∈ d.
Proof.
  induction d as [|[k u] d IH]; simpl; [done|].
  destruct (String.eqb_spec k key) as [->|_].
  - intros [= ->]. by left.
  - intros H. right. by apply IH.
Qed.

Lemma odict_get_missing {V} (d : odict V) (key : string) :
  key ∉ map fst d -> odict_get d key = Raise (KeyError key).
Proof.
  induction d as [|[k v] d IH]; simpl; intros Hk; [done|].
  apply not_elem_of_cons in Hk as [Hne Hk].
  destruct (String.eqb_spec k key); [congruence|]. by apply IH.
Qed.

Lemma odict_get_set_eq {V} (d : odict V) (key : string) (value : V) :
  odict_get (odict_set d key value) key = Ok value.
Proof.
  induction d as [|[k v] d IH]; simpl; [by rewrite String.eqb_refl|].
  destruct (String.eqb k key) eqn:Hk; simpl; by rewrite Hk.
Qed.

Lemma odict_get_set_ne {V} (d : odict V) (key key' : string) (value : V) :
  key <> key' -> odict_get (odict_set d key value) key' = odict_get d key'.
Proof.
  intros Hne. induction d as [|[k v] d IH]; simpl.
  - by destruct (String.eqb_spec key key').
  - destruct (String.eqb_spec k key) as [->|Hk]; simpl.
    + by destruct (String.eqb_spec key key').
    + by rewrite IH.
Qed.

Lemma odict_set_fresh {V} (d : odict V) (key : string) (value : V) :
  key ∉ map fst d -> odict_set d key value = d ++ [(key, value)].
Proof.
  induction d as [|[k v] d IH]; simpl; intros Hk; [done|].
  apply not_elem_of_cons in Hk as [Hne Hk].
  destruct (String.eqb_spec k key); [congruence|]. by rewrite IH.
Qed.

Lemma odict_set_present {V} (d : odict V) (key : string) (value : V) :
  key ∈ map fst d -> map fst (odict_set d key value) = map fst d.
Proof.
  induction d as [|[k v] d IH]; simpl; intros Hk; [by apply elem_of_nil in Hk|].
  destruct (String.eqb_spec k key) as [->|Hne]; simpl; [done|].
  apply elem_of_cons in Hk as [->|Hk]; [done|]. by rewrite IH.
Qed.

Lemma odict_set_NoDup {V} (d : odict V) (key : string) (value : V) :
  NoDup (map fst d) -> NoDup (map fst (odict_set d key value)).
Proof.
  intros Hnd. destruct (decide (key ∈ map fst d)) as [Hin|Hnin].
  - by rewrite odict_set_present.
  - rewrite odict_set_fresh, map_app by done. simpl.
    apply list.NoDup_app. split; [done|]. split; [|apply NoDup_singleton].
    intros k Hk Hk'. apply list_elem_of_singleton in Hk'. by subst.
Qed.

Lemma odict_set_head {V} (d : odict V) (key k : string) (v value : V) :
  exists v' rest, odict_set ((k, v) :: d) key value = (k, v') :: rest.
Proof. simpl. destruct (String.eqb k key); eauto. Qed.

Lemma fold_set_fresh {V} (fvs : list (string * V)) (d : odict V) :
  NoDup (map fst d ++ map fst fvs) ->
  fold_left (fun d fv => odict_set d (fst fv) (snd fv)) fvs d = d ++ fvs.
Proof.
  revert d. induction fvs as [|[f v] fvs IH]; intros d Hnd; simpl.
  - by rewrite app_nil_r.
  - simpl in Hnd. apply list.NoDup_app in Hnd as (Hd & Hdisj & Hfv).
    rewrite odict_set_fresh.
    + rewrite IH, <- app_assoc; [done|]. rewrite map_app. simpl. rewrite <- app_assoc.
      simpl. apply list.NoDup_app. split; [done|]. split; [|done]. exact Hdisj.
    + intros Hin. apply (Hdisj f Hin). by left.
Qed.

(** ** Python integers and slices *)

(** [a // b] *)
Definition floordiv (a b : Z) : result Z :=
  if Z.eqb b 0 then Raise ZeroDivisionError else Ok (a / b).

(** Normalisation of one bound of [l[lo:hi]] against [len(l)]. *)
Definition slice_bound (len i : Z) : Z :=
  if i <? 0 then Z.max (i + len) 0 else Z.min i len.

(** [l[lo:hi]] *)
Definition slice {A} (l : list A) (lo hi : Z) : list A :=
  let len := Z.of_nat (length l) in
  let lo' := slice_bound len lo in
  let hi' := slice_bound len hi in
  take (Z.to_nat (hi' - lo')) (drop (Z.to_nat lo') l).

(** [range(n)] *)
Definition range (n : Z) : list Z := seqZ 0 n.

(** [a > b] on accuracies, read as [b < a]. *)
Definition Qltb (x y : Q) : bool :=
  (Qnum x * Zpos (Qden y) <? Qnum y * Zpos (Qden x))%Z.

(** *** Facts on comparisons and slices *)

Lemma Qltb_lt (x y : Q) : Qltb x y = true <-> (x < y)%Q.
Proof. unfold Qltb, Qlt. apply Z.ltb_lt. Qed.

(** With bounds [0 <= lo <= hi] the slice is a window of [hi - lo]
    elements starting at [lo], cut at the end of the list. *)
Lemma slice_window {A} (l : list A) (lo hi : Z) :
  0 <= lo <= hi ->
  slice l lo hi = take (Z.to_nat (hi - lo)) (drop (Z.to_nat lo) l).
Proof.
  intros Hb. unfold slice, slice_bound.
  destruct (Z.ltb_spec lo 0) as [?|_]; [lia|].
  destruct (Z.ltb_spec hi 0) as [?|_]; [lia|].
  destruct (Z_le_gt_dec (Z.of_nat (length l)) lo) as [Hge|Hlt].
  - rewrite !drop_ge by lia. by rewrite !take_nil.
  - rewrite (Z.min_l lo) by lia.
    destruct (Z_le_gt_dec hi (Z.of_nat (length l))) as [Hh|Hh].
    + by rewrite Z.min_l by lia.
    + rewrite Z.min_r by lia.
      rewrite !take_ge; [done| |]; rewrite length_drop; lia.
Qed.

Lemma length_slice_window {A} (l : list A) (lo hi : Z) :
  0 <= lo <= hi ->
  length (slice l lo hi) = Nat.min (Z.to_nat (hi - lo)) (length l - Z.to_nat lo).
Proof.
  intros Hb. rewrite slice_window by done. by rewrite length_take, length_drop.
Qed.

(** Consecutive windows of [v] elements glue to a prefix. *)
Lemma concat_windows {A} (l : list A) (v k : nat) :
  concat (map (fun i => take v (drop (i * v) l)) (seq 0 k)) = take (k * v) l.
Proof.
  induction k as [|k IH]; [done|].
  rewrite seq_S, map_app, concat_app, IH. simpl.
  rewrite app_nil_r, take_take_drop. f_equal. lia.
Qed.

(** Distinct members of a duplicate-free concatenation share no element. *)
Lemma NoDup_concat_disjoint {A} (ls : list (list A)) (i j : nat) (s t : list A) (x : A) :
  NoDup (concat ls) -> i <> j ->
  ls !! i = Some s -> ls !! j = Some t -> x ∈ s -> x ∈ t -> False.
Proof.
  revert i j. induction ls as [|a ls IH]; intros i j Hnd Hij Hi Hj Hs Ht; [done|].
  simpl in Hnd. apply list.NoDup_app in Hnd as (Hna & Hdisj & Hnl).
  assert (Hin : forall k u, ls !! k = Some u -> x ∈ u -> x ∈ concat ls).
  { intros k u Hk Hu. apply list_elem_of_In, in_concat. exists u.
    split; [apply list_elem_of_In; by eapply list_elem_of_lookup_2
           | by apply list_elem_of_In]. }
  destruct i as [|i], j as [|j]; simpl in *; simplify_eq.
  - eapply Hdisj; eauto.
  - eapply Hdisj; eauto.
  - eapply (IH i j); eauto.
Qed.

(** ** Tensors

    A tensor carries its shape next to its entries, so that an axis of
    size 0 keeps the sizes of the other axes.  Only the operations that
    the code calls are modelled, each with the errors it raises. *)

Module Torch.

Record Tensor2 (A : Type) : Type := T2 {
  rows : nat;
  cols : nat;
  val2 : list (list A)
}.
Arguments T2 {A} rows cols val2.
Arguments rows {A} t.
Arguments cols {A} t.
Arguments val2 {A} t.

Record Tensor3 (A : Type) : Type := T3 {
  dim0 : nat;
  dim1 : nat;
  dim2 : nat;
  val3 : list (list (list A))
}.
Arguments T3 {A} dim0 dim1 dim2 val3.
Arguments dim0 {A} t.
Arguments dim1 {A} t.
Arguments dim2 {A} t.
Arguments val3 {A} t.

(** The entries fill the shape. *)
Definition wf2 {A} (t : Tensor2 A) : Prop :=
  length (val2 t) = rows t /\ Forall (fun r => length r = cols t) (val2 t).

Definition wf3 {A} (t : Tensor3 A) : Prop :=
  length (val3 t) = dim0 t /\
  Forall (fun s => length s = dim1 t /\ Forall (fun v => length v = dim2 t) s) (val3 t).

(** [t[b][e]] and [t[b][i][e]], read as 0 outside the shape. *)
Definition at2 (t : Tensor2 R) (b e : nat) : R :=
  default 0%R (val2 t !! b ≫= fun r => r !! e).

Definition at3 (t : Tensor3 R) (b i e : nat) : R :=
  default 0%R (val3 t !! b ≫= fun s => s !! i ≫= fun v => v !! e).

(** The sum of [f 0], ..., [f (n - 1)], added up from the left. *)
Definition sigma (n : nat) (f : nat -> R) : R :=
  fold_left (fun acc t => (acc + f t)%R) (seq 0 n) 0%R.

(** The size of a broadcast axis: equal sizes, or one of them 1. *)
Definition broadcast_dim (a b : nat) : result nat :=
  if Nat.eqb a b then Ok a
  else if Nat.eqb a 1 then Ok b
  else if Nat.eqb b 1 then Ok a
  else Raise RuntimeError.

(** An axis of size 1 is repeated along the broadcast size. *)
Definition expand {A} (n : nat) (l : list A) : list A :=
  match l with
  | [x] => replicate n x
  | _ => l
  end.

(** [t.unsqueeze(2)] *)
Definition unsqueeze2 {A} (t : Tensor2 A) : Tensor3 A :=
  T3 (rows t) (cols t) 1 (map (map (fun x => [x])) (val2 t)).

(** [x * y] on tensors with three axes, each axis broadcast. *)
Definition mul3 (x y : Tensor3 R) : result (Tensor3 R) :=
  do B <- broadcast_dim (dim0 x) (dim0 y);
  do T <- broadcast_dim (dim1 x) (dim1 y);
  do E <- broadcast_dim (dim2 x) (dim2 y);
  Ok (T3 B T E
        (zip_with (fun sx sy =>
                     zip_with (fun vx vy => zip_with Rmult (expand E vx) (expand E vy))
                              (expand T sx) (expand T sy))
                  (expand B (val3 x)) (expand B (val3 y)))).

Definition vadd (u v : list R) : list R := zip_with Rplus u v.

(** [torch.sum(t, dim=1)] for [t] of shape [B, T, E]. *)
Definition sum_dim1 (t : Tensor3 R) : Tensor2 R :=
  T2 (dim0 t) (dim2 t)
     (map (fun s => fold_left vadd s (replicate (dim2 t) 0%R)) (val3 t)).

(** *** Facts on sums *)

Lemma broadcast_dim_same (a : nat) : broadcast_dim a a = Ok a.
Proof. unfold broadcast_dim. by rewrite Nat.eqb_refl. Qed.

Lemma length_fold_vadd (s : list (list R)) (acc : list R) :
  Forall (fun v => length v = length acc) s ->
  length (fold_left vadd s acc) = length acc.
Proof.
  revert acc. induction s as [|v s IH]; intros acc Hs; simpl; [done|].
  apply Forall_cons_1 in Hs as [Hv Hs].
  assert (Hl : length (vadd acc v) = length acc).
  { unfold vadd. rewrite length_zip_with. lia. }
  rewrite IH; [done|]. by rewrite Hl.
Qed.

Lemma lookup_fold_vadd (s : list (list R)) (acc : list R) (e : nat) :
  Forall (fun v => length v = length acc) s -> (e < length acc)%nat ->
  default 0%R (fold_left vadd s acc !! e) =
  fold_left Rplus (map (fun v => default 0%R (v !! e)) s) (default 0%R (acc !! e)).
Proof.
  revert acc. induction s as [|v s IH]; intros acc Hs He; simpl; [done|].
  apply Forall_cons_1 in Hs as [Hv Hs].
  assert (Hl : length (vadd acc v) = length acc).
  { unfold vadd. rewrite length_zip_with. lia. }
  rewrite IH; [|by rewrite Hl|by rewrite Hl]. f_equal.
  unfold vadd. rewrite lookup_zip_with.
  destruct (lookup_lt_is_Some_2 acc e He) as [a ->].
  destruct (lookup_lt_is_Some_2 v e ltac:(lia)) as [x ->]. done.
Qed.

Lemma fold_left_sigma {A} (l : list A) (h : A -> R) (f : nat -> R) (a : R) :
  (forall t x, l !! t = Some x -> h x = f t) ->
  fold_left Rplus (map h l) a =
  fold_left (fun acc t => (acc + f t)%R) (seq 0 (length l)) a.
Proof.
  revert a. induction l as [|x l IH] using rev_ind; intros a Hh; [done|].
  rewrite map_app, length_app, Nat.add_1_r, seq_S, !fold_left_app. simpl.
  rewrite IH.
  - f_equal. apply Hh. rewrite lookup_app_r, Nat.sub_diag; done.
  - intros t y Ht. apply Hh. by rewrite lookup_app_l by by eapply lookup_lt_Some.
Qed.

Lemma sigma_ext (n : nat) (f g : nat -> R) :
  (forall t, (t < n)%nat -> f t = g t) -> sigma n f = sigma n g.
Proof.
  unfold sigma. generalize 0%R. induction n as [|n IH]; intros a Hfg; [done|].
  rewrite seq_S, !fold_left_app. simpl. rewrite IH by (intros; apply Hfg; lia).
  f_equal. apply Hfg. lia.
Qed.

Lemma sigma_zero (n : nat) : sigma n (fun _ => 0%R) = 0%R.
Proof.
  unfold sigma. induction n as [|n IH]; [done|].
  rewrite seq_S, fold_left_app. simpl. rewrite IH. lra.
Qed.

(** An entry of the sum over axis 1 is the sum of the entries along that axis. *)
Lemma at2_sum_dim1 (t : Tensor3 R) (b e : nat) :
  wf3 t -> (b < dim0 t)%nat -> (e < dim2 t)%nat ->
  at2 (sum_dim1 t) b e = sigma (dim1 t) (fun i => at3 t b i e).
Proof.
  intros [Hlen Hall] Hb He. unfold at2, at3, sum_dim1, sigma. simpl.
  rewrite list_lookup_fmap.
  destruct (lookup_lt_is_Some_2 (val3 t) b ltac:(lia)) as [s Hs]. rewrite Hs. simpl.
  pose proof (proj1 (Forall_lookup _ _) Hall b s Hs) as [Hls Hvs].
  rewrite lookup_fold_vadd.
  - rewrite lookup_replicate_2 by done. simpl. rewrite <- Hls.
    apply fold_left_sigma. intros i v Hi. by rewrite Hi.
  - rewrite length_replicate. done.
  - by rewrite length_replicate.
Qed.

Lemma wf2_sum_dim1 (t : Tensor3 R) : wf3 t -> wf2 (sum_dim1 t).
Proof.
  intros [Hlen Hall]. split; simpl.
  - by rewrite length_map.
  - apply Forall_fmap. eapply list.Forall_impl; [exact Hall|]. intros s [_ Hvs]. simpl.
    rewrite length_fold_vadd; rewrite length_replicate; done.
Qed.

(** *** Facts on broadcasting *)

(** The index read on an axis of size [n] when position [i] of the
    broadcast result is computed. *)
Definition bidx (n i : nat) : nat := if Nat.eqb n 1 then 0%nat else i.

Lemma bidx_lt (n i : nat) : (i < n)%nat -> bidx n i = i.
Proof. unfold bidx. destruct (Nat.eqb_spec n 1); lia. Qed.

Lemma length_expand {A} (n : nat) (l : list A) :
  length l = n \/ length l = 1%nat -> length (expand n l) = n.
Proof.
  destruct l as [|x [|y l]]; simpl; rewrite ?length_replicate; intros [?|?]; lia.
Qed.

Lemma lookup_expand {A} (n i : nat) (l : list A) :
  length l = n \/ length l = 1%nat -> (i < n)%nat ->
  expand n l !! i = l !! bidx (length l) i.
Proof.
  unfold bidx. destruct l as [|x [|y l]]; simpl; intros Hl Hi.
  - lia.
  - by rewrite lookup_replicate_2.
  - done.
Qed.

Lemma broadcast_dim_Ok (a b n : nat) :
  broadcast_dim a b = Ok n -> (a = n \/ a = 1%nat) /\ (b = n \/ b = 1%nat).
Proof.
  unfold broadcast_dim.
  destruct (Nat.eqb_spec a b); [intros [= <-]; lia|].
  destruct (Nat.eqb_spec a 1); [intros [= <-]; lia|].
  destruct (Nat.eqb_spec b 1); [intros [= <-]; lia|done].
Qed.

Lemma wf3_lookup {A} (t : Tensor3 A) (b i : nat) :
  wf3 t -> (b < dim0 t)%nat -> (i < dim1 t)%nat ->
  exists s v, val3 t !! b = Some s /\ length s = dim1 t /\
              s !! i = Some v /\ length v = dim2 t.
Proof.
  intros [Hl Ha] Hb Hi.
  destruct (lookup_lt_is_Some_2 (val3 t) b ltac:(lia)) as [s Hs].
  pose proof (proj1 (Forall_lookup _ _) Ha b s Hs) as [Hls Hvs]. simpl in Hls.
  destruct (lookup_lt_is_Some_2 s i ltac:(lia)) as [v Hv].
  pose proof (proj1 (Forall_lookup _ _) Hvs i v Hv) as Hlv. simpl in Hlv.
  by exists s, v.
Qed.

(** The product is well formed, and each entry is the product of the
    entries that broadcasting pairs. *)
Lemma mul3_entries (x y : Tensor3 R) (out : Tensor3 R) :
  wf3 x -> wf3 y -> mul3 x y = Ok out ->
  wf3 out /\
  forall b t e, (b < dim0 out)%nat -> (t < dim1 out)%nat -> (e < dim2 out)%nat ->
    at3 out b t e =
    (at3 x (bidx (dim0 x) b) (bidx (dim1 x) t) (bidx (dim2 x) e) *
     at3 y (bidx (dim0 y) b) (bidx (dim1 y) t) (bidx (dim2 y) e))%R.
Proof.
  intros Hx Hy. unfold mul3.
  destruct (broadcast_dim (dim0 x) (dim0 y)) as [B|] eqn:HB; [|done].
  destruct (broadcast_dim (dim1 x) (dim1 y)) as [T|] eqn:HT; [|done].
  destruct (broadcast_dim (dim2 x) (dim2 y)) as [E|] eqn:HE; [|done].
  simpl. intros [= <-]. simpl.
  apply broadcast_dim_Ok in HB as [HBx HBy].
  apply broadcast_dim_Ok in HT as [HTx HTy].
  apply broadcast_dim_Ok in HE as [HEx HEy].
  pose proof Hx as [Hlx Hax]. pose proof Hy as [Hly Hay].
  assert (Hrows : forall b sx sy,
            expand B (val3 x) !! b = Some sx -> expand B (val3 y) !! b = Some sy ->
            (length sx = T \/ length sx = 1%nat) /\ (length sy = T \/ length sy = 1%nat) /\
            Forall (fun v => length v = E \/ length v = 1%nat) sx /\
            Forall (fun v => length v = E \/ length v = 1%nat) sy).
  { intros b sx sy Hsx Hsy.
    assert (Hin : forall (t : Tensor3 R) s, wf3 t ->
              (dim1 t = T \/ dim1 t = 1%nat) -> (dim2 t = E \/ dim2 t = 1%nat) ->
              s ∈ expand B (val3 t) ->
              (length s = T \/ length s = 1%nat) /\
              Forall (fun v => length v = E \/ length v = 1%nat) s).
    { intros t s [_ Ht] H1 H2 Hs.
      assert (s ∈ val3 t) as Hs'.
      { destruct (val3 t) as [|s0 [|s1 l]]; simpl in Hs; try done.
        apply elem_of_replicate in Hs as [-> _]. by left. }
      pose proof (proj1 (list.Forall_forall _ _) Ht s Hs') as [Hls Hvs]. simpl in Hls.
      split; [lia|]. eapply list.Forall_impl; [exact Hvs|]. simpl. intros; lia. }
    destruct (Hin x sx Hx HTx HEx) as [? ?]; [by eapply list_elem_of_lookup_2|].
    destruct (Hin y sy Hy HTy HEy) as [? ?]; [by eapply list_elem_of_lookup_2|].
    done. }
  split.
  - split; simpl.
    + rewrite length_zip_with, !length_expand by lia. lia.
    + apply Forall_lookup. intros b s Hs.
      apply lookup_zip_with_Some in Hs as (sx & sy & -> & Hsx & Hsy).
      destruct (Hrows b sx sy Hsx Hsy) as (Hlsx & Hlsy & Hvx & Hvy).
      split; [rewrite length_zip_with, !length_expand by lia; lia|].
      apply Forall_lookup. intros t v Hv.
      apply lookup_zip_with_Some in Hv as (vx & vy & -> & Hvx' & Hvy').
      assert (vx ∈ sx) as Hinx.
      { destruct sx as [|v0 [|v1 l]]; simpl in Hvx'; try done.
        - apply lookup_replicate in Hvx' as [-> _]. by left.
        - by eapply list_elem_of_lookup_2. }
      assert (vy ∈ sy) as Hiny.
      { destruct sy as [|v0 [|v1 l]]; simpl in Hvy'; try done.
        - apply lookup_replicate in Hvy' as [-> _]. by left.
        - by eapply list_elem_of_lookup_2. }
      pose proof (proj1 (list.Forall_forall _ _) Hvx vx Hinx) as Hlx'. simpl in Hlx'.
      pose proof (proj1 (list.Forall_forall _ _) Hvy vy Hiny) as Hly'. simpl in Hly'.
      rewrite length_zip_with, !length_expand by lia. lia.
  - intros b t e Hb Ht He. unfold at3. simpl.
    rewrite lookup_zip_with.
    rewrite !lookup_expand by lia. rewrite Hlx, Hly.
    assert (Hbx : (bidx (dim0 x) b < dim0 x)%nat).
    { unfold bidx. destruct (Nat.eqb_spec (dim0 x) 1); lia. }
    assert (Hby : (bidx (dim0 y) b < dim0 y)%nat).
    { unfold bidx. destruct (Nat.eqb_spec (dim0 y) 1); lia. }
    assert (Htx : (bidx (dim1 x) t < dim1 x)%nat).
    { unfold bidx. destruct (Nat.eqb_spec (dim1 x) 1); lia. }
    assert (Hty : (bidx (dim1 y) t < dim1 y)%nat).
    { unfold bidx. destruct (Nat.eqb_spec (dim1 y) 1); lia. }
    destruct (wf3_lookup x _ _ Hx Hbx Htx) as (sx & vx & Hsx & Hlsx & Hvx & Hlvx).
    destruct (wf3_lookup y _ _ Hy Hby Hty) as (sy & vy & Hsy & Hlsy & Hvy & Hlvy).
    rewrite Hsx, Hsy. simpl.
    rewrite lookup_zip_with, !lookup_expand by lia.
    rewrite Hlsx, Hlsy, Hvx, Hvy. simpl.
    rewrite lookup_zip_with, !lookup_expand by lia.
    rewrite Hlvx, Hlvy.
    assert (Hex : (bidx (dim2 x) e < dim2 x)%nat).
    { unfold bidx. destruct (Nat.eqb_spec (dim2 x) 1); lia. }
    assert (Hey : (bidx (dim2 y) e < dim2 y)%nat).
    { unfold bidx. destruct (Nat.eqb_spec (dim2 y) 1); lia. }
    destruct (lookup_lt_is_Some_2 vx (bidx (dim2 x) e) ltac:(lia)) as [a ->].
    destruct (lookup_lt_is_Some_2 vy (bidx (dim2 y) e) ltac:(lia)) as [c ->].
    done.
Qed.

Lemma wf3_unsqueeze2 {A} (t : Tensor2 A) : wf2 t -> wf3 (unsqueeze2 t).
Proof.
  intros [Hl Hr]. split; simpl; [by rewrite length_map|].
  apply Forall_fmap. eapply list.Forall_impl; [exact Hr|]. simpl. intros r Hlr.
  split; [by rewrite length_map|]. apply Forall_fmap. by apply Forall_true.
Qed.

Lemma at3_unsqueeze2 (t : Tensor2 R) (b i : nat) :
  at3 (unsqueeze2 t) b i 0 = at2 t b i.
Proof.
  unfold at3, at2, unsqueeze2. simpl. rewrite list_lookup_fmap.
  destruct (val2 t !! b) as [r|]; simpl; [|done].
  rewrite list_lookup_fmap. by destruct (r !! i).
Qed.

(** *** Linear layers and softmax *)

(** [nn.Linear(in_features, out_features)]: [weight] has one row per
    output, [bias] one entry per output. *)
Record Linear : Type := MkLinear {
  in_features : nat;
  out_features : nat;
  weight : list (list R);
  bias : list R
}.

Definition wf_linear (l : Linear) : Prop :=
  length (weight l) = out_features l /\
  Forall (fun w => length w = in_features l) (weight l) /\
  length (bias l) = out_features l.

Definition dot (x w : list R) : R := fold_left Rplus (zip_with Rmult x w) 0%R.

(** [x @ weight.T + bias] for one vector [x]. *)
Definition linear_vec (l : Linear) (x : list R) : list R :=
  zip_with (fun w b => (dot x w + b)%R) (weight l) (bias l).

(** A linear layer applied along the last axis; the size of that axis
    has to be [in_features]. *)
Definition linear3 (l : Linear) (t : Tensor3 R) : result (Tensor3 R) :=
  if Nat.eqb (dim2 t) (in_features l)
  then Ok (T3 (dim0 t) (dim1 t) (out_features l) (map (map (linear_vec l)) (val3 t)))
  else Raise RuntimeError.

Definition linear2 (l : Linear) (t : Tensor2 R) : result (Tensor2 R) :=
  if Nat.eqb (cols t) (in_features l)
  then Ok (T2 (rows t) (out_features l) (map (linear_vec l) (val2 t)))
  else Raise RuntimeError.

(** [F.softmax(t, dim=1)] for [t] of shape [B, T, K]. *)
Definition softmax_dim1 (t : Tensor3 R) : Tensor3 R :=
  T3 (dim0 t) (dim1 t) (dim2 t)
     (map (fun s =>
             let es := map (map exp) s in
             let denom := fold_left vadd es (replicate (dim2 t) 0%R) in
             map (fun v => zip_with Rdiv v denom) es)
          (val3 t)).

Lemma length_linear_vec (l : Linear) (x : list R) :
  wf_linear l -> length (linear_vec l x) = out_features l.
Proof.
  intros (Hw & _ & Hb). unfold linear_vec. rewrite length_zip_with. lia.
Qed.

Lemma wf3_linear3 (l : Linear) (t out : Tensor3 R) :
  wf_linear l -> wf3 t -> linear3 l t = Ok out ->
  wf3 out /\ dim0 out = dim0 t /\ dim1 out = dim1 t /\ dim2 out = out_features l.
Proof.
  intros Hl [Hlt Hat]. unfold linear3.
  destruct (Nat.eqb _ _); [|done]. intros [= <-]. simpl. split; [|done].
  split; simpl; [by rewrite length_map|].
  apply Forall_fmap. eapply list.Forall_impl; [exact Hat|]. simpl. intros s [Hls _].
  split; [by rewrite length_map|]. apply Forall_fmap. apply Forall_true.
  intros x. by apply length_linear_vec.
Qed.

Lemma wf2_linear2 (l : Linear) (t out : Tensor2 R) :
  wf_linear l -> wf2 t -> linear2 l t = Ok out ->
  wf2 out /\ rows out = rows t /\ cols out = out_features l.
Proof.
  intros Hl [Hlt Hat]. unfold linear2.
  destruct (Nat.eqb _ _); [|done]. intros [= <-]. simpl. split; [|done].
  split; simpl; [by rewrite length_map|].
  apply Forall_fmap. apply Forall_true. intros x. by apply length_linear_vec.
Qed.

Lemma wf3_softmax_dim1 (t : Tensor3 R) : wf3 t -> wf3 (softmax_dim1 t).
Proof.
  intros [Hl Ha]. split; simpl; [by rewrite length_map|].
  apply Forall_fmap. eapply list.Forall_impl; [exact Ha|]. simpl. intros s [Hls Hvs].
  split; [by rewrite !length_map|].
  apply Forall_fmap, Forall_fmap. eapply list.Forall_impl; [exact Hvs|]. simpl.
  intros v Hv. rewrite length_zip_with, length_map, length_fold_vadd.
  - rewrite length_replicate. lia.
  - apply Forall_fmap. eapply list.Forall_impl; [exact Hvs|]. simpl.
    intros u Hu. by rewrite length_map, length_replicate.
Qed.

(** A softmax entry is the exponential of the entry over the sum of the
    exponentials along axis 1. *)
Lemma at3_softmax_dim1 (t : Tensor3 R) (b i k : nat) :
  wf3 t -> (b < dim0 t)%nat -> (i < dim1 t)%nat -> (k < dim2 t)%nat ->
  at3 (softmax_dim1 t) b i k =
  (exp (at3 t b i k) / sigma (dim1 t) (fun j => exp (at3 t b j k)))%R.
Proof.
  intros Ht Hb Hi Hk.
  destruct (wf3_lookup t b i Ht Hb Hi) as (s & v & Hs & Hls & Hv & Hlv).
  pose proof Ht as [_ Ha].
  pose proof (proj1 (Forall_lookup _ _) Ha b s Hs) as [_ Hvs].
  destruct (lookup_lt_is_Some_2 v k ltac:(lia)) as [x Hx].
  unfold at3, softmax_dim1. simpl.
  rewrite list_lookup_fmap, Hs. simpl.
  rewrite !list_lookup_fmap, Hv. simpl.
  rewrite lookup_zip_with, list_lookup_fmap, Hx. simpl.
  assert (Hden : default 0%R (fold_left vadd (map (map exp) s)
                                (replicate (dim2 t) 0%R) !! k) =
                 sigma (dim1 t) (fun j : nat =>
                   exp (default 0%R (Some s ≫= fun s0 => s0 !! j ≫= fun v0 => v0 !! k)))).
  { rewrite lookup_fold_vadd.
    - rewrite lookup_replicate_2 by done. simpl. unfold sigma.
      rewrite <- Hls, <- (length_map (map exp) s).
      apply fold_left_sigma. intros j u Hu. simpl.
      rewrite list_lookup_fmap in Hu.
      destruct (s !! j) as [v0|] eqn:Hv0; [|done]. simpl in Hu. injection Hu as <-.
      pose proof (proj1 (Forall_lookup _ _) Hvs j v0 Hv0) as Hl0. simpl in Hl0.
      simpl. rewrite list_lookup_fmap.
      destruct (lookup_lt_is_Some_2 v0 k ltac:(lia)) as [y ->]. done.
    - apply Forall_fmap. eapply list.Forall_impl; [exact Hvs|]. simpl.
      intros u Hu. by rewrite length_map, length_replicate.
    - by rewrite length_replicate. }
  destruct (fold_left vadd (map (map exp) s) (replicate (dim2 t) 0%R) !! k)
    as [d|] eqn:Hd.
  - simpl in *. by rewrite Hden.
  - exfalso. apply lookup_ge_None in Hd. rewrite length_fold_vadd in Hd.
    + rewrite length_replicate in Hd. lia.
    + apply Forall_fmap. eapply list.Forall_impl; [exact Hvs|]. simpl.
      intros u Hu. by rewrite length_map, length_replicate.
Qed.

Lemma sigma_div (n : nat) (f : nat -> R) (c : R) :
  sigma n (fun t => (f t / c)%R) = (sigma n f / c)%R.
Proof.
  unfold sigma. induction n as [|n IH].
  - simpl. unfold Rdiv. lra.
  - rewrite seq_S, !fold_left_app. simpl. rewrite IH. unfold Rdiv. lra.
Qed.

Lemma sigma_pos (n : nat) (f : nat -> R) :
  (0 < n)%nat -> (forall t, (t < n)%nat -> (0 < f t)%R) -> (0 < sigma n f)%R.
Proof.
  unfold sigma. intros Hn Hf. destruct n as [|n]; [lia|]. clear Hn.
  induction n as [|n IH].
  - simpl. specialize (Hf 0%nat ltac:(lia)). lra.
  - rewrite seq_S, fold_left_app. simpl.
    specialize (Hf (S n) ltac:(lia)) as Hl. 
    assert (0 < fold_left (fun acc t => (acc + f t)%R) (seq 0 (S n)) 0)%R.
    { apply IH. intros t Ht. apply Hf. lia. }
    simpl in *. lra.
Qed.

Lemma broadcast_dim_1_l (n : nat) : broadcast_dim 1 n = Ok n.
Proof.
  unfold broadcast_dim. destruct (Nat.eqb_spec 1 n) as [<-|?]; done.
Qed.

(** *** Embeddings, concatenation, dropout *)

(** A tensor as a batch holds it: integer entries (token ids, masks) or
    floating-point entries. *)
Inductive Tensor : Type :=
| LongTensor (t : Tensor2 Z)
| FloatTensor (t : Tensor2 R).

(** Type promotion to floating point, as [*] does with a float operand. *)
Definition to_float (t : Tensor) : Tensor2 R :=
  match t with
  | LongTensor t => T2 (rows t) (cols t) (map (map IZR) (val2 t))
  | FloatTensor t => t
  end.

(** [nn.Embedding]: one row of [embedding_dim] entries per index. *)
Record Embedding : Type := MkEmbedding {
  num_embeddings : nat;
  embedding_dim : nat;
  padding_idx : option nat;
  table : list (list R)
}.

Definition wf_embedding (emb : Embedding) : Prop :=
  length (table emb) = num_embeddings emb /\
  Forall (fun r => length r = embedding_dim emb) (table emb).

(** [nn.Embedding(num_embeddings, embedding_dim, padding_idx)]: the
    entries are drawn at random ([init] stands for the draw), then the
    row at the padding index is filled with zeros. *)
Definition nn_Embedding (num_embeddings embedding_dim padding_idx : Z)
    (init : nat -> nat -> R) : result Embedding :=
  do pad <-
    (if 0 <? padding_idx
     then if padding_idx <? num_embeddings then Ok padding_idx else Raise AssertionError
     else if padding_idx <? 0
          then if - num_embeddings <=? padding_idx
               then Ok (num_embeddings + padding_idx) else Raise AssertionError
          else Ok padding_idx);
  if (num_embeddings <? 0) || (embedding_dim <? 0) then Raise RuntimeError
  else if num_embeddings <=? pad then Raise IndexError
  else
    let n := Z.to_nat num_embeddings in
    let d := Z.to_nat embedding_dim in
    Ok (MkEmbedding n d (Some (Z.to_nat pad))
          (<[Z.to_nat pad := replicate d 0%R]>
             (map (fun i => map (init i) (seq 0 d)) (seq 0 n)))).

(** The row of one index; an index outside the table raises. *)
Definition embedding_row (emb : Embedding) (i : Z) : result (list R) :=
  if (i <? 0) || (Z.of_nat (num_embeddings emb) <=? i) then Raise IndexError
  else match table emb !! Z.to_nat i with
       | Some r => Ok r
       | None => Raise IndexError
       end.

(** [emb(ids)]: shape [B, T] to shape [B, T, embedding_dim]. *)
Definition embedding_forward (emb : Embedding) (ids : Tensor) : result (Tensor3 R) :=
  match ids with
  | FloatTensor _ => Raise RuntimeError
  | LongTensor ids =>
      do v <- mapM (mapM (embedding_row emb)) (val2 ids);
      Ok (T3 (rows ids) (cols ids) (embedding_dim emb) v)
  end.

(** [torch.cat(ts, dim=1)] on tensors with two axes. *)
Fixpoint cat_rows (n : nat) (ts : list (Tensor2 R)) : list (list R) :=
  match ts with
  | [] => replicate n []
  | t :: ts' => zip_with app (val2 t) (cat_rows n ts')
  end.

Definition cat_dim1 (ts : list (Tensor2 R)) : result (Tensor2 R) :=
  match ts with
  | [] => Raise RuntimeError
  | t :: ts' =>
      if forallb (fun t' => Nat.eqb (rows t') (rows t)) ts'
      then Ok (T2 (rows t) (sum_list (map cols ts)) (cat_rows (rows t) ts))
      else Raise RuntimeError
  end.

(** [F.dropout(x, p, training)].  [keep b e] tells whether the entry at
    [b], [e] survives the random draw; survivors are scaled by
    [1 / (1 - p)].  Outside training the input is returned as it is. *)
Definition F_dropout (x : Tensor2 R) (p : R) (training : bool)
    (keep : nat -> nat -> bool) : result (Tensor2 R) :=
  if Rlt_dec p 0 then Raise ValueError
  else if Rlt_dec 1 p then Raise ValueError
  else if training
  then Ok (T2 (rows x) (cols x)
             (imap (fun b r =>
                      imap (fun e v =>
                              if Req_dec_T p 1 then 0%R
                              else if keep b e then (v / (1 - p))%R else 0%R) r)
                   (val2 x)))
  else Ok x.

(** *** Shapes of embeddings, concatenations and dropout *)

Lemma nn_Embedding_Ok (num dim pad : Z) (init : nat -> nat -> R) (emb : Embedding) :
  nn_Embedding num dim pad init = Ok emb ->
  0 <= dim /\ wf_embedding emb /\ embedding_dim emb = Z.to_nat dim /\
  num_embeddings emb = Z.to_nat num /\
  exists p, padding_idx emb = Some p /\ (p < num_embeddings emb)%nat /\
            table emb !! p = Some (replicate (embedding_dim emb) 0%R).
Proof.
  unfold nn_Embedding.
  set (padr := if 0 <? pad then _ else _).
  destruct padr as [p|] eqn:Hp; simpl; [|done].
  destruct (Z.ltb_spec num 0); simpl; [done|].
  destruct (Z.ltb_spec dim 0); simpl; [done|].
  destruct (Z.leb_spec num p); [done|].
  assert (0 <= p).
  { subst padr. destruct (Z.ltb_spec 0 pad).
    - destruct (pad <? num); [|done]. injection Hp as <-. lia.
    - destruct (Z.ltb_spec pad 0).
      + destruct (Z.leb_spec (- num) pad); [|done]. injection Hp as <-. lia.
      + injection Hp as <-. lia. }
  intros [= <-]. cbn [embedding_dim num_embeddings padding_idx table].
  split; [done|]. split.
  - split; cbn [embedding_dim num_embeddings padding_idx table].
    + by rewrite length_insert, length_map, length_seq.
    + apply Forall_insert.
      * apply Forall_fmap. apply Forall_true. intros i. simpl.
        by rewrite length_map, length_seq.
      * by rewrite length_replicate.
  - split; [done|]. split; [done|]. exists (Z.to_nat p).
    split; [done|]. split; [lia|].
    apply list_lookup_insert_eq. rewrite length_map, length_seq. lia.
Qed.

Lemma embedding_forward_Ok (emb : Embedding) (ids : Tensor2 Z) :
  wf_embedding emb -> wf2 ids ->
  Forall (Forall (fun i => 0 <= i < Z.of_nat (num_embeddings emb))) (val2 ids) ->
  exists data, embedding_forward emb (LongTensor ids) = Ok data /\
               wf3 data /\ dim0 data = rows ids /\ dim1 data = cols ids /\
               dim2 data = embedding_dim emb.
Proof.
  intros [Hlt Hrt] [Hli Hri] Hrange. unfold embedding_forward.
  assert (Hrow : forall i, 0 <= i < Z.of_nat (num_embeddings emb) ->
            exists r, embedding_row emb i = Ok r /\ length r = embedding_dim emb).
  { intros i Hi. unfold embedding_row.
    destruct (Z.ltb_spec i 0); [lia|]. destruct (Z.leb_spec (Z.of_nat (num_embeddings emb)) i);
      [lia|]. simpl.
    destruct (lookup_lt_is_Some_2 (table emb) (Z.to_nat i) ltac:(lia)) as [r Hr].
    rewrite Hr. exists r. split; [done|].
    exact (proj1 (Forall_lookup _ _) Hrt _ _ Hr). }
  assert (Hseq : forall s, Forall (fun i => 0 <= i < Z.of_nat (num_embeddings emb)) s ->
            exists vs, mapM (embedding_row emb) s = Ok vs /\ length vs = length s /\
                       Forall (fun v => length v = embedding_dim emb) vs).
  { induction s as [|i s IH]; intros Hs; simpl; [by exists []|].
    apply Forall_cons_1 in Hs as [Hi Hs].
    destruct (Hrow i Hi) as (r & -> & Hr). destruct (IH Hs) as (vs & -> & Hl & Hv).
    simpl. exists (r :: vs). split; [done|]. split; [simpl; lia|]. by constructor. }
  assert (Hall : forall l, Forall (fun r => length r = cols ids) l ->
            Forall (Forall (fun i => 0 <= i < Z.of_nat (num_embeddings emb))) l ->
            exists v, mapM (mapM (embedding_row emb)) l = Ok v /\ length v = length l /\
              Forall (fun s => length s = cols ids /\
                        Forall (fun v => length v = embedding_dim emb) s) v).
  { induction l as [|s l IH]; intros Hl Hr; simpl; [by exists []|].
    apply Forall_cons_1 in Hl as [Hs Hl]. apply Forall_cons_1 in Hr as [Hsr Hr].
    destruct (Hseq s Hsr) as (vs & -> & Hlv & Hv). destruct (IH Hl Hr) as (v & -> & Hlen & Hfa).
    simpl. exists (vs :: v). split; [done|]. split; [simpl; lia|].
    constructor; [|done]. split; [lia|done]. }
  destruct (Hall (val2 ids) Hri Hrange) as (v & -> & Hlen & Hfa). simpl.
  eexists. split; [done|]. split; [|done]. split; simpl; [lia|done].
Qed.

Lemma cat_rows_wf (n : nat) (ts : list (Tensor2 R)) :
  Forall (fun t => wf2 t /\ rows t = n) ts ->
  length (cat_rows n ts) = n /\
  Forall (fun r => length r = sum_list (map cols ts)) (cat_rows n ts).
Proof.
  induction ts as [|t ts IH]; intros Hts; simpl.
  - rewrite length_replicate. split; [done|]. apply Forall_replicate. done.
  - apply Forall_cons_1 in Hts as [[[Hl Hr] Hn] Hts].
    destruct (IH Hts) as [IHl IHr]. split.
    + rewrite length_zip_with. lia.
    + apply Forall_lookup. intros i r Hi.
      apply lookup_zip_with_Some in Hi as (x & y & -> & Hx & Hy).
      rewrite length_app.
      pose proof (proj1 (Forall_lookup _ _) Hr _ _ Hx) as Hx'.
      pose proof (proj1 (Forall_lookup _ _) IHr _ _ Hy) as Hy'.
      simpl in Hx', Hy'. lia.
Qed.

Lemma cat_dim1_Ok (n : nat) (ts : list (Tensor2 R)) :
  ts <> [] -> Forall (fun t => wf2 t /\ rows t = n) ts ->
  exists out, cat_dim1 ts = Ok out /\ wf2 out /\ rows out = n /\
              cols out = sum_list (map cols ts).
Proof.
  intros Hne Hts. destruct ts as [|t ts]; [done|]. unfold cat_dim1.
  pose proof Hts as Hts'. apply Forall_cons_1 in Hts' as [[_ Hn] Hrest].
  assert (forallb (fun t' => Nat.eqb (rows t') (rows t)) ts = true) as ->.
  { apply forallb_forall. intros t' Hin. apply Nat.eqb_eq.
    apply list_elem_of_In in Hin.
    pose proof (proj1 (list.Forall_forall _ _) Hrest t' Hin) as [_ ?]. lia. }
  eexists. split; [done|]. rewrite Hn.
  destruct (cat_rows_wf n (t :: ts) Hts) as [Hl Hr].
  split; [by split|done].
Qed.

Lemma F_dropout_Ok (x : Tensor2 R) (p : R) (training : bool) (keep : nat -> nat -> bool) :
  wf2 x -> (0 <= p <= 1)%R ->
  exists out, F_dropout x p training keep = Ok out /\ wf2 out /\
              rows out = rows x /\ cols out = cols x.
Proof.
  intros [Hl Hr] Hp. unfold F_dropout.
  destruct (Rlt_dec p 0); [lra|]. destruct (Rlt_dec 1 p); [lra|].
  destruct training; [|by exists x].
  eexists. split; [done|]. split; [|done]. split; simpl.
  - by rewrite length_imap.
  - apply Forall_lookup. intros b r Hb.
    apply list_lookup_imap_Some in Hb as (r0 & Hr0 & ->).
    rewrite length_imap. exact (proj1 (Forall_lookup _ _) Hr _ _ Hr0).
Qed.

Lemma linear2_Ok (l : Linear) (t : Tensor2 R) :
  wf_linear l -> wf2 t -> cols t = in_features l ->
  exists out, linear2 l t = Ok out /\ wf2 out /\ rows out = rows t /\
              cols out = out_features l.
Proof.
  intros Hl Ht Hc. unfold linear2. rewrite Hc, Nat.eqb_refl.
  eexists. split; [done|].
  eapply wf2_linear2; [done|exact Ht|].
  unfold linear2. by rewrite Hc, Nat.eqb_refl.
Qed.

(** *** The gradient of an embedding and the AdamW update *)

Definition zeros2 (n d : nat) : list (list R) := replicate n (replicate d 0%R).

(** [grad[i] += row], the table unchanged when [i] is outside it. *)
Definition add_row (grad : list (list R)) (i : nat) (row : list R) : list (list R) :=
  match grad !! i with
  | Some r => <[i := vadd r row]> grad
  | None => grad
  end.

(** The gradient that [backward] accumulates for the table of an
    embedding from the gradient [grad_out] of its output: the row of
    every looked-up index receives the gradient of that position, except
    for positions that hold the padding index. *)
Definition embedding_backward (emb : Embedding) (ids : list (list Z))
    (grad_out : list (list (list R))) : list (list R) :=
  fold_left
    (fun grad '(i, g) =>
       if decide (padding_idx emb = Some (Z.to_nat i)) then grad
       else add_row grad (Z.to_nat i) g)
    (zip (concat ids) (concat grad_out))
    (zeros2 (num_embeddings emb) (embedding_dim emb)).

(** The state that AdamW keeps for one parameter. *)
Record AdamState : Type := MkAdamState {
  step : nat;
  exp_avg : list (list R);
  exp_avg_sq : list (list R)
}.

(** The hyperparameters of [optim.AdamW(params, lr=lr)]: the defaults of
    the library next to the learning rate. *)
Record AdamW : Type := MkAdamW {
  lr : R;
  beta1 : R;
  beta2 : R;
  eps : R;
  weight_decay : R
}.

Definition optim_AdamW (lr : R) : AdamW :=
  MkAdamW lr (9 / 10) (999 / 1000) (1 / 100000000) (1 / 100).

(** One entry of one step: decoupled weight decay, the two moments, the
    bias corrections, the update. *)
Definition adamw_entry (o : AdamW) (t : nat) (p g m v : R) : R * R * R :=
  let p1 := (p * (1 - lr o * weight_decay o))%R in
  let m' := (beta1 o * m + (1 - beta1 o) * g)%R in
  let v' := (beta2 o * v + (1 - beta2 o) * (g * g))%R in
  let bias_correction1 := (1 - beta1 o ^ t)%R in
  let bias_correction2 := (1 - beta2 o ^ t)%R in
  let step_size := (lr o / bias_correction1)%R in
  let denom := (sqrt v' / sqrt bias_correction2 + eps o)%R in
  ((p1 - step_size * (m' / denom))%R, m', v').

Definition zip4_with {A B C D E} (f : A -> B -> C -> D -> E)
    (la : list A) (lb : list B) (lc : list C) (ld : list D) : list E :=
  zip_with (fun ab cd => f (fst ab) (snd ab) (fst cd) (snd cd)) (zip la lb) (zip lc ld).

(** [optimizer.step()] on one table with its gradient; the state starts
    from zeros at the first step. *)
Definition adamw_step (o : AdamW) (param grad : list (list R)) (st : option AdamState)
    : list (list R) * AdamState :=
  let st0 := default (MkAdamState 0 (map (map (fun _ => 0%R)) param)
                                    (map (map (fun _ => 0%R)) param)) st in
  let t := S (step st0) in
  let upd := zip4_with (zip4_with (adamw_entry o t))
                       param grad (exp_avg st0) (exp_avg_sq st0) in
  (map (map (fun x => fst (fst x))) upd,
   MkAdamState t (map (map (fun x => snd (fst x))) upd) (map (map snd) upd)).

(** The row of the first maximal entry, [torch.argmax] on one row. *)
Definition argmax_row (r : list R) : result Z :=
  match r with
  | [] => Raise RuntimeError
  | x :: r' =>
      Ok (fst (fst (fold_left
                      (fun '(best, bestv, i) y =>
                         if Rlt_dec bestv y then (i, y, i + 1)
                         else (best, bestv, i + 1))
                      r' (0, x, 1))))
  end.

(** [torch.argmax(logits, dim=1)] *)
Definition argmax_dim1 (logits : Tensor2 R) : result (list Z) :=
  if Nat.eqb (cols logits) 0 then Raise RuntimeError
  else mapM argmax_row (val2 logits).

(** [int(torch.sum(label_preds == batch_labels))] *)
Definition count_equal (label_preds batch_labels : list Z) : result Z :=
  do n <- broadcast_dim (length label_preds) (length batch_labels);
  Ok (Z.of_nat (length (List.filter (fun '(a, b) => Z.eqb a b)
                          (zip (expand n label_preds) (expand n batch_labels))))).

(** [nn.CrossEntropyLoss()] on logits of shape [B, C] and [B] class
    indices: the mean over the batch of the negative log-softmax at the
    label, labels equal to the ignore index [-100] left out. *)
Definition cross_entropy_row (row : list R) (y : Z) : result R :=
  if (y <? 0) || (Z.of_nat (length row) <=? y) then Raise IndexError
  else Ok (ln (fold_left Rplus (map exp row) 0%R) - nth (Z.to_nat y) row 0%R)%R.

Definition nn_CrossEntropyLoss (logits : Tensor2 R) (labels : list Z) : result R :=
  if negb (Nat.eqb (length labels) (rows logits)) then Raise ValueError
  else
    do terms <- mapM (fun '(row, y) =>
                        if Z.eqb y (-100) then Ok None
                        else do l <- cross_entropy_row row y; Ok (Some l))
                     (zip (val2 logits) labels);
    let kept := omap (fun term => term) terms in
    Ok (fold_left Rplus kept 0%R / INR (length kept))%R.

(** *** The padding row under the optimizer *)





(** A well-formed tensor whose entries are all 0 is the zero tensor. *)
Lemma val2_all_zero (t : Tensor2 R) :
  wf2 t ->
  (forall b e, (b < rows t)%nat -> (e < cols t)%nat -> at2 t b e = 0%R) ->
  val2 t = replicate (rows t) (replicate (cols t) 0%R).
Proof.
  intros [Hl Hr] Hz.
  apply list_eq_same_length with (rows t); [by rewrite length_replicate|done|].
  intros b r r' Hb Hrb Hr'. apply lookup_replicate in Hr' as [-> _].
  pose proof (proj1 (Forall_lookup _ _) Hr b r Hrb) as Hlr. simpl in Hlr.
  apply list_eq_same_length with (cols t); [by rewrite length_replicate|done|].
  intros e x x' He Hx Hx'. apply lookup_replicate in Hx' as [-> _].
  pose proof (Hz b e Hb He) as Hbe. unfold at2 in Hbe.
  rewrite Hrb in Hbe. simpl in Hbe. rewrite Hx in Hbe. done.
Qed.

(** Two well-formed tensors of one shape with the same entries are equal. *)
Lemma tensor2_ext (x y : Tensor2 R) :
  wf2 x -> wf2 y -> rows x = rows y -> cols x = cols y ->
  (forall b e, (b < rows x)%nat -> (e < cols x)%nat -> at2 x b e = at2 y b e) ->
  x = y.
Proof.
  destruct x as [rx cx vx], y as [ry cy vy]. unfold wf2, at2. simpl.
  intros [Hlx Hrx] [Hly Hry] -> -> Hat. f_equal.
  apply list_eq_same_length with ry; [done|done|].
  intros b r r' Hb Hr Hr'.
  pose proof (proj1 (Forall_lookup _ _) Hrx b r Hr) as H1.
  pose proof (proj1 (Forall_lookup _ _) Hry b r' Hr') as H2. simpl in H1, H2.
  apply list_eq_same_length with cy; [done|done|].
  intros e u u' He Hu Hu'. specialize (Hat b e Hb He).
  rewrite Hr, Hr' in Hat. simpl in Hat. by rewrite Hu, Hu' in Hat.
Qed.

Lemma sigma_le (n : nat) (f g : nat -> R) :
  (forall t, (t < n)%nat -> (f t <= g t)%R) -> (sigma n f <= sigma n g)%R.
Proof.
  unfold sigma. induction n as [|n IH]; intros H; [simpl; lra|].
  rewrite seq_S, !fold_left_app. simpl.
  specialize (IH ltac:(intros; apply H; lia)). specialize (H n ltac:(lia)). lra.
Qed.

Lemma sigma_mult_r (n : nat) (f : nat -> R) (c : R) :
  sigma n (fun t => (f t * c)%R) = (sigma n f * c)%R.
Proof.
  unfold sigma. induction n as [|n IH]; [simpl; lra|].
  rewrite seq_S, !fold_left_app. simpl. rewrite IH. lra.
Qed.

End Torch.

(** ** The pooling strategies

    The repository builds every pooler with [dim=1]; the model fixes the
    reduced axis to 1. *)

Module Pooling.
Import Torch.

(** The three pooler classes.  The weighted pooler owns a linear layer to
    one output; the recurrent pooler owns an [nn.LSTM], taken here as the
    function from the input to [last_hidden[0]]. *)
Inductive Pooler : Type :=
| MaskedMeanPooler
| WeightedSumPooler (linear : Linear)
| LSTMPooler (hidden_size : nat) (lstm : Tensor3 R -> result (Tensor2 R)).

(** [MaskedMeanPooler.forward] *)
Definition MaskedMeanPooler_forward (data : Tensor3 R) (masks : Tensor2 R)
    : result (Tensor2 R) :=
  do masked_data <- mul3 data (unsqueeze2 masks);
  Ok (sum_dim1 masked_data).

(** [WeightedSumPooler.forward]; [masks] is not read. *)
Definition WeightedSumPooler_forward (linear : Linear) (data : Tensor3 R)
    (masks : Tensor2 R) : result (Tensor2 R) :=
  do scores <- linear3 linear data;
  let weights := softmax_dim1 scores in
  do weighted <- mul3 weights data;
  Ok (sum_dim1 weighted).

(** [LSTMPooler.forward]; [masks] only has its shape unpacked. *)
Definition LSTMPooler_forward (lstm : Tensor3 R -> result (Tensor2 R))
    (data : Tensor3 R) (masks : Tensor2 R) : result (Tensor2 R) :=
  lstm data.

(** [self.pooler(data=..., masks=...)] *)
Definition forward (pooler : Pooler) (data : Tensor3 R) (masks : Tensor2 R)
    : result (Tensor2 R) :=
  match pooler with
  | MaskedMeanPooler => MaskedMeanPooler_forward data masks
  | WeightedSumPooler linear => WeightedSumPooler_forward linear data masks
  | LSTMPooler _ lstm => LSTMPooler_forward lstm data masks
  end.

(** The embedding of one position, [data[b][t]]. *)
Definition position (data : Tensor3 R) (b t : nat) : list R :=
  default [] (val3 data !! b ≫= fun s => s !! t).

(** The weight that the softmax gives to position [t] of sequence [b]
    when the scoring layer has the weight row [w0] and the bias [b0]. *)
Definition softmax_weight (w0 : list R) (b0 : R) (data : Tensor3 R) (b t : nat) : R :=
  (exp (dot (position data b t) w0 + b0) /
   sigma (dim1 data) (fun j => exp (dot (position data b j) w0 + b0)))%R.

(** On matching shapes the masked-mean pooler returns, and each entry of
    its result is a sum of products along the sequence axis. *)
Lemma MaskedMeanPooler_forward_Ok (data : Tensor3 R) (masks : Tensor2 R) :
  wf3 data -> wf2 masks -> rows masks = dim0 data -> cols masks = dim1 data ->
  exists out,
    MaskedMeanPooler_forward data masks = Ok out /\
    wf2 out /\ rows out = dim0 data /\ cols out = dim2 data /\
    (forall b e, (b < dim0 data)%nat -> (e < dim2 data)%nat ->
       at2 out b e = sigma (dim1 data) (fun t => (at3 data b t e * at2 masks b t)%R)).
Proof.
  intros Hd Hm HB HT. unfold MaskedMeanPooler_forward.
  destruct (mul3 data (unsqueeze2 masks)) as [masked_data|e] eqn:Hmul; cycle 1.
  { exfalso. revert Hmul. unfold mul3. simpl.
    rewrite HB, HT, !broadcast_dim_same. simpl.
    unfold broadcast_dim. destruct (Nat.eqb (dim2 data) 1) eqn:E1; [done|].
    destruct (Nat.eqb_spec (dim2 data) 1); done. }
  destruct (mul3_entries data (unsqueeze2 masks) masked_data Hd (wf3_unsqueeze2 _ Hm) Hmul)
    as [Hwf Hat].
  assert (Hdims : dim0 masked_data = dim0 data /\ dim1 masked_data = dim1 data /\
                  dim2 masked_data = dim2 data).
  { revert Hmul. unfold mul3. simpl. rewrite HB, HT, !broadcast_dim_same. simpl.
    unfold broadcast_dim. destruct (Nat.eqb_spec (dim2 data) 1) as [->|?]; simpl.
    - by intros [= <-].
    - destruct (Nat.eqb_spec (dim2 data) 1); [done|]. simpl. by intros [= <-]. }
  destruct Hdims as (H0 & H1 & H2).
  exists (sum_dim1 masked_data). split; [done|].
  split; [by apply wf2_sum_dim1|]. split; [done|]. split; [done|].
  intros b e Hb He. rewrite at2_sum_dim1 by (done || lia). rewrite H1.
  apply sigma_ext. intros t Ht. rewrite Hat by lia. simpl.
  rewrite (bidx_lt (dim0 data)), (bidx_lt (dim1 data)), (bidx_lt (dim2 data)) by lia.
  rewrite (bidx_lt (rows masks)), (bidx_lt (cols masks)) by lia.
  change (bidx 1 e) with 0%nat. by rewrite at3_unsqueeze2.
Qed.

(** C1. On a [data] of shape [B, T, E] and [masks] of shape [B, T] the
    masked-mean pooler returns, at every batch row and embedding
    coordinate, the sum over the sequence axis of the embedding entry
    times its mask value; nothing is divided by the number of valid
    tokens.  An all-zero mask gives the all-zero result, and an all-one
    mask gives the plain sum of the sequence. *)
Theorem MaskedMeanPooler_forward_masked_sum (data : Tensor3 R) (masks : Tensor2 R) :
  wf3 data -> wf2 masks -> rows masks = dim0 data -> cols masks = dim1 data ->
  exists out,
    MaskedMeanPooler_forward data masks = Ok out /\
    wf2 out /\ rows out = dim0 data /\ cols out = dim2 data /\
    (forall b e, (b < dim0 data)%nat -> (e < dim2 data)%nat ->
       at2 out b e = sigma (dim1 data) (fun t => (at3 data b t e * at2 masks b t)%R)) /\
    ((forall b t, (b < dim0 data)%nat -> (t < dim1 data)%nat -> at2 masks b t = 0%R) ->
     val2 out = replicate (dim0 data) (replicate (dim2 data) 0%R)) /\
    ((forall b t, (b < dim0 data)%nat -> (t < dim1 data)%nat -> at2 masks b t = 1%R) ->
     forall b e, (b < dim0 data)%nat -> (e < dim2 data)%nat ->
       at2 out b e = sigma (dim1 data) (fun t => at3 data b t e)).
Proof.
  intros Hd Hm HB HT.
  destruct (MaskedMeanPooler_forward_Ok data masks Hd Hm HB HT)
    as (out & Hout & Hwo & H0 & H2 & Hsum).
  exists out. split; [done|]. split; [done|].
  split; [done|]. split; [done|]. split; [exact Hsum|]. split.
  - intros Hz. rewrite <- H0, <- H2. apply (val2_all_zero out Hwo).
    rewrite H0, H2. intros b e Hb He. rewrite Hsum by lia.
    rewrite <- (sigma_zero (dim1 data)). apply sigma_ext.
    intros t Ht. rewrite Hz by lia. lra.
  - intros Ho b e Hb He. rewrite Hsum by done. apply sigma_ext.
    intros t Ht. rewrite Ho by done. lra.
Qed.

(** A linear layer to one output has one weight row and one bias entry. *)
Lemma linear3_one_output (linear : Linear) (data : Tensor3 R) :
  wf_linear linear -> out_features linear = 1%nat -> in_features linear = dim2 data ->
  exists w0 b0,
    weight linear = [w0] /\ bias linear = [b0] /\
    linear3 linear data =
    Ok (T3 (dim0 data) (dim1 data) 1
          (map (map (fun v => [(dot v w0 + b0)%R])) (val3 data))).
Proof.
  intros (Hw & _ & Hb) Ho Hi. rewrite Ho in Hw, Hb.
  destruct (weight linear) as [|w0 [|? ?]] eqn:Ew; try done.
  destruct (bias linear) as [|b0 [|? ?]] eqn:Eb; try done.
  exists w0, b0. split; [done|]. split; [done|].
  unfold linear3. rewrite Hi, Nat.eqb_refl, Ho. do 2 f_equal.
  apply map_ext. intros s. apply map_ext. intros v.
  unfold linear_vec. by rewrite Ew, Eb.
Qed.

(** C8. For a [data] of shape [B, T, E], whatever the mask, the
    weighted-sum pooler scores every position with its linear layer,
    turns the scores of a sequence into weights by a softmax over the
    sequence axis, and returns the sum of the position embeddings times
    their weights.  The mask is not read: every mask gives the same
    output.  Every weight is positive and, for a sequence that is not
    empty, the weights add up to 1, so the output is a convex combination
    of all positions of the sequence. *)
Theorem WeightedSumPooler_forward_convex_combination (linear : Linear) (data : Tensor3 R) :
  wf_linear linear -> out_features linear = 1%nat -> in_features linear = dim2 data ->
  wf3 data ->
  exists w0 b0 out,
    weight linear = [w0] /\ bias linear = [b0] /\
    let scores :=
      T3 (dim0 data) (dim1 data) 1
         (map (map (fun v => [(dot v w0 + b0)%R])) (val3 data)) in
    let w := fun b t =>
      (exp (at3 scores b t 0) / sigma (dim1 data) (fun j => exp (at3 scores b j 0)))%R in
    linear3 linear data = Ok scores /\
    (forall masks, WeightedSumPooler_forward linear data masks = Ok out) /\
    wf2 out /\ rows out = dim0 data /\ cols out = dim2 data /\
    (forall b t, (b < dim0 data)%nat -> (t < dim1 data)%nat -> (0 < w b t)%R) /\
    (forall b, (b < dim0 data)%nat -> (0 < dim1 data)%nat ->
       sigma (dim1 data) (w b) = 1%R) /\
    (forall b e, (b < dim0 data)%nat -> (e < dim2 data)%nat ->
       at2 out b e = sigma (dim1 data) (fun t => (w b t * at3 data b t e)%R)).
Proof.
  intros Hl Ho Hi Hd.
  destruct (linear3_one_output linear data Hl Ho Hi) as (w0 & b0 & Hw0 & Hb0 & Hlin).
  set (scores := T3 _ _ 1 _) in Hlin.
  destruct (wf3_linear3 linear data scores Hl Hd Hlin) as (Hws & _).
  pose proof (wf3_softmax_dim1 scores Hws) as Hww.
  assert (Hmul : exists weighted, mul3 (softmax_dim1 scores) data = Ok weighted /\
            dim0 weighted = dim0 data /\ dim1 weighted = dim1 data /\
            dim2 weighted = dim2 data).
  { unfold mul3. simpl. rewrite !broadcast_dim_same, broadcast_dim_1_l. simpl.
    eexists. split; [reflexivity|]. done. }
  destruct Hmul as (weighted & Hmul & H0 & H1 & H2).
  destruct (mul3_entries _ _ _ Hww Hd Hmul) as [Hwf Hat].
  assert (Hpos : forall b, (b < dim0 data)%nat -> (0 < dim1 data)%nat ->
            (0 < sigma (dim1 data) (fun j => exp (at3 scores b j 0)))%R).
  { intros b Hb HT. apply sigma_pos; [done|]. intros; apply exp_pos. }
  exists w0, b0, (sum_dim1 weighted). split; [done|]. split; [done|].
  intros scores' w. subst scores'.
  split; [exact Hlin|]. split.
  { intros masks. unfold WeightedSumPooler_forward. rewrite Hlin. simpl.
    by rewrite Hmul. }
  split; [by apply wf2_sum_dim1|]. split; [done|]. split; [done|]. split; [|split].
  - intros b t Hb Ht. unfold w. apply Rdiv_lt_0_compat; [apply exp_pos|].
    apply Hpos; [done|lia].
  - intros b Hb HT. unfold w. rewrite sigma_div.
    apply Rdiv_diag. apply Rgt_not_eq. by apply Hpos.
  - intros b e Hb He. rewrite at2_sum_dim1 by (done || lia). rewrite H1.
    apply sigma_ext. intros t Ht. rewrite Hat by lia. simpl.
    rewrite (bidx_lt (dim0 data)), (bidx_lt (dim1 data)), (bidx_lt (dim2 data)) by lia.
    change (bidx 1 e) with 0%nat.
    rewrite at3_softmax_dim1 by (done || simpl; lia). done.
Qed.

(** One sequence of two positions with two coordinates, both positions
    valid: the result is the sum 6, 8 of the positions, not their mean. *)
Lemma MaskedMeanPooler_forward_masked_sum_witness :
  let data := T3 1 2 2 [[[2%R; 3%R]; [4%R; 5%R]]] in
  let masks := T2 1 2 [[1%R; 1%R]] in
  wf3 data /\ wf2 masks /\ rows masks = dim0 data /\ cols masks = dim1 data /\
  exists out,
    MaskedMeanPooler_forward data masks = Ok out /\
    at2 out 0 0 = sigma 2 (fun t => (at3 data 0 t 0 * at2 masks 0 t)%R) /\
    at2 out 0 0 = 6%R /\ at2 out 0 1 = 8%R.
Proof.
  intros data masks.
  assert (Hd : wf3 data) by (split; [reflexivity|repeat constructor]).
  assert (Hm : wf2 masks) by (split; [reflexivity|repeat constructor]).
  split; [exact Hd|]. split; [exact Hm|]. split; [reflexivity|]. split; [reflexivity|].
  destruct (MaskedMeanPooler_forward_masked_sum data masks Hd Hm eq_refl eq_refl)
    as (out & Hout & _ & _ & _ & Hsum & _).
  exists out. split; [exact Hout|]. split; [apply Hsum; simpl; lia|].
  split; rewrite Hsum by (simpl; lia); unfold sigma, at3, at2; simpl; lra.
Defined.

(** One sequence of two positions with equal scores: both weights are 1/2. *)
Lemma WeightedSumPooler_forward_convex_combination_witness :
  let linear := MkLinear 1 1 [[1%R]] [0%R] in
  let data := T3 1 2 1 [[[0%R]; [0%R]]] in
  wf_linear linear /\ out_features linear = 1%nat /\
  in_features linear = dim2 data /\ wf3 data /\
  exists out,
    forall masks, WeightedSumPooler_forward linear data masks = Ok out.
Proof.
  intros linear data.
  assert (Hl : wf_linear linear).
  { split; [reflexivity|]. split; [repeat constructor|reflexivity]. }
  assert (Hd : wf3 data) by (split; [reflexivity|repeat constructor]).
  split; [exact Hl|]. split; [reflexivity|]. split; [reflexivity|]. split; [exact Hd|].
  destruct (WeightedSumPooler_forward_convex_combination linear data Hl eq_refl eq_refl Hd)
    as (w0 & b0 & out & _ & _ & _ & Hall & _).
  exists out. exact Hall.
Defined.

(** With an empty sequence the weights are an empty family and the pooler
    returns zeros. *)
Example WeightedSumPooler_forward_empty_sequence (masks : Tensor2 R) :
  WeightedSumPooler_forward (MkLinear 2 1 [[1%R; 1%R]] [0%R]) (T3 1 0 2 [[]]) masks
  = Ok (T2 1 2 [[0%R; 0%R]]).
Proof. reflexivity. Qed.

(** *** Further properties of the poolers *)

Lemma at3_position (data : Tensor3 R) (h : list R -> R) (b t : nat) :
  wf3 data -> (b < dim0 data)%nat -> (t < dim1 data)%nat ->
  at3 (T3 (dim0 data) (dim1 data) 1 (map (map (fun v => [h v])) (val3 data))) b t 0 =
  h (position data b t).
Proof.
  intros Hd Hb Ht. destruct (wf3_lookup data b t Hd Hb Ht) as (s & v & Hs & _ & Hv & _).
  unfold at3, position. simpl. rewrite list_lookup_fmap, Hs. simpl.
  rewrite list_lookup_fmap, Hv. done.
Qed.

(** On a [data] whose last axis fits the scoring layer the weighted-sum
    pooler returns, and each entry of its result is the sum of the
    entries along the sequence axis times their softmax weights. *)
Lemma WeightedSumPooler_forward_Ok (w0 : list R) (b0 : R) (data : Tensor3 R)
    (masks : Tensor2 R) :
  wf3 data -> length w0 = dim2 data ->
  exists out,
    WeightedSumPooler_forward (MkLinear (dim2 data) 1 [w0] [b0]) data masks = Ok out /\
    wf2 out /\ rows out = dim0 data /\ cols out = dim2 data /\
    (forall b e, (b < dim0 data)%nat -> (e < dim2 data)%nat ->
       at2 out b e =
       sigma (dim1 data) (fun t => (softmax_weight w0 b0 data b t * at3 data b t e)%R)).
Proof.
  intros Hd Hw0. set (linear := MkLinear (dim2 data) 1 [w0] [b0]).
  assert (Hl : wf_linear linear).
  { split; [done|]. split; [by repeat constructor|done]. }
  destruct (linear3_one_output linear data Hl eq_refl eq_refl)
    as (w0' & b0' & [= <-] & [= <-] & Hlin).
  set (scores := T3 _ _ 1 _) in Hlin.
  destruct (wf3_linear3 linear data scores Hl Hd Hlin) as (Hws & _).
  pose proof (wf3_softmax_dim1 scores Hws) as Hww.
  assert (Hmul : exists weighted, mul3 (softmax_dim1 scores) data = Ok weighted /\
            dim0 weighted = dim0 data /\ dim1 weighted = dim1 data /\
            dim2 weighted = dim2 data).
  { unfold mul3. simpl. rewrite !broadcast_dim_same, broadcast_dim_1_l. simpl.
    eexists. split; [reflexivity|]. done. }
  destruct Hmul as (weighted & Hmul & H0 & H1 & H2).
  destruct (mul3_entries _ _ _ Hww Hd Hmul) as [Hwf Hat].
  exists (sum_dim1 weighted). split.
  { unfold WeightedSumPooler_forward. rewrite Hlin. simpl. by rewrite Hmul. }
  split; [by apply wf2_sum_dim1|]. split; [done|]. split; [done|].
  intros b e Hb He. rewrite at2_sum_dim1 by (done || lia). rewrite H1.
  apply sigma_ext. intros t Ht. rewrite Hat by lia. simpl.
  rewrite (bidx_lt (dim0 data)), (bidx_lt (dim1 data)), (bidx_lt (dim2 data)) by lia.
  change (bidx 1 e) with 0%nat.
  rewrite at3_softmax_dim1 by (done || simpl; lia). simpl.
  unfold softmax_weight. f_equal. f_equal.
  - f_equal. unfold scores. by rewrite (at3_position data (fun v => (dot v w0 + b0)%R)).
  - apply sigma_ext. intros j Hj. f_equal. unfold scores.
    by rewrite (at3_position data (fun v => (dot v w0 + b0)%R)).
Qed.

Lemma softmax_weight_pos (w0 : list R) (b0 : R) (data : Tensor3 R) (b t : nat) :
  (t < dim1 data)%nat -> (0 < softmax_weight w0 b0 data b t)%R.
Proof.
  intros Ht. unfold softmax_weight. apply Rdiv_lt_0_compat; [apply exp_pos|].
  apply sigma_pos; [lia|]. intros; apply exp_pos.
Qed.

Lemma softmax_weight_sum (w0 : list R) (b0 : R) (data : Tensor3 R) (b : nat) :
  (0 < dim1 data)%nat -> sigma (dim1 data) (softmax_weight w0 b0 data b) = 1%R.
Proof.
  intros HT. unfold softmax_weight. rewrite sigma_div.
  apply Rdiv_diag. apply Rgt_not_eq. apply sigma_pos; [done|]. intros; apply exp_pos.
Qed.

(** The weights do not depend on the bias of the scoring layer. *)
Lemma softmax_weight_bias (w0 : list R) (b0 b0' : R) (data : Tensor3 R) (b t : nat) :
  (t < dim1 data)%nat ->
  softmax_weight w0 b0 data b t = softmax_weight w0 b0' data b t.
Proof.
  intros Ht.
  assert (H : forall c, softmax_weight w0 c data b t = softmax_weight w0 0 data b t).
  { intros c. unfold softmax_weight.
    rewrite (sigma_ext _ (fun j => exp (dot (position data b j) w0 + c))
               (fun j => (exp (dot (position data b j) w0 + 0) * exp c)%R)).
    - rewrite sigma_mult_r, Rplus_0_r, exp_plus.
      assert (0 < sigma (dim1 data) (fun j => exp (dot (position data b j) w0 + 0)))%R.
      { apply sigma_pos; [lia|]. intros; apply exp_pos. }
      pose proof (exp_pos c). field. split; apply Rgt_not_eq; lra.
    - intros j _. by rewrite Rplus_0_r, exp_plus. }
  by rewrite (H b0), (H b0').
Qed.

(** The weighted-sum pooler keeps the batch size and the embedding size. *)
Lemma WeightedSumPooler_forward_shape (linear : Linear) (data : Tensor3 R)
    (masks : Tensor2 R) :
  wf_linear linear -> out_features linear = 1%nat -> in_features linear = dim2 data ->
  wf3 data ->
  exists out, WeightedSumPooler_forward linear data masks = Ok out /\
              wf2 out /\ rows out = dim0 data /\ cols out = dim2 data.
Proof.
  intros Hl Ho Hi Hd. destruct linear as [i o w b]. simpl in Ho, Hi. subst i o.
  destruct Hl as (Hw & Hwl & Hb). simpl in Hw, Hwl, Hb.
  destruct w as [|w0 [|? ?]]; try done. destruct b as [|b0 [|? ?]]; try done.
  apply Forall_cons_1 in Hwl as [Hw0 _].
  destruct (WeightedSumPooler_forward_Ok w0 b0 data masks Hd Hw0)
    as (out & ? & ? & ? & ? & _).
  by exists out.
Qed.

(** X7. The masked-mean pooler does not read the embeddings of masked
    positions: two inputs of one shape that agree wherever the mask is
    not 0 are pooled to the same tensor. *)
Theorem MaskedMeanPooler_forward_ignores_masked_positions
    (data data' : Tensor3 R) (masks : Tensor2 R) :
  wf3 data -> wf3 data' -> wf2 masks ->
  dim0 data' = dim0 data -> dim1 data' = dim1 data -> dim2 data' = dim2 data ->
  rows masks = dim0 data -> cols masks = dim1 data ->
  (forall b t e, (b < dim0 data)%nat -> (t < dim1 data)%nat -> (e < dim2 data)%nat ->
     at2 masks b t <> 0%R -> at3 data' b t e = at3 data b t e) ->
  MaskedMeanPooler_forward data' masks = MaskedMeanPooler_forward data masks.
Proof.
  intros Hd Hd' Hm H0 H1 H2 HB HT Hagree.
  destruct (MaskedMeanPooler_forward_Ok data masks Hd Hm HB HT)
    as (out & -> & Hwo & Hr & Hc & Hsum).
  destruct (MaskedMeanPooler_forward_Ok data' masks Hd' Hm ltac:(lia) ltac:(lia))
    as (out' & -> & Hwo' & Hr' & Hc' & Hsum').
  f_equal. apply tensor2_ext; [done|done|lia|lia|].
  intros b e Hb He. rewrite Hsum' by lia. rewrite Hsum by lia. rewrite H1.
  apply sigma_ext. intros t Ht.
  destruct (Req_dec_T (at2 masks b t) 0) as [->|Hne]; [lra|].
  rewrite Hagree by (done || lia). done.
Qed.

(** X8. The masked-mean pooler returns exactly when the batch axis and
    the sequence axis of [data] and [masks] can be broadcast (equal
    sizes, or one of them 1), and raises a [RuntimeError] otherwise; a
    mask with a single row or a single column is accepted and repeated,
    not rejected. *)
Theorem MaskedMeanPooler_forward_broadcast (data : Tensor3 R) (masks : Tensor2 R) :
  let fits (a b : nat) := a = b \/ a = 1%nat \/ b = 1%nat in
  (fits (dim0 data) (rows masks) /\ fits (dim1 data) (cols masks) ->
   exists out, MaskedMeanPooler_forward data masks = Ok out /\
               cols out = dim2 data /\
               (rows masks = dim0 data \/ rows masks = 1%nat -> rows out = dim0 data) /\
               (dim0 data = 1%nat -> rows out = rows masks)) /\
  (~ (fits (dim0 data) (rows masks) /\ fits (dim1 data) (cols masks)) ->
   MaskedMeanPooler_forward data masks = Raise RuntimeError).
Proof.
  intros fits. subst fits. cbv beta.
  unfold MaskedMeanPooler_forward, mul3, broadcast_dim. simpl.
  destruct (Nat.eqb_spec (dim0 data) (rows masks)), (Nat.eqb_spec (dim0 data) 1),
    (Nat.eqb_spec (rows masks) 1), (Nat.eqb_spec (dim1 data) (cols masks)),
    (Nat.eqb_spec (dim1 data) 1), (Nat.eqb_spec (cols masks) 1),
    (Nat.eqb_spec (dim2 data) 1); simpl;
    (split; intros H;
     [first [exfalso; lia | eexists; (split; [reflexivity|simpl; lia])]
     |first [reflexivity | exfalso; lia]]).
Qed.

(** X9. For a sequence that is not empty every entry of the weighted-sum
    pooler's output lies between the smallest and the largest entry of
    that coordinate along the sequence: bounds on all positions,
    padding included, are bounds on the output. *)
Theorem WeightedSumPooler_forward_within_bounds (w0 : list R) (b0 : R)
    (data : Tensor3 R) (masks : Tensor2 R) (lo hi : R) (b e : nat) :
  wf3 data -> length w0 = dim2 data ->
  (0 < dim1 data)%nat -> (b < dim0 data)%nat -> (e < dim2 data)%nat ->
  (forall t, (t < dim1 data)%nat -> (lo <= at3 data b t e <= hi)%R) ->
  exists out,
    WeightedSumPooler_forward (MkLinear (dim2 data) 1 [w0] [b0]) data masks = Ok out /\
    (lo <= at2 out b e <= hi)%R.
Proof.
  intros Hd Hw0 HT Hb He Hbnd.
  destruct (WeightedSumPooler_forward_Ok w0 b0 data masks Hd Hw0)
    as (out & Hout & _ & _ & _ & Hsum).
  exists out. split; [exact Hout|]. rewrite Hsum by done.
  pose proof (softmax_weight_sum w0 b0 data b HT) as H1.
  split.
  - replace lo with (sigma (dim1 data) (softmax_weight w0 b0 data b) * lo)%R
      by (rewrite H1; lra).
    rewrite <- sigma_mult_r. apply sigma_le. intros t Ht.
    pose proof (softmax_weight_pos w0 b0 data b t Ht). specialize (Hbnd t Ht). nra.
  - replace hi with (sigma (dim1 data) (softmax_weight w0 b0 data b) * hi)%R
      by (rewrite H1; lra).
    rewrite <- sigma_mult_r. apply sigma_le. intros t Ht.
    pose proof (softmax_weight_pos w0 b0 data b t Ht). specialize (Hbnd t Ht). nra.
Qed.

(** X10. Over the reals the output of the weighted-sum pooler does not
    depend on the bias of its scoring layer (nor on the mask): the
    softmax over the sequence axis cancels a shift of all scores. *)
Theorem WeightedSumPooler_forward_bias_irrelevant (w0 : list R) (b0 b0' : R)
    (data : Tensor3 R) (masks masks' : Tensor2 R) :
  wf3 data -> length w0 = dim2 data ->
  WeightedSumPooler_forward (MkLinear (dim2 data) 1 [w0] [b0]) data masks =
  WeightedSumPooler_forward (MkLinear (dim2 data) 1 [w0] [b0']) data masks'.
Proof.
  intros Hd Hw0.
  destruct (WeightedSumPooler_forward_Ok w0 b0 data masks Hd Hw0)
    as (out & -> & Hwo & Hr & Hc & Hsum).
  destruct (WeightedSumPooler_forward_Ok w0 b0' data masks' Hd Hw0)
    as (out' & -> & Hwo' & Hr' & Hc' & Hsum').
  f_equal. apply tensor2_ext; [done|done|lia|lia|].
  intros b e Hb He. rewrite Hsum, Hsum' by lia.
  apply sigma_ext. intros t Ht. by rewrite (softmax_weight_bias w0 b0 b0').
Qed.

(** Two positions, the second masked: changing the second position does
    not change the pooled vector. *)
Lemma MaskedMeanPooler_forward_ignores_masked_positions_witness :
  let data := T3 1 2 2 [[[2%R; 3%R]; [4%R; 5%R]]] in
  let data' := T3 1 2 2 [[[2%R; 3%R]; [7%R; 9%R]]] in
  let masks := T2 1 2 [[1%R; 0%R]] in
  wf3 data /\ wf3 data' /\ wf2 masks /\
  MaskedMeanPooler_forward data' masks = MaskedMeanPooler_forward data masks.
Proof.
  intros data data' masks.
  assert (Hd : wf3 data) by (split; [reflexivity|repeat constructor]).
  assert (Hd' : wf3 data') by (split; [reflexivity|repeat constructor]).
  assert (Hm : wf2 masks) by (split; [reflexivity|repeat constructor]).
  split; [exact Hd|]. split; [exact Hd'|]. split; [exact Hm|].
  apply (MaskedMeanPooler_forward_ignores_masked_positions data data' masks Hd Hd' Hm
           eq_refl eq_refl eq_refl eq_refl eq_refl).
  intros b t e Hb Ht He Hmask. simpl in Hb, Ht, He.
  destruct b as [|b]; [|lia]. destruct t as [|[|t]]; [| |lia].
  - destruct e as [|[|e]]; [reflexivity|reflexivity|lia].
  - exfalso. apply Hmask. reflexivity.
Defined.

(** One sequence of two positions with entries 2 and 4 in the only
    coordinate: the pooled entry lies between 2 and 4. *)
Lemma WeightedSumPooler_forward_within_bounds_witness :
  let data := T3 1 2 1 [[[2%R]; [4%R]]] in
  wf3 data /\ length [1%R] = dim2 data /\
  exists out,
    WeightedSumPooler_forward (MkLinear 1 1 [[1%R]] [0%R]) data (T2 1 2 [[1%R; 0%R]])
      = Ok out /\
    (2 <= at2 out 0 0 <= 4)%R.
Proof.
  intros data.
  assert (Hd : wf3 data) by (split; [reflexivity|repeat constructor]).
  split; [exact Hd|]. split; [reflexivity|].
  apply (WeightedSumPooler_forward_within_bounds [1%R] 0%R data (T2 1 2 [[1%R; 0%R]])
           2%R 4%R 0%nat 0%nat Hd eq_refl); simpl; [lia|lia|lia|].
  intros t Ht. destruct t as [|[|t]]; [| |lia]; unfold at3; simpl; lra.
Defined.

(** The same sequence scored with bias 0 and with bias 5. *)
Lemma WeightedSumPooler_forward_bias_irrelevant_witness :
  let data := T3 1 2 1 [[[2%R]; [4%R]]] in
  let masks := T2 1 2 [[1%R; 0%R]] in
  wf3 data /\ length [1%R] = dim2 data /\
  WeightedSumPooler_forward (MkLinear 1 1 [[1%R]] [0%R]) data masks =
  WeightedSumPooler_forward (MkLinear 1 1 [[1%R]] [5%R]) data masks.
Proof.
  intros data masks.
  assert (Hd : wf3 data) by (split; [reflexivity|repeat constructor]).
  split; [exact Hd|]. split; [reflexivity|].
  exact (WeightedSumPooler_forward_bias_irrelevant [1%R] 0%R 5%R data masks masks
           Hd eq_refl).
Defined.

End Pooling.

(** ** The fusion classifier *)

Module Classifier.
Import Torch.
Export Pooling.

(** The pretrained encoder, a black box: [encode] maps the mode of the
    module, its own random draw and the three input tensors to the pooled
    output of shape [B, hidden_size]. *)
Record Encoder : Type := MkEncoder {
  hidden_size : nat;
  bert_training : bool;
  encode : bool -> nat -> Tensor2 Z -> Tensor2 Z -> Tensor2 Z -> result (Tensor2 R)
}.

(** The random draws of one forward pass. *)
Record Draws : Type := MkDraws {
  bert_draw : nat;
  keep : nat -> nat -> bool
}.

(** [MorphologicalBertForSequenceClassification] *)
Record Model : Type := MkModel {
  num_labels : Z;
  dropout : R;
  additional_features : odict Z;
  pooling_type : option string;
  pooler : option Pooler;
  bert_model : Encoder;
  classifier : Linear;
  embedders : gmap string Embedding;
  training : bool
}.

(** [nn.Linear(in_features, out_features)] with its random initial values. *)
Definition nn_Linear (in_features out_features : Z)
    (init_weight : nat -> nat -> R) (init_bias : nat -> R) : result Linear :=
  if (in_features <? 0) || (out_features <? 0) then Raise RuntimeError
  else
    let n := Z.to_nat in_features in
    let m := Z.to_nat out_features in
    Ok (MkLinear n m (map (fun o => map (init_weight o) (seq 0 n)) (seq 0 m))
                     (map init_bias (seq 0 m))).

Section WithRegistry.
(** The feature vocabularies of [utils]: tags of the part-of-speech
    vocabulary, one vocabulary per other feature, and the padding tag. *)
Variable UPOS2IDX : gmap string Z.
Variable UFEATS2IDX : gmap string (gmap string Z).
Variable PAD : string.
(** [nn.LSTM(hidden_size, hidden_size, batch_first=True)], as the function
    from the input to [last_hidden[0]] of the layer it builds. *)
Variable nn_LSTM : Z -> result (Tensor3 R -> result (Tensor2 R)).
(** The initial value of entry [i], [j] of the parameter called [name]. *)
Variable fresh : string -> nat -> nat -> R.
(** [nn.Module.add_module], through which an [nn.ModuleDict] is written,
    refuses some names with a [KeyError]: the empty name, a name with a
    dot, a name that is already an attribute of the module ([type],
    [train], ...).  [module_name_error name] is the message of that
    exception, if the name is refused. *)
Variable module_name_error : string -> option string.

(** Lines 95-105: the pooler, built only when features are configured. *)
Definition init_pooler (additional_features : odict Z) (pooling_type : option string)
    : result (option Pooler) :=
  if (0 <? length additional_features)%nat then
    if decide (pooling_type = Some "lstm"%string) then
      do hid_size <- odict_get additional_features "upostag";
      do lstm <- nn_LSTM hid_size;
      Ok (Some (LSTMPooler (Z.to_nat hid_size) lstm))
    else if decide (pooling_type = Some "weighted"%string) then
      do embedding_size <- odict_get additional_features "upostag";
      do linear <- nn_Linear embedding_size 1 (fresh "pooler.linear.weight")
                             (fresh "pooler.linear.bias" 0%nat);
      Ok (Some (WeightedSumPooler linear))
    else Ok (Some MaskedMeanPooler)
  else Ok None.

(** Lines 116-122: the embedding table of one feature. *)
Definition init_embedder (feature_name : string) (emb_size : Z) : result Embedding :=
  do num_embeddings <-
    (if String.eqb feature_name "upostag" then Ok (Z.of_nat (size UPOS2IDX))
     else do vocab <- getitem UFEATS2IDX feature_name; Ok (Z.of_nat (size vocab)));
  do padding_idx <-
    (if String.eqb feature_name "upostag" then getitem UPOS2IDX PAD
     else do vocab <- getitem UFEATS2IDX feature_name; getitem vocab PAD);
  nn_Embedding num_embeddings emb_size padding_idx
               (fresh ("embedders." +:+ feature_name +:+ ".weight")).

(** [self.embedders[feature_name] = module] on the [nn.ModuleDict]: a
    name that is not yet a key has to be accepted by [add_module]. *)
Definition ModuleDict_setitem (embedders : gmap string Embedding) (feature_name : string)
    (module : Embedding) : result (gmap string Embedding) :=
  match embedders !! feature_name, module_name_error feature_name with
  | None, Some message => Raise (KeyError message)
  | _, _ => Ok (<[feature_name := module]> embedders)
  end.

(** Lines 113-122: [self.embedders], filled in the order of the features. *)
Fixpoint init_embedders (features : odict Z) (embedders : gmap string Embedding)
    : result (gmap string Embedding) :=
  match features with
  | [] => Ok embedders
  | (feature_name, emb_size) :: rest =>
      do emb <- init_embedder feature_name emb_size;
      do embedders <- ModuleDict_setitem embedders feature_name emb;
      init_embedders rest embedders
  end.

(** [MorphologicalBertForSequenceClassification.__init__].  [pretrained]
    is what [BertModel.from_pretrained] returns or raises. *)
Definition init (num_labels : Z) (pretrained : result Encoder) (dropout : R)
    (additional_features : option (odict Z)) (pooling_type : option string)
    : result Model :=
  let features := default [] additional_features in
  do pooler <- init_pooler features pooling_type;
  do bert_model <- pretrained;
  do classifier <-
    nn_Linear (Z.of_nat (hidden_size bert_model) + foldr Z.add 0 (map snd features))
              num_labels (fresh "classifier.weight") (fresh "classifier.bias" 0%nat);
  do embedders <- init_embedders features ∅;
  Ok (MkModel num_labels dropout features pooling_type pooler bert_model
              classifier embedders true).

(** Lines 138-141: one turn of the loop over the configured features. *)
Definition process_feature (m : Model) (kwargs : gmap string Tensor)
    (feature : string * Z) : result (Tensor2 R) :=
  let feature_name := fst feature in
  do curr_input <- getitem kwargs (feature_name +:+ "_ids");
  do curr_masks <- getitem kwargs (feature_name +:+ "_mask");
  do pooler <- (match pooler m with Some p => Ok p | None => Raise AttributeError end);
  do embedder <- getitem (embedders m) feature_name;
  do data <- embedding_forward embedder curr_input;
  Pooling.forward pooler data (to_float curr_masks).

(** [MorphologicalBertForSequenceClassification.forward].  The call of
    [F.dropout] passes no [training] argument, so the default [True]
    applies whatever the mode of the module. *)
Definition forward (m : Model) (input_ids token_type_ids attention_mask : Tensor2 Z)
    (kwargs : gmap string Tensor) (draws : Draws) : result (Tensor2 R) :=
  do pooled_output <-
    encode (bert_model m) (bert_training (bert_model m)) (bert_draw draws)
           input_ids token_type_ids attention_mask;
  do additional_processed <- mapM (process_feature m kwargs) (additional_features m);
  do pooled_output <-
    (if (0 <? length additional_processed)%nat then
       do additional <- cat_dim1 additional_processed;
       cat_dim1 [pooled_output; additional]
     else Ok pooled_output);
  do dropped <- F_dropout pooled_output (dropout m) true (keep draws);
  linear2 (classifier m) dropped.

(** *** Missing feature tensors *)

Lemma process_feature_missing_key (m : Model) (kwargs : gmap string Tensor)
    (feature : string * Z) :
  kwargs !! (fst feature +:+ "_ids") = None \/
  kwargs !! (fst feature +:+ "_mask") = None ->
  process_feature m kwargs feature =
  Raise (KeyError (match kwargs !! (fst feature +:+ "_ids") with
                   | None => fst feature +:+ "_ids"
                   | Some _ => fst feature +:+ "_mask"
                   end)).
Proof.
  unfold process_feature, getitem.
  destruct (kwargs !! (fst feature +:+ "_ids")) as [ids|]; simpl; [|done].
  intros [?|Hm]; [done|]. by rewrite Hm.
Qed.

(** C7. If a configured feature has its [_ids] or its [_mask] tensor
    missing from the batch, [forward] raises; nothing is skipped.  When
    the encoder and the features before the first such feature go
    through, the exception is the [KeyError] of the first key that is
    looked up and missing. *)
Theorem forward_missing_feature_key_raises (m : Model)
    (input_ids token_type_ids attention_mask : Tensor2 Z)
    (kwargs : gmap string Tensor) (draws : Draws) (feature : string * Z) :
  feature ∈ additional_features m ->
  kwargs !! (fst feature +:+ "_ids") = None \/
  kwargs !! (fst feature +:+ "_mask") = None ->
  (exists e, forward m input_ids token_type_ids attention_mask kwargs draws = Raise e) /\
  (forall pooled before after processed,
     encode (bert_model m) (bert_training (bert_model m)) (bert_draw draws)
            input_ids token_type_ids attention_mask = Ok pooled ->
     additional_features m = before ++ feature :: after ->
     mapM (process_feature m kwargs) before = Ok processed ->
     forward m input_ids token_type_ids attention_mask kwargs draws =
     Raise (KeyError (match kwargs !! (fst feature +:+ "_ids") with
                      | None => fst feature +:+ "_ids"
                      | Some _ => fst feature +:+ "_mask"
                      end))).
Proof.
  intros Hin Hmiss. pose proof (process_feature_missing_key m kwargs feature Hmiss) as Hp.
  split.
  - unfold forward. destruct (encode _ _ _ _ _ _) as [pooled|e]; simpl; [|eauto].
    pose proof (mapM_raise (process_feature m kwargs) _ feature Hin) as Hr.
    rewrite Hp in Hr. specialize (Hr eq_refl).
    destruct (mapM _ _) as [?|e]; [done|]. simpl. eauto.
  - intros pooled before after processed Henc Hsplit Hbefore.
    unfold forward. rewrite Henc, Hsplit, mapM_app, Hbefore. simpl.
    by rewrite Hp.
Qed.

(** *** The pooler built by the constructor *)

Lemma nn_Linear_Ok (in_features out_features : Z)
    (init_weight : nat -> nat -> R) (init_bias : nat -> R) (l : Linear) :
  nn_Linear in_features out_features init_weight init_bias = Ok l ->
  0 <= in_features /\ 0 <= out_features /\
  Torch.in_features l = Z.to_nat in_features /\
  Torch.out_features l = Z.to_nat out_features /\ wf_linear l.
Proof.
  unfold nn_Linear.
  destruct (Z.ltb_spec in_features 0); simpl; [done|].
  destruct (Z.ltb_spec out_features 0); simpl; [done|].
  intros [= <-]. split; [lia|]. split; [lia|]. split; [done|]. split; [done|].
  unfold wf_linear. cbn [Torch.weight Torch.bias Torch.in_features Torch.out_features].
  split; [|split].
  - by rewrite length_map, length_seq.
  - apply Forall_fmap. apply Forall_true. intros o. simpl.
    by rewrite length_map, length_seq.
  - by rewrite length_map, length_seq.
Qed.

Lemma init_Ok_fields (num_labels : Z) (pretrained : result Encoder) (dropout : R)
    (additional_features : option (odict Z)) (pooling_type : option string) (m : Model) :
  init num_labels pretrained dropout additional_features pooling_type = Ok m ->
  let features := default [] additional_features in
  init_pooler features pooling_type = Ok (pooler m) /\
  pretrained = Ok (bert_model m) /\
  nn_Linear (Z.of_nat (hidden_size (bert_model m)) + foldr Z.add 0 (map snd features))
            num_labels (fresh "classifier.weight") (fresh "classifier.bias" 0%nat)
    = Ok (classifier m) /\
  init_embedders features ∅ = Ok (embedders m) /\
  Classifier.additional_features m = features /\
  Classifier.num_labels m = num_labels /\ Classifier.dropout m = dropout /\
  Classifier.pooling_type m = pooling_type /\ training m = true.
Proof.
  unfold init. intros H. cbv zeta.
  set (features := default [] additional_features) in *.
  destruct (init_pooler features pooling_type) as [p|]; simpl in H; [|done].
  destruct pretrained as [bert|]; simpl in H; [|done].
  destruct (nn_Linear _ _ _ _) as [c|] eqn:Hc; simpl in H; [|done].
  destruct (init_embedders features ∅) as [e|]; simpl in H; [|done].
  injection H as <-. simpl. by rewrite Hc.
Qed.

(** *** The shape of the logits *)

Lemma init_embedder_Ok (feature_name : string) (emb_size : Z) (emb : Embedding) :
  init_embedder feature_name emb_size = Ok emb ->
  0 <= emb_size /\ wf_embedding emb /\ embedding_dim emb = Z.to_nat emb_size /\
  exists p, padding_idx emb = Some p /\ (p < num_embeddings emb)%nat /\
            table emb !! p = Some (replicate (embedding_dim emb) 0%R).
Proof.
  unfold init_embedder.
  destruct (if String.eqb feature_name "upostag" then _ else _) as [num|]; simpl; [|done].
  destruct (if String.eqb feature_name "upostag" then _ else _) as [pad|]; simpl; [|done].
  intros H. apply nn_Embedding_Ok in H as (? & ? & ? & _ & ?). done.
Qed.

Lemma ModuleDict_setitem_Ok (embedders embedders' : gmap string Embedding)
    (feature_name : string) (module : Embedding) :
  ModuleDict_setitem embedders feature_name module = Ok embedders' ->
  embedders' = <[feature_name := module]> embedders.
Proof.
  unfold ModuleDict_setitem.
  destruct (embedders !! feature_name), (module_name_error feature_name);
    by intros [= <-].
Qed.

Lemma init_embedders_other (features : odict Z) (acc e : gmap string Embedding)
    (name : string) :
  name ∉ map fst features -> init_embedders features acc = Ok e ->
  e !! name = acc !! name.
Proof.
  revert acc. induction features as [|[n s] features IH]; intros acc Hn; simpl.
  - by intros [= <-].
  - apply not_elem_of_cons in Hn as [Hne Hn].
    destruct (init_embedder n s) as [emb|]; simpl; [|done].
    destruct (ModuleDict_setitem acc n emb) as [acc'|] eqn:Hset; simpl; [|done].
    apply ModuleDict_setitem_Ok in Hset as ->.
    intros H. rewrite (IH _ Hn H). by rewrite lookup_insert_ne.
Qed.

Lemma init_embedders_lookup (features : odict Z) (acc e : gmap string Embedding)
    (feature : string * Z) :
  NoDup (map fst features) -> init_embedders features acc = Ok e ->
  feature ∈ features ->
  exists emb, e !! fst feature = Some emb /\
              init_embedder (fst feature) (snd feature) = Ok emb.
Proof.
  revert acc. induction features as [|[n s] features IH]; intros acc Hnd He Hin.
  - by apply elem_of_nil in Hin.
  - simpl in Hnd. apply list.NoDup_cons in Hnd as [Hn Hnd]. simpl in He.
    destruct (init_embedder n s) as [emb|] eqn:Hemb; simpl in He; [|done].
    destruct (ModuleDict_setitem acc n emb) as [acc'|] eqn:Hset; simpl in He; [|done].
    apply ModuleDict_setitem_Ok in Hset as ->.
    apply elem_of_cons in Hin as [->|Hin].
    + exists emb. split; [|done]. simpl.
      rewrite (init_embedders_other _ _ _ n Hn He). by rewrite lookup_insert_eq.
    + by eapply IH.
Qed.

Lemma to_nat_sum_sizes (features : odict Z) :
  Forall (fun f => 0 <= snd f) features ->
  0 <= foldr Z.add 0 (map snd features) /\
  Z.to_nat (foldr Z.add 0 (map snd features)) =
  sum_list (map (fun f => Z.to_nat (snd f)) features).
Proof.
  induction features as [|[n s] features IH]; intros H; simpl; [done|].
  apply Forall_cons_1 in H as [Hs H]. simpl in Hs. destruct (IH H) as [IH1 IH2].
  split; [lia|]. rewrite Z2Nat.inj_add by lia. by rewrite IH2.
Qed.



(** A batch that carries, for every configured feature, its token ids
    within the vocabulary and a mask, all with [B] rows. *)
Definition features_present (m : Model) (B : nat) (kwargs : gmap string Tensor) : Prop :=
  forall feature, feature ∈ additional_features m ->
    exists ids masks emb,
      kwargs !! (fst feature +:+ "_ids") = Some (LongTensor ids) /\
      kwargs !! (fst feature +:+ "_mask") = Some masks /\
      embedders m !! fst feature = Some emb /\
      wf2 ids /\ rows ids = B /\
      Forall (Forall (fun i => 0 <= i < Z.of_nat (num_embeddings emb))) (val2 ids) /\
      wf2 (to_float masks) /\ rows (to_float masks) = B /\
      cols (to_float masks) = cols ids.

(** With the masked-mean pooler every feature of such a batch is pooled
    to [B] rows of its embedding size. *)
Lemma process_feature_mean_Ok (m : Model) (B : nat) (kwargs : gmap string Tensor)
    (feature : string * Z) :
  pooler m = Some MaskedMeanPooler ->
  features_present m B kwargs -> feature ∈ additional_features m ->
  (forall emb, embedders m !! fst feature = Some emb ->
     wf_embedding emb /\ embedding_dim emb = Z.to_nat (snd feature)) ->
  exists out, process_feature m kwargs feature = Ok out /\
              wf2 out /\ rows out = B /\ cols out = Z.to_nat (snd feature).
Proof.
  intros Hp Hpres Hin Hemb.
  destruct (Hpres feature Hin) as (ids & masks & emb & Hi & Hk & He & Hwi & Hri & Hrg
                                     & Hwm & Hrm & Hcm).
  destruct (Hemb emb He) as [Hwe Hdim].
  destruct (embedding_forward_Ok emb ids Hwe Hwi Hrg) as (data & Hd & Hwd & H0 & H1 & H2).
  destruct (MaskedMeanPooler_forward_Ok data (to_float masks) Hwd Hwm
              ltac:(lia) ltac:(lia)) as (out & Ho & Hwo & Hro & Hco & _).
  exists out. unfold process_feature, getitem. rewrite Hi, Hk, Hp, He.
  cbn [bind]. rewrite Hd. cbn [bind Pooling.forward].
  split; [done|]. split; [done|]. split; lia.
Qed.

Lemma forward_Ok_classifier (m : Model)
    (input_ids token_type_ids attention_mask : Tensor2 Z)
    (kwargs : gmap string Tensor) (draws : Draws) (logits : Tensor2 R) :
  forward m input_ids token_type_ids attention_mask kwargs draws = Ok logits ->
  exists dropped, linear2 (classifier m) dropped = Ok logits.
Proof.
  unfold forward.
  destruct (encode _ _ _ _ _ _) as [pooled|]; simpl; [|done].
  destruct (mapM _ _) as [processed|]; simpl; [|done].
  destruct (if (0 <? length processed)%nat then _ else _) as [pooled'|]; simpl; [|done].
  destruct (F_dropout _ _ _ _) as [dropped|]; simpl; [|done]. eauto.
Qed.

(** With the masked-mean pooler, an encoder that returns [B] rows of its
    hidden size and a batch that carries every feature, [forward]
    returns. *)
Lemma forward_mean_Ok (m : Model)
    (input_ids token_type_ids attention_mask : Tensor2 Z)
    (kwargs : gmap string Tensor) (draws : Draws) (pooled : Tensor2 R) :
  wf_linear (classifier m) ->
  in_features (classifier m) =
    (hidden_size (bert_model m) +
     sum_list (map (fun f => Z.to_nat (snd f)) (additional_features m)))%nat ->
  (additional_features m <> [] -> pooler m = Some MaskedMeanPooler) ->
  (forall feature emb, feature ∈ additional_features m ->
     embedders m !! fst feature = Some emb ->
     wf_embedding emb /\ embedding_dim emb = Z.to_nat (snd feature)) ->
  (0 <= dropout m <= 1)%R ->
  encode (bert_model m) (bert_training (bert_model m)) (bert_draw draws)
         input_ids token_type_ids attention_mask = Ok pooled ->
  wf2 pooled -> cols pooled = hidden_size (bert_model m) ->
  features_present m (rows pooled) kwargs ->
  exists logits,
    forward m input_ids token_type_ids attention_mask kwargs draws = Ok logits /\
    wf2 logits /\ rows logits = rows pooled /\
    cols logits = out_features (classifier m).
Proof.
  intros Hwc Hin Hpool Hemb Hp Henc Hwp Hcp Hpres. unfold forward. rewrite Henc.
  cbn [bind].
  assert (Hproc : exists processed,
            mapM (process_feature m kwargs) (additional_features m) = Ok processed /\
            Forall2 (fun f out => wf2 out /\ rows out = rows pooled /\
                                  cols out = Z.to_nat (snd f))
                    (additional_features m) processed).
  { apply mapM_Forall2. intros f Hf.
    apply (process_feature_mean_Ok m (rows pooled) kwargs f); try done.
    - apply Hpool. intros E. rewrite E in Hf. by apply elem_of_nil in Hf.
    - intros emb. by apply Hemb. }
  destruct Hproc as (processed & -> & Hall). cbn [bind].
  assert (Hcols : map cols processed =
                  map (fun f => Z.to_nat (snd f)) (additional_features m)).
  { clear -Hall. induction Hall as [|f out fs outs (_ & _ & Hc) _ IH]; simpl; [done|].
    by rewrite Hc, IH. }
  assert (Hwf : Forall (fun t => wf2 t /\ rows t = rows pooled) processed).
  { clear -Hall. induction Hall as [|f out fs outs (Hw & Hr & _) _ IH]; by constructor. }
  assert (Hcat : exists pooled',
    (if (0 <? length processed)%nat
     then do additional <- cat_dim1 processed; cat_dim1 [pooled; additional]
     else Ok pooled) = Ok pooled' /\
    wf2 pooled' /\ rows pooled' = rows pooled /\
    cols pooled' = in_features (classifier m)).
  { destruct processed as [|t ts] eqn:Ep.
    - simpl. exists pooled. split; [done|]. split; [done|]. split; [done|].
      rewrite Hin, <- Hcols. simpl. lia.
    - rewrite <- Ep in *. replace (0 <? length processed)%nat with true
        by (rewrite Ep; done).
      destruct (cat_dim1_Ok (rows pooled) processed) as (additional & -> & Hwa & Hra & Hca);
        [by rewrite Ep|done|].
      cbn [bind].
      destruct (cat_dim1_Ok (rows pooled) [pooled; additional])
        as (pooled' & -> & Hw' & Hr' & Hc');
        [done|repeat (apply list.Forall_cons; split; [done|]); apply Forall_nil|].
      exists pooled'. split; [done|]. split; [done|]. split; [done|].
      rewrite Hc', Hin. simpl. rewrite Hca, Hcols, Hcp. lia. }
  destruct Hcat as (pooled' & -> & Hw' & Hr' & Hc'). cbn [bind].
  destruct (F_dropout_Ok pooled' (dropout m) true (keep draws) Hw' Hp)
    as (dropped & -> & Hwd & Hrd & Hcd). cbn [bind].
  destruct (linear2_Ok (classifier m) dropped Hwc Hwd ltac:(lia))
    as (logits & -> & Hwl & Hrl & Hcl).
  exists logits. split; [done|]. split; [done|]. split; [lia|done].
Qed.

(** C6. For a model built by the constructor, the logits that [forward]
    returns have [num_labels] columns, whatever the number of configured
    features; with the masked-mean pooler [forward] does return on every
    batch that carries the tensors of the configured features, with one
    row of logits per example.  With no feature configured, [forward] is
    the linear classifier applied to the dropout of the encoder's pooled
    output. *)
Theorem forward_logits_shape (num_labels : Z) (pretrained : result Encoder)
    (dropout : R) (additional_features : option (odict Z))
    (pooling_type : option string) (m : Model) :
  init num_labels pretrained dropout additional_features pooling_type = Ok m ->
  (forall input_ids token_type_ids attention_mask kwargs draws logits,
     forward m input_ids token_type_ids attention_mask kwargs draws = Ok logits ->
     cols logits = Z.to_nat num_labels /\
     Forall (fun r => length r = Z.to_nat num_labels) (val2 logits)) /\
  (default [] additional_features = [] ->
   forall input_ids token_type_ids attention_mask kwargs draws,
     forward m input_ids token_type_ids attention_mask kwargs draws =
     do pooled_output <-
       encode (bert_model m) (bert_training (bert_model m)) (bert_draw draws)
              input_ids token_type_ids attention_mask;
     do dropped <- F_dropout pooled_output dropout true (keep draws);
     linear2 (classifier m) dropped) /\
  (pooling_type <> Some "lstm"%string -> pooling_type <> Some "weighted"%string ->
   NoDup (map fst (default [] additional_features)) -> (0 <= dropout <= 1)%R ->
   forall input_ids token_type_ids attention_mask kwargs draws pooled,
     encode (bert_model m) (bert_training (bert_model m)) (bert_draw draws)
            input_ids token_type_ids attention_mask = Ok pooled ->
     wf2 pooled -> cols pooled = hidden_size (bert_model m) ->
     features_present m (rows pooled) kwargs ->
     exists logits,
       forward m input_ids token_type_ids attention_mask kwargs draws = Ok logits /\
       wf2 logits /\ rows logits = rows pooled /\ cols logits = Z.to_nat num_labels).
Proof.
  intros Hinit.
  apply init_Ok_fields in Hinit
    as (Hpool & Hbert & Hcls & Hembs & Hfeat & Hnum & Hdrop & Htype & _).
  cbv zeta in *. set (features := default [] additional_features) in *.
  apply nn_Linear_Ok in Hcls as (Hin0 & Hout0 & Hin & Hout & Hwc).
  split; [|split].
  - intros input_ids token_type_ids attention_mask kwargs draws logits Hfwd.
    apply forward_Ok_classifier in Hfwd as [dropped Hlin].
    unfold linear2 in Hlin. destruct (Nat.eqb _ _); [|done].
    injection Hlin as <-. simpl. rewrite Hout. split; [done|].
    apply Forall_fmap. apply Forall_true. intros x. simpl.
    rewrite <- Hout. by apply length_linear_vec.
  - intros Hnone input_ids token_type_ids attention_mask kwargs draws.
    unfold forward. rewrite Hfeat, Hnone, Hdrop. 
    destruct (encode _ _ _ _ _ _) as [pooled|]; done.
  - intros Hl Hw Hnd Hp input_ids token_type_ids attention_mask kwargs draws pooled
           Henc Hwp Hcp Hpres.
    assert (Hembok : forall feature emb, feature ∈ features ->
              embedders m !! fst feature = Some emb ->
              0 <= snd feature /\ wf_embedding emb /\
              embedding_dim emb = Z.to_nat (snd feature)).
    { intros feature emb Hf He.
      destruct (init_embedders_lookup features ∅ (embedders m) feature Hnd Hembs Hf)
        as (emb' & He' & Hi). rewrite He in He'. injection He' as <-.
      apply init_embedder_Ok in Hi as (? & ? & ? & _). done. }
    assert (Hsizes : Forall (fun f => 0 <= snd f) features).
    { apply list.Forall_forall. intros f Hf.
      destruct (Hpres f ltac:(by rewrite Hfeat)) as (_ & _ & emb & _ & _ & He & _).
      by destruct (Hembok f emb Hf He). }
    destruct (to_nat_sum_sizes features Hsizes) as [Hs0 Hs].
    destruct (forward_mean_Ok m input_ids token_type_ids attention_mask kwargs draws pooled)
      as (logits & Hfwd & Hwl & Hrl & Hcl); try done.
    + rewrite Hin, Hfeat, <- Hs. rewrite Z2Nat.inj_add by lia. by rewrite Nat2Z.id.
    + rewrite Hfeat. intros Hne. unfold init_pooler in Hpool.
      destruct features as [|f fs] eqn:Ef; [done|]. simpl in Hpool.
      destruct (decide (pooling_type = Some "lstm"%string)); [done|].
      destruct (decide (pooling_type = Some "weighted"%string)); [done|].
      by injection Hpool.
    + rewrite Hfeat. intros feature emb Hf He.
      by destruct (Hembok feature emb Hf He) as (_ & ? & ?).
    + by rewrite Hdrop.
    + exists logits. split; [done|]. split; [done|]. split; [done|]. by rewrite Hcl.
Qed.

(** *** The pooler of the recurrent and the weighted strategy *)




(** *** What the constructor and [forward] depend on *)

(** The vocabulary that sizes the embedding table of a feature. *)
Definition vocabulary (feature_name : string) : option (gmap string Z) :=
  if String.eqb feature_name "upostag" then Some UPOS2IDX
  else UFEATS2IDX !! feature_name.

Lemma init_embedder_vocabulary (feature_name : string) (emb_size : Z) (emb : Embedding) :
  init_embedder feature_name emb_size = Ok emb ->
  exists vocab pad,
    vocabulary feature_name = Some vocab /\ vocab !! PAD = Some pad /\
    num_embeddings emb = size vocab /\ embedding_dim emb = Z.to_nat emb_size /\
    0 <= emb_size.
Proof.
  unfold init_embedder, vocabulary, getitem.
  destruct (String.eqb feature_name "upostag").
  - simpl. destruct (UPOS2IDX !! PAD) as [pad|] eqn:Hpad; simpl; [|done].
    intros H. apply nn_Embedding_Ok in H as (? & _ & ? & Hn & _).
    exists UPOS2IDX, pad. rewrite Hn, Nat2Z.id. done.
  - destruct (UFEATS2IDX !! feature_name) as [vocab|]; simpl; [|done].
    destruct (vocab !! PAD) as [pad|] eqn:Hpad; simpl; [|done].
    intros H. apply nn_Embedding_Ok in H as (? & _ & ? & Hn & _).
    exists vocab, pad. rewrite Hn, Nat2Z.id. done.
Qed.

(** X11. [forward] reads the batch only under the keys [<name>_ids] and
    [<name>_mask] of the configured features: two batches that agree on
    these keys give the same result, whatever else they hold. *)
Theorem forward_reads_configured_keys_only (m : Model)
    (input_ids token_type_ids attention_mask : Tensor2 Z)
    (kwargs kwargs' : gmap string Tensor) (draws : Draws) :
  (forall feature, feature ∈ additional_features m ->
     kwargs !! (fst feature +:+ "_ids") = kwargs' !! (fst feature +:+ "_ids") /\
     kwargs !! (fst feature +:+ "_mask") = kwargs' !! (fst feature +:+ "_mask")) ->
  forward m input_ids token_type_ids attention_mask kwargs draws =
  forward m input_ids token_type_ids attention_mask kwargs' draws.
Proof.
  intros Hagree. unfold forward.
  rewrite (mapM_ext (process_feature m kwargs) (process_feature m kwargs')); [done|].
  intros feature Hf. destruct (Hagree feature Hf) as [Hi Hk].
  unfold process_feature, getitem. by rewrite Hi, Hk.
Qed.

(** X12. When the constructor returns, every configured feature is
    registered: ["upostag"] needs the padding tag in [UPOS2IDX], any
    other feature needs an entry in [UFEATS2IDX] that holds the padding
    tag; the sizes and the number of labels are not negative.  The
    embedding table of a feature then has one row per entry of its
    vocabulary and the configured size as its width, and the classifier
    takes the encoder's hidden size plus the sum of the feature sizes. *)
Theorem init_embedders_sized_by_vocabulary (num_labels : Z)
    (pretrained : result Encoder) (dropout : R) (features : odict Z)
    (pooling_type : option string) (m : Model) :
  init num_labels pretrained dropout (Some features) pooling_type = Ok m ->
  NoDup (map fst features) ->
  (forall feature, feature ∈ features ->
     exists emb vocab pad,
       embedders m !! fst feature = Some emb /\
       vocabulary (fst feature) = Some vocab /\ vocab !! PAD = Some pad /\
       num_embeddings emb = size vocab /\
       embedding_dim emb = Z.to_nat (snd feature) /\ 0 <= snd feature) /\
  (forall name, name ∉ map fst features -> embedders m !! name = None) /\
  0 <= num_labels /\
  out_features (classifier m) = Z.to_nat num_labels /\
  in_features (classifier m) =
    (hidden_size (bert_model m) +
     sum_list (map (fun f => Z.to_nat (snd f)) features))%nat.
Proof.
  intros Hinit Hnd.
  apply init_Ok_fields in Hinit as (_ & _ & Hcls & Hembs & _).
  cbv zeta in *. simpl in Hcls, Hembs.
  assert (Hfeat : forall feature, feature ∈ features ->
     exists emb vocab pad,
       embedders m !! fst feature = Some emb /\
       vocabulary (fst feature) = Some vocab /\ vocab !! PAD = Some pad /\
       num_embeddings emb = size vocab /\
       embedding_dim emb = Z.to_nat (snd feature) /\ 0 <= snd feature).
  { intros feature Hf.
    destruct (init_embedders_lookup features ∅ (embedders m) feature Hnd Hembs Hf)
      as (emb & He & Hi).
    apply init_embedder_vocabulary in Hi as (vocab & pad & ? & ? & ? & ? & ?).
    by exists emb, vocab, pad. }
  split; [exact Hfeat|]. split.
  { intros name Hn. by rewrite (init_embedders_other features ∅ _ name Hn Hembs). }
  apply nn_Linear_Ok in Hcls as (_ & Hout0 & Hin & Hout & _).
  split; [done|]. split; [done|].
  assert (Hsizes : Forall (fun f => 0 <= snd f) features).
  { apply list.Forall_forall. intros f Hf.
    by destruct (Hfeat f Hf) as (_ & _ & _ & _ & _ & _ & _ & _ & ?). }
  destruct (to_nat_sum_sizes features Hsizes) as [Hs0 Hs].
  rewrite Hin, <- Hs. rewrite Z2Nat.inj_add by lia. by rewrite Nat2Z.id.
Qed.

(** X13. With the weighted pooler, a feature whose embedding size
    differs from the size of ["upostag"] cannot be pooled: the scoring
    layer is sized for ["upostag"], so on a batch that carries valid ids
    for the feature its turn of the loop raises a [RuntimeError], and
    [forward] raises. *)
Theorem forward_weighted_size_mismatch_raises (num_labels : Z)
    (pretrained : result Encoder) (dropout : R) (features : odict Z) (m : Model)
    (feature : string * Z) (upostag_size : Z)
    (kwargs : gmap string Tensor) (ids : Tensor2 Z) (masks : Tensor) :
  init num_labels pretrained dropout (Some features) (Some "weighted"%string) = Ok m ->
  NoDup (map fst features) ->
  feature ∈ features ->
  odict_get features "upostag" = Ok upostag_size -> snd feature <> upostag_size ->
  kwargs !! (fst feature +:+ "_ids") = Some (LongTensor ids) ->
  kwargs !! (fst feature +:+ "_mask") = Some masks ->
  (forall emb, embedders m !! fst feature = Some emb ->
     Forall (Forall (fun i => 0 <= i < Z.of_nat (num_embeddings emb))) (val2 ids)) ->
  process_feature m kwargs feature = Raise RuntimeError /\
  forall input_ids token_type_ids attention_mask draws,
    is_ok (forward m input_ids token_type_ids attention_mask kwargs draws) = false.
Proof.
  intros Hinit Hnd Hf Hup Hne Hi Hk Hrange.
  apply init_Ok_fields in Hinit as (Hpool & _ & _ & Hembs & Hfeat & _).
  cbv zeta in *. simpl in Hpool, Hembs, Hfeat.
  assert (Hlen : (0 <? length features)%nat = true).
  { destruct features; [by apply elem_of_nil in Hf|done]. }
  unfold init_pooler in Hpool. rewrite Hlen, Hup in Hpool.
  destruct (decide (Some "weighted"%string = Some "lstm"%string)) as [?|_]; [done|].
  destruct (decide (Some "weighted"%string = Some "weighted"%string)) as [_|?]; [|done].
  cbn [bind] in Hpool.
  destruct (nn_Linear upostag_size 1 _ _) as [linear|] eqn:Hl; simpl in Hpool; [|done].
  injection Hpool as Hpool.
  apply nn_Linear_Ok in Hl as (Hup0 & _ & Hin & _).
  destruct (init_embedders_lookup features ∅ (embedders m) feature Hnd Hembs Hf)
    as (emb & He & Hie).
  apply init_embedder_Ok in Hie as (Hs0 & Hwe & Hdim & _).
  assert (Hrows : forall l,
            Forall (Forall (fun i => 0 <= i < Z.of_nat (num_embeddings emb))) l ->
            exists v, mapM (mapM (embedding_row emb)) l = Ok v).
  { intros l Hl. destruct (mapM_Forall2 (mapM (embedding_row emb)) (fun _ _ => True) l)
      as (v & Hv & _); [|by exists v].
    intros s Hs. pose proof (proj1 (list.Forall_forall _ _) Hl s Hs) as Hsr.
    destruct (mapM_Forall2 (embedding_row emb) (fun _ _ => True) s) as (r & Hr & _);
      [|by exists r].
    intros i Hin'. pose proof (proj1 (list.Forall_forall _ _) Hsr i Hin') as Hir.
    simpl in Hir. unfold embedding_row.
    destruct (Z.ltb_spec i 0); [lia|].
    destruct (Z.leb_spec (Z.of_nat (num_embeddings emb)) i); [lia|]. simpl.
    destruct Hwe as [Hlt _].
    destruct (lookup_lt_is_Some_2 (table emb) (Z.to_nat i) ltac:(lia)) as [r ->].
    by exists r. }
  destruct (Hrows (val2 ids) (Hrange emb He)) as (v & Hv).
  assert (Hproc : process_feature m kwargs feature = Raise RuntimeError).
  { unfold process_feature, getitem. rewrite Hi, Hk, <- Hpool, He. cbn [bind].
    unfold embedding_forward. rewrite Hv. cbn [bind Pooling.forward].
    unfold WeightedSumPooler_forward, linear3. cbn [dim2].
    destruct (Nat.eqb_spec (embedding_dim emb) (in_features linear)) as [Heq|_]; [|done].
    exfalso. rewrite Hdim, Hin in Heq. apply Hne. lia. }
  split; [exact Hproc|].
  intros input_ids token_type_ids attention_mask draws. unfold forward.
  destruct (encode _ _ _ _ _ _) as [pooled|]; [|done]. cbn [bind].
  rewrite Hfeat.
  pose proof (mapM_raise (process_feature m kwargs) features feature Hf) as Hr.
  rewrite Hproc in Hr. specialize (Hr eq_refl).
  destruct (mapM (process_feature m kwargs) features); [done|]. done.
Qed.

(** When every configured feature is pooled to [B] rows of its size,
    [forward] returns [B] rows of logits. *)
Lemma forward_processed_Ok (m : Model)
    (input_ids token_type_ids attention_mask : Tensor2 Z)
    (kwargs : gmap string Tensor) (draws : Draws) (pooled : Tensor2 R) :
  wf_linear (classifier m) ->
  in_features (classifier m) =
    (hidden_size (bert_model m) +
     sum_list (map (fun f => Z.to_nat (snd f)) (additional_features m)))%nat ->
  (forall feature, feature ∈ additional_features m ->
     exists out, process_feature m kwargs feature = Ok out /\
                 wf2 out /\ rows out = rows pooled /\ cols out = Z.to_nat (snd feature)) ->
  (0 <= dropout m <= 1)%R ->
  encode (bert_model m) (bert_training (bert_model m)) (bert_draw draws)
         input_ids token_type_ids attention_mask = Ok pooled ->
  wf2 pooled -> cols pooled = hidden_size (bert_model m) ->
  exists logits,
    forward m input_ids token_type_ids attention_mask kwargs draws = Ok logits /\
    wf2 logits /\ rows logits = rows pooled /\
    cols logits = out_features (classifier m).
Proof.
  intros Hwc Hin Hfeat Hp Henc Hwp Hcp. unfold forward. rewrite Henc.
  cbn [bind].
  destruct (mapM_Forall2 (process_feature m kwargs)
              (fun f out => wf2 out /\ rows out = rows pooled /\
                            cols out = Z.to_nat (snd f))
              (additional_features m) Hfeat) as (processed & -> & Hall).
  cbn [bind].
  assert (Hcols : map cols processed =
                  map (fun f => Z.to_nat (snd f)) (additional_features m)).
  { clear -Hall. induction Hall as [|f out fs outs (_ & _ & Hc) _ IH]; simpl; [done|].
    by rewrite Hc, IH. }
  assert (Hwf : Forall (fun t => wf2 t /\ rows t = rows pooled) processed).
  { clear -Hall. induction Hall as [|f out fs outs (Hw & Hr & _) _ IH]; by constructor. }
  assert (Hcat : exists pooled',
    (if (0 <? length processed)%nat
     then do additional <- cat_dim1 processed; cat_dim1 [pooled; additional]
     else Ok pooled) = Ok pooled' /\
    wf2 pooled' /\ rows pooled' = rows pooled /\
    cols pooled' = in_features (classifier m)).
  { destruct processed as [|t ts] eqn:Ep.
    - simpl. exists pooled. split; [done|]. split; [done|]. split; [done|].
      rewrite Hin, <- Hcols. simpl. lia.
    - rewrite <- Ep in *. replace (0 <? length processed)%nat with true
        by (rewrite Ep; done).
      destruct (cat_dim1_Ok (rows pooled) processed) as (additional & -> & Hwa & Hra & Hca);
        [by rewrite Ep|done|].
      cbn [bind].
      destruct (cat_dim1_Ok (rows pooled) [pooled; additional])
        as (pooled' & -> & Hw' & Hr' & Hc');
        [done|repeat (apply list.Forall_cons; split; [done|]); apply Forall_nil|].
      exists pooled'. split; [done|]. split; [done|]. split; [done|].
      rewrite Hc', Hin. simpl. rewrite Hca, Hcols, Hcp. lia. }
  destruct Hcat as (pooled' & -> & Hw' & Hr' & Hc'). cbn [bind].
  destruct (F_dropout_Ok pooled' (dropout m) true (keep draws) Hw' Hp)
    as (dropped & -> & Hwd & Hrd & Hcd). cbn [bind].
  destruct (linear2_Ok (classifier m) dropped Hwc Hwd ltac:(lia))
    as (logits & -> & Hwl & Hrl & Hcl).
  exists logits. split; [done|]. split; [done|]. split; [lia|done].
Qed.

(** X26. With the weighted pooler and every configured feature of the
    size of ["upostag"], [forward] returns on every batch that carries
    the tensors of the configured features: one row of [num_labels]
    logits per example. *)
Theorem forward_weighted_same_size_returns (num_labels : Z)
    (pretrained : result Encoder) (dropout : R) (features : odict Z) (m : Model)
    (upostag_size : Z)
    (input_ids token_type_ids attention_mask : Tensor2 Z)
    (kwargs : gmap string Tensor) (draws : Draws) (pooled : Tensor2 R) :
  init num_labels pretrained dropout (Some features) (Some "weighted"%string) = Ok m ->
  NoDup (map fst features) ->
  odict_get features "upostag" = Ok upostag_size ->
  (forall feature, feature ∈ features -> snd feature = upostag_size) ->
  (0 <= dropout <= 1)%R ->
  encode (bert_model m) (bert_training (bert_model m)) (bert_draw draws)
         input_ids token_type_ids attention_mask = Ok pooled ->
  wf2 pooled -> cols pooled = hidden_size (bert_model m) ->
  features_present m (rows pooled) kwargs ->
  exists logits,
    forward m input_ids token_type_ids attention_mask kwargs draws = Ok logits /\
    wf2 logits /\ rows logits = rows pooled /\ cols logits = Z.to_nat num_labels.
Proof.
  intros Hinit Hnd Hup Hsame Hp Henc Hwp Hcp Hpres.
  apply init_Ok_fields in Hinit
    as (Hpool & _ & Hcls & Hembs & Hfeat & _ & Hdrop & _).
  cbv zeta in *. simpl in Hpool, Hcls, Hembs, Hfeat.
  apply nn_Linear_Ok in Hcls as (_ & _ & Hin & Hout & Hwc).
  assert (Hlen : (0 <? length features)%nat = true).
  { pose proof (odict_get_elem _ _ _ Hup) as Hin'.
    destruct features; [by apply elem_of_nil in Hin'|done]. }
  unfold init_pooler in Hpool. rewrite Hlen, Hup in Hpool.
  destruct (decide (Some "weighted"%string = Some "lstm"%string)) as [?|_]; [done|].
  destruct (decide (Some "weighted"%string = Some "weighted"%string)) as [_|?]; [|done].
  cbn [bind] in Hpool.
  destruct (nn_Linear upostag_size 1 _ _) as [linear|] eqn:Hl; simpl in Hpool; [|done].
  injection Hpool as Hpool.
  apply nn_Linear_Ok in Hl as (_ & _ & Hlin & Hlout & Hwl).
  assert (Hembok : forall feature emb, feature ∈ features ->
            embedders m !! fst feature = Some emb ->
            0 <= snd feature /\ wf_embedding emb /\
            embedding_dim emb = Z.to_nat (snd feature)).
  { intros feature emb Hf He.
    destruct (init_embedders_lookup features ∅ (embedders m) feature Hnd Hembs Hf)
      as (emb' & He' & Hi). rewrite He in He'. injection He' as <-.
    apply init_embedder_Ok in Hi as (? & ? & ? & _). done. }
  assert (Hsizes : Forall (fun f => 0 <= snd f) features).
  { apply list.Forall_forall. intros f Hf.
    destruct (Hpres f ltac:(by rewrite Hfeat)) as (_ & _ & emb & _ & _ & He & _).
    by destruct (Hembok f emb Hf He). }
  destruct (to_nat_sum_sizes features Hsizes) as [Hs0 Hs].
  destruct (forward_processed_Ok m input_ids token_type_ids attention_mask kwargs draws
              pooled) as (logits & Hfwd & Hwlg & Hrl & Hcl); try done.
  - rewrite Hin, Hfeat, <- Hs. rewrite Z2Nat.inj_add by lia. by rewrite Nat2Z.id.
  - intros feature Hf. rewrite Hfeat in Hf.
    destruct (Hpres feature ltac:(by rewrite Hfeat))
      as (ids & masks & emb & Hi & Hk & He & Hwi & Hri & Hrg & Hwm & Hrm & Hcm).
    destruct (Hembok feature emb Hf He) as (_ & Hwe & Hdim).
    destruct (embedding_forward_Ok emb ids Hwe Hwi Hrg)
      as (data & Hd & Hwd & H0 & H1 & H2).
    destruct (WeightedSumPooler_forward_shape linear data (to_float masks) Hwl Hlout)
      as (out & Ho & Hwo & Hro & Hco); [|done|].
    { rewrite Hlin, H2, Hdim. by rewrite (Hsame feature Hf). }
    exists out. unfold process_feature, getitem. rewrite Hi, Hk, <- Hpool, He.
    cbn [bind]. rewrite Hd. cbn [bind Pooling.forward].
    split; [done|]. split; [done|]. split; lia.
  - by rewrite Hdrop.
  - exists logits. split; [done|]. split; [done|]. split; [done|]. by rewrite Hcl, Hout.
Qed.

End WithRegistry.

(** *** A small model *)

(** A model without auxiliary features: an encoder with two hidden units
    that returns the row [1, 2] for its single example, a dropout
    probability of 1/2 and the identity as classifier. *)
Definition two_unit_encoder : Encoder :=
  MkEncoder 2 false (fun _ _ _ _ _ => Ok (T2 1 2 [[1%R; 2%R]])).

Definition identity_classifier : Linear :=
  MkLinear 2 2 [[1%R; 0%R]; [0%R; 1%R]] [0%R; 0%R].

Definition plain_model : Model :=
  MkModel 2 (1 / 2) [] None None two_unit_encoder identity_classifier ∅ true.

(** Initial values: the identity for the classifier, zero elsewhere. *)
Definition toy_fresh (name : string) (i j : nat) : R :=
  if String.eqb name "classifier.weight" then (if Nat.eqb i j then 1%R else 0%R)
  else 0%R.

(** A part-of-speech vocabulary of two tags. *)
Definition toy_upos : gmap string Z :=
  <["NOUN"%string := 1]> (<["PAD"%string := 0]> ∅).

Definition no_lstm (hidden_size : Z) : result (Tensor3 R -> result (Tensor2 R)) :=
  Raise RuntimeError.

(** Names that [add_module] refuses: the empty name, a name with a dot,
    and some of the attributes of a module. *)
Definition toy_module_name_error (name : string) : option string :=
  if String.eqb name "" then Some "module name can't be empty string"%string
  else if existsb (Ascii.eqb ".") (list_ascii_of_string name)
  then Some "module name can't contain a dot"%string
  else if existsb (String.eqb name) ["type"; "train"; "training"; "forward"]%string
  then Some ("attribute '" +:+ name +:+ "' already exists")
  else None.

Example init_plain_model :
  init ∅ ∅ "" no_lstm toy_fresh toy_module_name_error 2 (Ok two_unit_encoder) (1 / 2) None None
  = Ok plain_model.
Proof. reflexivity. Qed.

(** A model with the part-of-speech feature and no tensors for it. *)
Lemma forward_missing_feature_key_raises_witness :
  let m := MkModel 2 (1 / 2) [("upostag"%string, 2)] None (Some MaskedMeanPooler)
                   two_unit_encoder identity_classifier ∅ true in
  ("upostag"%string, 2) ∈ additional_features m /\
  ((∅ : gmap string Tensor) !! ("upostag" +:+ "_ids") = None \/
   (∅ : gmap string Tensor) !! ("upostag" +:+ "_mask") = None) /\
  forward m (T2 1 1 [[0]]) (T2 1 1 [[0]]) (T2 1 1 [[1]]) ∅ (MkDraws 0 (fun _ _ => true))
  = Raise (KeyError "upostag_ids").
Proof.
  intros m.
  assert (Hin : ("upostag"%string, 2) ∈ additional_features m) by (by left).
  assert (Hmiss : (∅ : gmap string Tensor) !! ("upostag" +:+ "_ids") = None \/
                  (∅ : gmap string Tensor) !! ("upostag" +:+ "_mask") = None)
    by (left; reflexivity).
  split; [exact Hin|]. split; [exact Hmiss|].
  exact (proj2 (forward_missing_feature_key_raises m (T2 1 1 [[0]]) (T2 1 1 [[0]])
                  (T2 1 1 [[1]]) ∅ (MkDraws 0 (fun _ _ => true)) ("upostag"%string, 2)
                  Hin Hmiss)
               (T2 1 2 [[1%R; 2%R]]) [] [] [] eq_refl eq_refl eq_refl).
Defined.

(** The model built with the part-of-speech feature and the default pooler. *)
Lemma forward_logits_shape_witness :
  exists m,
    init toy_upos ∅ "PAD" no_lstm toy_fresh toy_module_name_error 2 (Ok two_unit_encoder) (1 / 2)
         (Some [("upostag"%string, 2)]) None = Ok m /\
    forall input_ids token_type_ids attention_mask kwargs draws logits,
      forward m input_ids token_type_ids attention_mask kwargs draws = Ok logits ->
      cols logits = 2%nat.
Proof.
  destruct (init toy_upos ∅ "PAD" no_lstm toy_fresh toy_module_name_error 2 (Ok two_unit_encoder) (1 / 2)
                 (Some [("upostag"%string, 2)]) None) as [m|e] eqn:Hinit.
  - exists m. split; [reflexivity|].
    intros input_ids token_type_ids attention_mask kwargs draws logits Hfwd.
    exact (proj1 (proj1 (forward_logits_shape toy_upos ∅ "PAD" no_lstm toy_fresh toy_module_name_error 2
                           (Ok two_unit_encoder) (1 / 2) (Some [("upostag"%string, 2)])
                           None m Hinit)
                        input_ids token_type_ids attention_mask kwargs draws logits Hfwd)).
  - exfalso. vm_compute in Hinit. discriminate Hinit.
Defined.

(** A vocabulary for one further feature, the grammatical case. *)
Definition toy_ufeats : gmap string (gmap string Z) :=
  <["Case"%string := <["Nom"%string := 1]> (<["PAD"%string := 0]> ∅)]> ∅.

(** A batch with the tensors of the part-of-speech feature, and the same
    batch with one more entry. *)
Lemma forward_reads_configured_keys_only_witness :
  let m := MkModel 2 (1 / 2) [("upostag"%string, 2)] None (Some MaskedMeanPooler)
                   two_unit_encoder identity_classifier ∅ true in
  let kwargs : gmap string Tensor :=
    <["upostag_ids"%string := LongTensor (T2 1 1 [[1]])]>
      (<["upostag_mask"%string := LongTensor (T2 1 1 [[1]])]> ∅) in
  let kwargs' := <["labels"%string := LongTensor (T2 1 1 [[0]])]> kwargs in
  let draws := MkDraws 0 (fun _ _ => true) in
  forward m (T2 1 1 [[0]]) (T2 1 1 [[0]]) (T2 1 1 [[1]]) kwargs draws =
  forward m (T2 1 1 [[0]]) (T2 1 1 [[0]]) (T2 1 1 [[1]]) kwargs' draws.
Proof.
  intros m kwargs kwargs' draws.
  apply (forward_reads_configured_keys_only m).
  intros feature Hf. apply list_elem_of_singleton in Hf as ->.
  split; vm_compute; reflexivity.
Defined.

(** The model built with the part-of-speech feature and the case feature. *)
Lemma init_embedders_sized_by_vocabulary_witness :
  exists m,
    init toy_upos toy_ufeats "PAD" no_lstm toy_fresh toy_module_name_error 2 (Ok two_unit_encoder) (1 / 2)
         (Some [("upostag"%string, 2); ("Case"%string, 3)]) None = Ok m /\
    NoDup (map fst [("upostag"%string, 2); ("Case"%string, 3)]) /\
    in_features (classifier m) = 7%nat.
Proof.
  destruct (init toy_upos toy_ufeats "PAD" no_lstm toy_fresh toy_module_name_error 2 (Ok two_unit_encoder)
                 (1 / 2) (Some [("upostag"%string, 2); ("Case"%string, 3)]) None)
    as [m|e] eqn:Hinit; [|exfalso; vm_compute in Hinit; discriminate Hinit].
  assert (Hnd : NoDup (map fst [("upostag"%string, 2); ("Case"%string, 3)])).
  { simpl. apply list.NoDup_cons. split; [|apply NoDup_singleton].
    intros H. apply list_elem_of_singleton in H. discriminate. }
  exists m. split; [reflexivity|]. split; [exact Hnd|].
  destruct (init_embedders_sized_by_vocabulary toy_upos toy_ufeats "PAD" no_lstm
              toy_fresh toy_module_name_error 2 (Ok two_unit_encoder) (1 / 2)
              [("upostag"%string, 2); ("Case"%string, 3)] None m Hinit Hnd)
    as (_ & _ & _ & _ & Hin).
  rewrite Hin. revert Hinit. vm_compute. by intros [= <-].
Defined.

(** The weighted pooler with a part-of-speech size of 2 and a case size
    of 3. *)
Lemma forward_weighted_size_mismatch_raises_witness :
  let features := [("upostag"%string, 2); ("Case"%string, 3)] in
  let kwargs : gmap string Tensor :=
    <["Case_ids"%string := LongTensor (T2 1 1 [[1]])]>
      (<["Case_mask"%string := LongTensor (T2 1 1 [[1]])]> ∅) in
  exists m,
    init toy_upos toy_ufeats "PAD" no_lstm toy_fresh toy_module_name_error 2 (Ok two_unit_encoder) (1 / 2)
         (Some features) (Some "weighted"%string) = Ok m /\
    NoDup (map fst features) /\ ("Case"%string, 3) ∈ features /\
    odict_get features "upostag" = Ok 2 /\ 3 <> 2 /\
    process_feature m kwargs ("Case"%string, 3) = Raise RuntimeError.
Proof.
  intros features kwargs.
  destruct (init toy_upos toy_ufeats "PAD" no_lstm toy_fresh toy_module_name_error 2 (Ok two_unit_encoder)
                 (1 / 2) (Some features) (Some "weighted"%string))
    as [m|e] eqn:Hinit; [|exfalso; vm_compute in Hinit; discriminate Hinit].
  assert (Hnd : NoDup (map fst features)).
  { simpl. apply list.NoDup_cons. split; [|apply NoDup_singleton].
    intros H. apply list_elem_of_singleton in H. discriminate. }
  assert (Hf : ("Case"%string, 3) ∈ features) by (right; left).
  exists m. split; [reflexivity|]. split; [exact Hnd|]. split; [exact Hf|].
  split; [reflexivity|]. split; [lia|].
  refine (proj1 (forward_weighted_size_mismatch_raises toy_upos toy_ufeats "PAD" no_lstm
                   toy_fresh toy_module_name_error 2 (Ok two_unit_encoder) (1 / 2) features m
                   ("Case"%string, 3) 2 kwargs (T2 1 1 [[1]]) (LongTensor (T2 1 1 [[1]]))
                   Hinit Hnd Hf eq_refl ltac:(simpl; lia) ltac:(vm_compute; reflexivity)
                   ltac:(vm_compute; reflexivity) _)).
  intros emb He.
  destruct (init_Ok_fields _ _ _ _ _ _ _ _ _ _ _ _ Hinit) as (_ & _ & _ & Hembs & _).
  destruct (init_embedders_lookup toy_upos toy_ufeats "PAD" toy_fresh toy_module_name_error features ∅
              (embedders m) ("Case"%string, 3) Hnd Hembs Hf) as (emb' & He' & Hi).
  simpl in He, He'. rewrite He in He'. injection He' as <-.
  apply init_embedder_vocabulary in Hi as (vocab & pad & Hv & _ & Hn & _).
  injection Hv as <-.
  assert (Hn' : num_embeddings emb = 2%nat) by (rewrite Hn; vm_compute; reflexivity).
  constructor; [|constructor]. constructor; [|constructor]. rewrite Hn'. simpl. lia.
Defined.

(** The weighted pooler with a part-of-speech size and a case size of 2. *)
Lemma forward_weighted_same_size_returns_witness :
  let features := [("upostag"%string, 2); ("Case"%string, 2)] in
  let ids := LongTensor (T2 1 1 [[1]]) in
  let kwargs : gmap string Tensor :=
    <["upostag_ids"%string := ids]> (<["upostag_mask"%string := ids]>
      (<["Case_ids"%string := ids]> (<["Case_mask"%string := ids]> ∅))) in
  exists m logits,
    init toy_upos toy_ufeats "PAD" no_lstm toy_fresh toy_module_name_error 2 (Ok two_unit_encoder) (1 / 2)
         (Some features) (Some "weighted"%string) = Ok m /\
    forward m (T2 1 1 [[0]]) (T2 1 1 [[0]]) (T2 1 1 [[1]]) kwargs
            (MkDraws 0 (fun _ _ => true)) = Ok logits /\
    cols logits = 2%nat.
Proof.
  intros features ids kwargs.
  destruct (init toy_upos toy_ufeats "PAD" no_lstm toy_fresh toy_module_name_error 2 (Ok two_unit_encoder)
                 (1 / 2) (Some features) (Some "weighted"%string))
    as [m|e] eqn:Hinit; [|exfalso; vm_compute in Hinit; discriminate Hinit].
  assert (Hnd : NoDup (map fst features)).
  { simpl. apply list.NoDup_cons. split; [|apply NoDup_singleton].
    intros H. apply list_elem_of_singleton in H. discriminate. }
  destruct (init_Ok_fields _ _ _ _ _ _ _ _ _ _ _ _ Hinit)
    as (_ & Hbert & _ & Hembs & Hfeat & _).
  simpl in Hembs, Hfeat. injection Hbert as Hbert.
  assert (Hemb : forall feature, feature ∈ features ->
            exists emb, embedders m !! fst feature = Some emb /\
                        num_embeddings emb = 2%nat).
  { intros feature Hf.
    destruct (init_embedders_lookup toy_upos toy_ufeats "PAD" toy_fresh toy_module_name_error features ∅
                (embedders m) feature Hnd Hembs Hf) as (emb & He & Hi).
    exists emb. split; [exact He|].
    apply init_embedder_vocabulary in Hi as (vocab & pad & Hv & _ & Hn & _).
    rewrite Hn.
    apply elem_of_cons in Hf as [->|Hf]; [|apply list_elem_of_singleton in Hf as ->];
      injection Hv as <-; vm_compute; reflexivity. }
  assert (Hsame : forall feature, feature ∈ features -> snd feature = 2).
  { intros feature Hf.
    apply elem_of_cons in Hf as [->|Hf]; [|apply list_elem_of_singleton in Hf as ->];
      reflexivity. }
  assert (Hwf : wf2 (T2 1 1 [[1]])) by (split; [reflexivity|repeat constructor]).
  assert (Hwm : wf2 (to_float ids)) by (split; [reflexivity|repeat constructor]).
  assert (Hpres : features_present m (rows (T2 1 2 [[1%R; 2%R]])) kwargs).
  { intros feature Hf. rewrite Hfeat in Hf. destruct (Hemb feature Hf) as (emb & He & Hn).
    exists (T2 1 1 [[1]]), ids, emb.
    assert (Hk : kwargs !! (fst feature +:+ "_ids") = Some ids /\
                 kwargs !! (fst feature +:+ "_mask") = Some ids).
    { apply elem_of_cons in Hf as [->|Hf]; [|apply list_elem_of_singleton in Hf as ->];
        split; vm_compute; reflexivity. }
    destruct Hk as [Hk1 Hk2].
    split; [exact Hk1|]. split; [exact Hk2|]. split; [exact He|]. split; [exact Hwf|].
    split; [reflexivity|]. split.
    { constructor; [|constructor]. constructor; [|constructor]. rewrite Hn. simpl. lia. }
    split; [exact Hwm|]. split; reflexivity. }
  destruct (forward_weighted_same_size_returns toy_upos toy_ufeats "PAD" no_lstm toy_fresh toy_module_name_error
              2 (Ok two_unit_encoder) (1 / 2) features m 2
              (T2 1 1 [[0]]) (T2 1 1 [[0]]) (T2 1 1 [[1]]) kwargs
              (MkDraws 0 (fun _ _ => true)) (T2 1 2 [[1%R; 2%R]])
              Hinit Hnd eq_refl Hsame ltac:(lra))
    as (logits & Hfwd & _ & _ & Hcols).
  - by rewrite <- Hbert.
  - split; [reflexivity|repeat constructor].
  - by rewrite <- Hbert.
  - exact Hpres.
  - exists m, logits. split; [reflexivity|]. split; [exact Hfwd|exact Hcols].
Defined.


End Classifier.

(** ** The training controller: [train] and [validate] *)

Module Controller.
Import Torch.
Import Classifier.

(** A batch as the data loader yields it: the three encoder inputs, the
    labels, and the tensors of the auxiliary features by key. *)
Record Batch : Type := MkBatch {
  input_ids : Tensor2 Z;
  token_type_ids : Tensor2 Z;
  attention_mask : Tensor2 Z;
  labels : list Z;
  features : gmap string Tensor
}.

(** A dataset with its length and the batches that
    [DataLoader(dataset, batch_size=self.batch_size, shuffle=False)]
    yields, in order. *)
Record Dataset : Type := MkDataset {
  len : nat;
  batches : list Batch
}.

(** What [curr_loss.backward()] leaves for [optimizer.step()]: the
    gradient of the loss with respect to the output of every embedder,
    and, for the parameters that are not embedding tables, their values
    after the step. *)
Record Backward : Type := MkBackward {
  grad_out : string -> list (list (list R));
  stepped_classifier : Linear;
  stepped_pooler : option Pooler;
  stepped_bert : Encoder
}.

(** [BertController] *)
Record BertController : Type := MkController {
  num_labels : Z;
  batch_size : Z;
  validate_every_n_steps : Z;
  early_stopping_rounds : Z;
  model : Model;
  loss : Tensor2 R -> list Z -> result R;
  optimizer : AdamW;
  optimizer_state : gmap string AdamState
}.

Record Metrics : Type := MkMetrics {
  metric_loss : R;
  metric_accuracy : Q
}.

(** [self.model.train()] and [self.model.eval()]: the flag of the module
    and of the encoder inside it. *)
Definition set_mode (mode : bool) (m : Model) : Model :=
  MkModel (Classifier.num_labels m) (dropout m) (additional_features m)
          (pooling_type m) (pooler m)
          (MkEncoder (hidden_size (bert_model m)) mode (encode (bert_model m)))
          (classifier m) (embedders m) mode.

Definition with_model (c : BertController) (m : Model) : BertController :=
  MkController (num_labels c) (batch_size c) (validate_every_n_steps c)
               (early_stopping_rounds c) m (loss c) (optimizer c) (optimizer_state c).

(** The step of the optimizer on the table of one embedder.  A table
    without a gradient is skipped. *)
Definition embedder_step (c : BertController) (batch : Batch) (bw : Backward)
    (name : string) (emb : Embedding) : Embedding * option AdamState :=
  match features batch !! (name +:+ "_ids") with
  | Some (LongTensor ids) =>
      let grad := embedding_backward emb (val2 ids) (grad_out bw name) in
      let '(table', st') :=
        adamw_step (optimizer c) (table emb) grad (optimizer_state c !! name) in
      (MkEmbedding (num_embeddings emb) (embedding_dim emb) (padding_idx emb) table',
       Some st')
  | _ => (emb, optimizer_state c !! name)
  end.

(** Lines 197-199: [backward], [optimizer.step()], [optimizer.zero_grad()]. *)
Definition optimizer_step (c : BertController) (batch : Batch) (bw : Backward)
    : BertController :=
  let m := model c in
  MkController (num_labels c) (batch_size c) (validate_every_n_steps c)
    (early_stopping_rounds c)
    (MkModel (Classifier.num_labels m) (dropout m) (additional_features m)
       (pooling_type m) (stepped_pooler bw) (stepped_bert bw) (stepped_classifier bw)
       (map_imap (fun name emb => Some (fst (embedder_step c batch bw name emb)))
                 (embedders m))
       (training m))
    (loss c) (optimizer c)
    (map_imap (fun name emb => snd (embedder_step c batch bw name emb)) (embedders m)).

(** Lines 190-199: the loop of [train] over the batches.  The state
    reached when an exception is raised is kept next to the exception. *)
Fixpoint train_loop (c : BertController) (bs : list Batch) (k : nat)
    (oracle : nat -> Draws * Backward) (train_loss : R)
    : BertController * result R :=
  match bs with
  | [] => (c, Ok train_loss)
  | curr_batch :: rest =>
      let '(draws, bw) := oracle k in
      match
        (do logits <- forward (model c) (input_ids curr_batch) (token_type_ids curr_batch)
                              (attention_mask curr_batch) (features curr_batch) draws;
         loss c logits (labels curr_batch))
      with
      | Raise e => (c, Raise e)
      | Ok curr_loss =>
          train_loop (optimizer_step c curr_batch bw) rest (S k) oracle
                     (train_loss + curr_loss)%R
      end
  end.

(** [BertController.train].  The data loader refuses a batch size that
    is not positive. *)
Definition train (c : BertController) (train_dataset : Dataset)
    (oracle : nat -> Draws * Backward) : BertController * result R :=
  let c := with_model c (set_mode true (model c)) in
  match floordiv (Z.of_nat (len train_dataset) + batch_size c - 1) (batch_size c) with
  | Raise e => (c, Raise e)
  | Ok total_num_batches =>
      if batch_size c <=? 0 then (c, Raise ValueError)
      else
        let '(c', r) := train_loop c (batches train_dataset) 0 oracle 0%R in
        (c', do train_loss <- r;
             if Z.eqb total_num_batches 0 then Raise ZeroDivisionError
             else Ok (train_loss / IZR total_num_batches)%R)
  end.

(** Lines 210-219: the loop of [validate] over the batches. *)
Fixpoint validate_loop (c : BertController) (bs : list Batch) (k : nat)
    (draws : nat -> Draws) (dev_loss : R) (num_correct : Z) : result (R * Z) :=
  match bs with
  | [] => Ok (dev_loss, num_correct)
  | curr_batch :: rest =>
      do logits <- forward (model c) (input_ids curr_batch) (token_type_ids curr_batch)
                           (attention_mask curr_batch) (features curr_batch) (draws k);
      do curr_loss <- loss c logits (labels curr_batch);
      do label_preds <- argmax_dim1 logits;
      do correct <- count_equal label_preds (labels curr_batch);
      validate_loop c rest (S k) draws (dev_loss + curr_loss)%R (num_correct + correct)
  end.

(** [BertController.validate] *)
Definition validate (c : BertController) (dev_dataset : Dataset)
    (draws : nat -> Draws) : BertController * result Metrics :=
  let c := with_model c (set_mode false (model c)) in
  (c,
   do total_num_batches <-
     floordiv (Z.of_nat (len dev_dataset) + batch_size c - 1) (batch_size c);
   do _ <- (if batch_size c <=? 0 then Raise ValueError else Ok tt);
   do sums <- validate_loop c (batches dev_dataset) 0 draws 0%R 0;
   if Z.eqb total_num_batches 0 then Raise ZeroDivisionError
   else if Nat.eqb (len dev_dataset) 0 then Raise ZeroDivisionError
   else Ok (MkMetrics (fst sums / IZR total_num_batches)%R
                      (snd sums # Pos.of_nat (len dev_dataset)))).

(** *** The padding row across training *)













Section WithRegistry.
Variable UPOS2IDX : gmap string Z.
Variable UFEATS2IDX : gmap string (gmap string Z).
Variable PAD : string.
Variable nn_LSTM : Z -> result (Tensor3 R -> result (Tensor2 R)).
Variable fresh : string -> nat -> nat -> R.
Variable module_name_error : string -> option string.

(** [BertController.__init__]: the model, the loss and the optimizer over
    the parameters of the model; the optimizer refuses a negative
    learning rate. *)
Definition init (num_labels batch_size : Z) (dropout lr : R)
    (early_stopping_rounds validate_every_n_steps : Z) (pretrained : result Encoder)
    (additional_features : option (odict Z)) (pooling_type : option string)
    : result BertController :=
  do model <- Classifier.init UPOS2IDX UFEATS2IDX PAD nn_LSTM fresh module_name_error
                num_labels
                pretrained dropout additional_features pooling_type;
  if Rlt_dec lr 0 then Raise ValueError
  else Ok (MkController num_labels batch_size validate_every_n_steps
             early_stopping_rounds model nn_CrossEntropyLoss (optim_AdamW lr) ∅).



End WithRegistry.

(** *** Errors and the configuration across [train] *)

(** The fields of the controller and of the model that no pass writes. *)
Definition same_configuration (c c' : BertController) : Prop :=
  num_labels c' = num_labels c /\ batch_size c' = batch_size c /\
  validate_every_n_steps c' = validate_every_n_steps c /\
  early_stopping_rounds c' = early_stopping_rounds c /\
  loss c' = loss c /\ optimizer c' = optimizer c /\
  Classifier.num_labels (model c') = Classifier.num_labels (model c) /\
  dropout (model c') = dropout (model c) /\
  additional_features (model c') = additional_features (model c) /\
  pooling_type (model c') = pooling_type (model c) /\
  forall name, is_Some (embedders (model c') !! name) <->
               is_Some (embedders (model c) !! name).

Lemma same_configuration_refl (c : BertController) : same_configuration c c.
Proof. unfold same_configuration. repeat (split; [done|]). done. Qed.

Lemma same_configuration_trans (c1 c2 c3 : BertController) :
  same_configuration c1 c2 -> same_configuration c2 c3 -> same_configuration c1 c3.
Proof.
  intros (A1 & A2 & A3 & A4 & A5 & A6 & A7 & A8 & A9 & A10 & A11)
         (B1 & B2 & B3 & B4 & B5 & B6 & B7 & B8 & B9 & B10 & B11).
  unfold same_configuration.
  repeat (split; [congruence|]). intros name. by rewrite B11, A11.
Qed.

Lemma optimizer_step_configuration (c : BertController) (batch : Batch) (bw : Backward) :
  same_configuration c (optimizer_step c batch bw) /\
  training (model (optimizer_step c batch bw)) = training (model c).
Proof.
  split; [|done]. unfold same_configuration, optimizer_step.
  cbn [num_labels batch_size validate_every_n_steps early_stopping_rounds loss optimizer
       model Classifier.num_labels dropout additional_features pooling_type embedders].
  repeat (split; [done|]). intros name. rewrite map_lookup_imap.
  destruct (embedders (model c) !! name); simpl; split; intros [? ?]; eauto; done.
Qed.

Lemma train_loop_configuration (c : BertController) (bs : list Batch) (k : nat)
    (oracle : nat -> Draws * Backward) (train_loss : R) :
  same_configuration c (fst (train_loop c bs k oracle train_loss)) /\
  training (model (fst (train_loop c bs k oracle train_loss))) = training (model c).
Proof.
  revert c k train_loss. induction bs as [|b bs IH]; intros c k train_loss; simpl.
  - split; [apply same_configuration_refl|done].
  - destruct (oracle k) as [draws bw].
    destruct (do logits <- _; _) as [curr_loss|e].
    + destruct (IH (optimizer_step c b bw) (S k) (train_loss + curr_loss)%R) as [H1 H2].
      destruct (optimizer_step_configuration c b bw) as [H3 H4].
      split; [by eapply same_configuration_trans|congruence].
    + split; [apply same_configuration_refl|done].
Qed.

(** X14. [train] and [validate] refuse a batch size that is not
    positive: a batch size of 0 raises a [ZeroDivisionError] where the
    number of batches is computed, a negative one the [ValueError] of
    the data loader.  No batch is processed; [train] has only switched
    the model to training mode. *)
Theorem train_validate_nonpositive_batch_size_raises (c : BertController)
    (dataset : Dataset) (oracle : nat -> Draws * Backward) (draws : nat -> Draws) :
  batch_size c <= 0 ->
  let e := if Z.eqb (batch_size c) 0 then ZeroDivisionError else ValueError in
  train c dataset oracle = (with_model c (set_mode true (model c)), Raise e) /\
  snd (validate c dataset draws) = Raise e.
Proof.
  intros Hb. unfold train, validate, floordiv. cbn [with_model batch_size snd].
  destruct (Z.eqb_spec (batch_size c) 0) as [H0|H0]; [done|].
  destruct (Z.leb_spec (batch_size c) 0); [done|lia].
Qed.

(** X15. On an empty dataset the number of batches is 0, and both
    [train] and [validate] raise a [ZeroDivisionError] when they average
    the loss over the batches. *)
Theorem train_validate_empty_dataset_raises (c : BertController)
    (dataset : Dataset) (oracle : nat -> Draws * Backward) (draws : nat -> Draws) :
  0 < batch_size c -> len dataset = 0%nat -> batches dataset = [] ->
  snd (train c dataset oracle) = Raise ZeroDivisionError /\
  snd (validate c dataset draws) = Raise ZeroDivisionError.
Proof.
  intros Hb Hl Hbs. unfold train, validate, floordiv. cbn [with_model batch_size snd].
  rewrite Hl, Hbs.
  destruct (Z.eqb_spec (batch_size c) 0) as [H0|_]; [lia|].
  destruct (Z.leb_spec (batch_size c) 0); [lia|].
  assert (Hz : (Z.of_nat 0 + batch_size c - 1) / batch_size c = 0).
  { apply Z.div_small. lia. }
  rewrite Hz. done.
Qed.

(** X16. [train] leaves the model in training mode, also when it is
    called after [validate] or ends with an exception, and writes
    neither the settings of the controller (batch size, validation
    interval, patience, loss, optimizer) nor the number of labels, the
    dropout probability, the configured features and the pooling type
    of the model; the embedders keep their names. *)
Theorem train_keeps_configuration (c : BertController) (train_dataset : Dataset)
    (oracle : nat -> Draws * Backward) :
  let c' := fst (train c train_dataset oracle) in
  training (model c') = true /\ same_configuration c c' /\
  forall dev_dataset draws,
    training (model (fst (train (fst (validate c dev_dataset draws)) train_dataset
                                oracle))) = true.
Proof.
  assert (H : forall c0, training (model (fst (train c0 train_dataset oracle))) = true /\
                         same_configuration c0 (fst (train c0 train_dataset oracle))).
  { intros c0. unfold train.
    set (c1 := with_model c0 (set_mode true (model c0))).
    assert (Hc1 : same_configuration c0 c1 /\ training (model c1) = true).
    { split; [|done]. unfold same_configuration. repeat (split; [done|]). done. }
    destruct Hc1 as [Hs Ht].
    destruct (floordiv _ _) as [total|e]; [|done].
    destruct (batch_size c1 <=? 0); [done|].
    destruct (train_loop_configuration c1 (batches train_dataset) 0 oracle 0%R)
      as [H1 H2].
    destruct (train_loop _ _ _ _ _) as [c2 r]. cbn [fst] in *.
    split; [congruence|]. by eapply same_configuration_trans. }
  intros c'. split; [apply H|]. split; [apply H|]. intros dev_dataset draws. apply H.
Qed.

(** *** Dropout during validation *)

Definition plain_controller : BertController :=
  MkController 2 1 5000 5 plain_model nn_CrossEntropyLoss (optim_AdamW (1 / 50000)) ∅.

(** One example with label 1. *)
Definition one_example : Dataset :=
  MkDataset 1 [MkBatch (T2 1 1 [[0]]) (T2 1 1 [[0]]) (T2 1 1 [[1]]) [1] ∅].

(** Two draws of the dropout mask: every entry kept, and only the first
    column kept. *)
Definition keep_all (k : nat) : Draws := MkDraws 0 (fun _ _ => true).
Definition keep_first (k : nat) : Draws := MkDraws 0 (fun _ e => Nat.eqb e 0).

Definition accuracy_of (r : BertController * result Metrics) : result Q :=
  do metrics <- snd r; Ok (metric_accuracy metrics).

Lemma forward_plain_model (draws : Draws) :
  forward plain_model (T2 1 1 [[0]]) (T2 1 1 [[0]]) (T2 1 1 [[1]]) ∅ draws =
  Ok (T2 1 2 [[(if keep draws 0%nat 0%nat then 2 else 0)%R;
               (if keep draws 0%nat 1%nat then 4 else 0)%R]]).
Proof.
  unfold forward. simpl. unfold F_dropout. simpl.
  destruct (Rlt_dec (1 / 2) 0) as [?|_]; [lra|].
  destruct (Rlt_dec 1 (1 / 2)) as [?|_]; [lra|].
  destruct (Req_dec_T (1 / 2) 1) as [?|_]; [lra|].
  simpl. unfold linear2. simpl. unfold linear_vec, dot. simpl.
  destruct (keep draws 0%nat 0%nat), (keep draws 0%nat 1%nat);
    do 2 f_equal; repeat (f_equal; try lra).
Qed.

Lemma validate_plain_controller (c : BertController) (draws : nat -> Draws) :
  model c = plain_model \/ model c = set_mode false plain_model ->
  loss c = nn_CrossEntropyLoss -> batch_size c = 1 ->
  accuracy_of (validate c one_example draws) =
  Ok ((if keep (draws 0%nat) 0%nat 1%nat then 1 else 0) # 1).
Proof.
  intros Hm Hl Hb. unfold accuracy_of, validate. cbn [snd fst].
  assert (Hfwd : forall draws0,
            forward (set_mode false (model c)) (T2 1 1 [[0]]) (T2 1 1 [[0]])
                    (T2 1 1 [[1]]) ∅ draws0 =
            forward plain_model (T2 1 1 [[0]]) (T2 1 1 [[0]]) (T2 1 1 [[1]]) ∅ draws0).
  { intros draws0. by destruct Hm as [-> | ->]. }
  unfold with_model. cbn [batch_size model loss]. rewrite Hb, Hl.
  cbn [floordiv one_example len batches Z.eqb Z.of_nat Z.add Z.sub Z.leb Z.compare
       Pos.of_succ_nat Pos.succ Z.pos_sub Z.div Z.div_eucl Z.pos_div_eucl
       Pos.add Pos.pred_double Z.opp Z.succ_double Z.double Z.ltb Pos.compare
       Pos.compare_cont Z.mul Pos.mul Z.leb Z.geb bind validate_loop fst snd
       input_ids token_type_ids attention_mask labels features].
  rewrite Hfwd, forward_plain_model. cbn [bind].
  set (x := (if keep (draws 0%nat) 0%nat 0%nat then 2 else 0)%R).
  set (y := (if keep (draws 0%nat) 0%nat 1%nat then 4 else 0)%R).
  unfold nn_CrossEntropyLoss, cross_entropy_row. simpl.
  subst x y.
  destruct (keep (draws 0%nat) 0%nat 0%nat), (keep (draws 0%nat) 0%nat 1%nat);
    destruct (Rlt_dec _ _); try done; lra.
Qed.

(** C4, on the code.  [validate] leaves the classifier, the pooler, the
    embedding tables and the state of the optimizer as they are, and
    leaves the model in evaluation mode.  But [forward] applies dropout
    in that mode too: on the same model and the same example, one draw
    of the dropout mask gives an accuracy of 1 and another draw gives 0,
    and the logits are not those of the classifier on the pooled
    output. *)
Theorem validate_applies_dropout_in_eval_mode :
  (forall c dev_dataset draws,
     let c' := fst (validate c dev_dataset draws) in
     classifier (model c') = classifier (model c) /\
     pooler (model c') = pooler (model c) /\
     embedders (model c') = embedders (model c) /\
     encode (bert_model (model c')) = encode (bert_model (model c)) /\
     optimizer_state c' = optimizer_state c /\
     training (model c') = false /\ bert_training (bert_model (model c')) = false) /\
  let first := validate plain_controller one_example keep_all in
  let second := validate (fst first) one_example keep_first in
  fst second = fst first /\
  accuracy_of first = Ok (1 # 1) /\
  accuracy_of second = Ok (0 # 1) /\
  forward (model (fst first)) (T2 1 1 [[0]]) (T2 1 1 [[0]]) (T2 1 1 [[1]]) ∅
          (keep_first 0) = Ok (T2 1 2 [[2%R; 0%R]]) /\
  linear2 identity_classifier (T2 1 2 [[1%R; 2%R]]) <>
  Ok (T2 1 2 [[2%R; 0%R]]).
Proof.
  split; [done|]. cbv zeta. split; [done|]. split; [|split; [|split]].
  - by rewrite (validate_plain_controller plain_controller keep_all) by auto.
  - by rewrite (validate_plain_controller _ keep_first) by auto.
  - exact (forward_plain_model (keep_first 0)).
  - unfold linear2. simpl. unfold linear_vec, dot. simpl. intros [= H1 H2]. lra.
Qed.


Definition pos_oracle (k : nat) : Draws * Backward :=
  (MkDraws 0 (fun _ _ => true),
   MkBackward (fun _ => [[[1%R; 1%R]; [1%R; 1%R]]]) identity_classifier
              (Some MaskedMeanPooler) two_unit_encoder).


(** The plain controller with its batch size set to 0. *)
Lemma train_validate_nonpositive_batch_size_raises_witness :
  let c := MkController 2 0 5000 5 plain_model nn_CrossEntropyLoss
                        (optim_AdamW (1 / 50000)) ∅ in
  batch_size c <= 0 /\
  snd (train c one_example pos_oracle) = Raise ZeroDivisionError /\
  snd (validate c one_example keep_all) = Raise ZeroDivisionError.
Proof.
  intros c. assert (Hb : batch_size c <= 0) by (simpl; lia).
  split; [exact Hb|].
  destruct (train_validate_nonpositive_batch_size_raises c one_example pos_oracle
              keep_all Hb) as [Ht Hv].
  split; [by rewrite Ht|exact Hv].
Defined.

(** The plain controller on a dataset without examples. *)
Lemma train_validate_empty_dataset_raises_witness :
  0 < batch_size plain_controller /\
  snd (train plain_controller (MkDataset 0 []) pos_oracle) = Raise ZeroDivisionError /\
  snd (validate plain_controller (MkDataset 0 []) keep_all) = Raise ZeroDivisionError.
Proof.
  assert (Hb : 0 < batch_size plain_controller) by (simpl; lia).
  split; [exact Hb|].
  exact (train_validate_empty_dataset_raises plain_controller (MkDataset 0 [])
           pos_oracle keep_all Hb eq_refl eq_refl).
Defined.

End Controller.

(** ** [BertController.fit] *)

Module Fit.

(** What a run of [fit] does, in order; each event is one of the
    controller's log lines. *)
Inductive event : Type :=
| EvTrain (curr_subset : list nat)      (* "Training loss: ..." *)
| EvSkip (subset_len : nat)             (* "Skipping validation ..." *)
| EvValidate (accuracy : Q)             (* "Validation accuracy: ..." *)
| EvNewBest                             (* "New best, saving checkpoint TODO" *)
| EvStop (rounds : Z).                  (* "Stopping early after ..." *)

Section WithPasses.
(** The model owned by the controller, the dataset type and the type of
    losses.  [train] and [validate] are the two passes [fit] calls on
    [self], taken as given: each returns the updated model next to its
    result, or raises, and an exception of a pass leaves [fit]. *)
Context {Model Dataset Loss : Type}.
Variable train : Model -> list nat -> result (Model * Loss).
Variable validate : Model -> Dataset -> result (Model * (Loss * Q)).

(** [self.validate_every_n_steps], [self.early_stopping_rounds] *)
Variable validate_every_n_steps : Z.
Variable early_stopping_rounds : Z.

(** The local variables of [fit], the model they act on, and the log. *)
Record state : Type := State {
  model : Model;
  best_dev_acc : Q;
  rounds_no_increase : Z;
  stop_early : bool;
  events : list event
}.

Definition log (ev : event) (st : state) : state :=
  State (model st) (best_dev_acc st) (rounds_no_increase st) (stop_early st)
        (events st ++ [ev]).

Definition set_model (m : Model) (st : state) : state :=
  State m (best_dev_acc st) (rounds_no_increase st) (stop_early st) (events st).

(** [dev_dataset is None or len(curr_subset) < self.validate_every_n_steps // 2] *)
Definition validation_skipped (dev_dataset : option Dataset) (curr_subset : list nat) : bool :=
  match dev_dataset with
  | None => true
  | Some _ => Z.of_nat (length curr_subset) <? validate_every_n_steps / 2
  end.

(** Lines 251-257: the bookkeeping after a validation. *)
Definition after_validation (accuracy : Q) (st : state) : state :=
  if Qltb (best_dev_acc st) accuracy
  then log EvNewBest (State (model st) accuracy 0 (stop_early st) (events st))
  else State (model st) (best_dev_acc st) (rounds_no_increase st + 1)
             (stop_early st) (events st).

(** Lines 259-263: the early-stopping check. *)
Definition stop_check (st : state) : state :=
  if rounds_no_increase st =? early_stopping_rounds
  then log (EvStop (rounds_no_increase st))
           (State (model st) (best_dev_acc st) (rounds_no_increase st) true (events st))
  else st.

(** Lines 241-263: what is done with [curr_subset], up to the [break].
    An exception of [self.train] or [self.validate] ends the run. *)
Definition process_subset (dev_dataset : option Dataset) (curr_subset : list nat)
    (st : state) : result state :=
  do (m1, train_loss) <- train (model st) curr_subset;
  let st1 := log (EvTrain curr_subset) (set_model m1 st) in
  match dev_dataset with
  | None => Ok (log (EvSkip (length curr_subset)) st1)
  | Some dev =>
      if Z.of_nat (length curr_subset) <? validate_every_n_steps / 2
      then Ok (log (EvSkip (length curr_subset)) st1)
      else
        do (m2, (dev_loss, accuracy)) <- validate m1 dev;
        Ok (stop_check (after_validation accuracy
                          (log (EvValidate accuracy) (set_model m2 st1))))
  end.

(** Lines 238-263: the body of the miniset loop. *)
Definition miniset_body (shuffled_indices : list nat) (dev_dataset : option Dataset)
    (idx_miniset : Z) (st : state) : result state :=
  let curr_subset :=
    slice shuffled_indices (idx_miniset * validate_every_n_steps)
                           ((idx_miniset + 1) * validate_every_n_steps) in
  process_subset dev_dataset curr_subset st.

(** [for idx_miniset in range(num_minisets): ...; break] *)
Fixpoint miniset_loop (shuffled_indices : list nat) (dev_dataset : option Dataset)
    (idxs : list Z) (st : state) : result state :=
  match idxs with
  | [] => Ok st
  | idx_miniset :: rest =>
      do st' <- miniset_body shuffled_indices dev_dataset idx_miniset st;
      if stop_early st' then Ok st'
      else miniset_loop shuffled_indices dev_dataset rest st'
  end.

(** [for idx_epoch in range(num_epochs): ...; if stop_early: break].
    [randperm idx_epoch] is the permutation that
    [torch.randperm(len(train_dataset))] draws in that epoch. *)
Fixpoint epoch_loop (len_train : nat) (randperm : Z -> list nat)
    (dev_dataset : option Dataset) (epochs : list Z) (st : state) : result state :=
  match epochs with
  | [] => Ok st
  | idx_epoch :: rest =>
      let shuffled_indices := randperm idx_epoch in
      do num_minisets <-
        floordiv (Z.of_nat len_train + validate_every_n_steps - 1) validate_every_n_steps;
      do st' <- miniset_loop shuffled_indices dev_dataset (range num_minisets) st;
      if stop_early st' then Ok st'
      else epoch_loop len_train randperm dev_dataset rest st'
  end.

Definition initial (m : Model) : state := State m 0 0 false [].

Definition fit (m : Model) (len_train : nat) (randperm : Z -> list nat)
    (num_epochs : Z) (dev_dataset : option Dataset) : result state :=
  epoch_loop len_train randperm dev_dataset (range num_epochs) (initial m).

(** *** Observations on a run *)

Definition trained_subsets (evs : list event) : list (list nat) :=
  omap (fun ev => match ev with EvTrain s => Some s | _ => None end) evs.

Definition validation_accs (evs : list event) : list Q :=
  omap (fun ev => match ev with EvValidate a => Some a | _ => None end) evs.

(** The minisets of one epoch. *)
Definition miniset (shuffled_indices : list nat) (idx_miniset : Z) : list nat :=
  slice shuffled_indices (idx_miniset * validate_every_n_steps)
                         ((idx_miniset + 1) * validate_every_n_steps).

Definition minisets (shuffled_indices : list nat) (num_minisets : Z) : list (list nat) :=
  map (miniset shuffled_indices) (range num_minisets).

(** [num_minisets], when the division is defined. *)
Definition num_minisets (len_train : nat) : Z :=
  (Z.of_nat len_train + validate_every_n_steps - 1) / validate_every_n_steps.

(** All minisets of a run that is not stopped early, in order. *)
Definition schedule (len_train : nat) (randperm : Z -> list nat) (num_epochs : Z)
    : list (list nat) :=
  concat (map (fun idx_epoch => minisets (randperm idx_epoch) (num_minisets len_train))
              (range num_epochs)).

(** The loops, flattened: process the subsets in turn until the flag is
    set or a pass raises. *)
Fixpoint run (dev_dataset : option Dataset) (subsets : list (list nat)) (st : state)
    : result state :=
  match subsets with
  | [] => Ok st
  | curr_subset :: rest =>
      do st' <- process_subset dev_dataset curr_subset st;
      if stop_early st' then Ok st' else run dev_dataset rest st'
  end.

(** The number of validations a run over [subsets] has ahead of it when
    nothing stops it. *)
Definition scheduled_validations (dev_dataset : option Dataset)
    (subsets : list (list nat)) : nat :=
  length (List.filter (fun s => negb (validation_skipped dev_dataset s)) subsets).

(** The passes return: [train] on the subsets of a run, [validate] on
    the validation set. *)
Definition train_returns (subsets : list (list nat)) : Prop :=
  forall m curr_subset, curr_subset ∈ subsets -> is_ok (train m curr_subset) = true.

Definition validate_returns (dev_dataset : option Dataset) : Prop :=
  forall m dev, dev_dataset = Some dev -> is_ok (validate m dev) = true.

(** The best accuracy bounds every accuracy seen so far, is not below 0,
    and is 0 or one of the accuracies seen. *)
Definition best_is_max (st : state) : Prop :=
  (0 <= best_dev_acc st)%Q /\
  Forall (fun a => (a <= best_dev_acc st)%Q) (validation_accs (events st)) /\
  (best_dev_acc st = 0%Q \/ best_dev_acc st ∈ validation_accs (events st)).

(** *** The minisets of an epoch *)

Lemma minisets_windows (shuffled_indices : list nat) (k : Z) :
  0 < validate_every_n_steps ->
  minisets shuffled_indices k =
  map (fun i => take (Z.to_nat validate_every_n_steps)
                     (drop (i * Z.to_nat validate_every_n_steps) shuffled_indices))
      (seq 0 (Z.to_nat k)).
Proof.
  intros Hv. unfold minisets, range, seqZ. rewrite <- list_fmap_compose.
  apply map_ext_in. intros i _. unfold compose, miniset.
  rewrite slice_window by nia. f_equal; [f_equal; lia|f_equal; nia].
Qed.

Lemma num_minisets_bounds (len_train : nat) :
  0 < validate_every_n_steps ->
  Z.of_nat len_train <= num_minisets len_train * validate_every_n_steps
    < Z.of_nat len_train + validate_every_n_steps.
Proof.
  intros Hv. unfold num_minisets.
  pose proof (Z.mul_div_le (Z.of_nat len_train + validate_every_n_steps - 1) _ Hv).
  pose proof (Z.mul_succ_div_gt (Z.of_nat len_train + validate_every_n_steps - 1) _ Hv).
  lia.
Qed.

Lemma concat_minisets (len_train : nat) (shuffled_indices : list nat) :
  0 < validate_every_n_steps ->
  length shuffled_indices = len_train ->
  concat (minisets shuffled_indices (num_minisets len_train)) = shuffled_indices.
Proof.
  intros Hv Hlen. rewrite minisets_windows by done.
  rewrite concat_windows. apply take_ge.
  pose proof (num_minisets_bounds len_train Hv). nia.
Qed.

Lemma lookup_minisets (shuffled_indices : list nat) (k : Z) (i : nat) (s : list nat) :
  minisets shuffled_indices k !! i = Some s ->
  Z.of_nat i < k /\ s = miniset shuffled_indices (Z.of_nat i).
Proof.
  unfold minisets, range. rewrite list_lookup_fmap.
  destruct (seqZ 0 k !! i) as [j|] eqn:Hj; [|done].
  apply lookup_seqZ in Hj as [-> ?]. simpl. intros [= <-].
  split; [lia|]. by rewrite Z.add_0_l.
Qed.

Lemma length_miniset (len_train : nat) (shuffled_indices : list nat) (i : Z) :
  0 < validate_every_n_steps -> 0 <= i ->
  length shuffled_indices = len_train ->
  Z.of_nat (length (miniset shuffled_indices i)) =
  Z.max 0 (Z.min validate_every_n_steps (Z.of_nat len_train - i * validate_every_n_steps)).
Proof.
  intros Hv Hi Hlen. unfold miniset. rewrite length_slice_window by nia. nia.
Qed.

Lemma length_slice_le {A} (l : list A) (lo hi : Z) :
  (length (slice l lo hi) <= length l)%nat.
Proof. unfold slice. rewrite length_take, length_drop. lia. Qed.

(** *** One subset *)

Lemma validation_skipped_spec (dev_dataset : option Dataset) (curr_subset : list nat) :
  validation_skipped dev_dataset curr_subset = true <->
  dev_dataset = None \/ Z.of_nat (length curr_subset) < validate_every_n_steps / 2.
Proof.
  unfold validation_skipped. destruct dev_dataset as [d|].
  - rewrite Z.ltb_lt. split; [by right|]. by intros [?|?].
  - split; [by left|done].
Qed.

(** A skipped validation: the subset is trained on, nothing else moves. *)
Lemma process_subset_skipped (dev_dataset : option Dataset) (curr_subset : list nat)
    (st : state) (m1 : Model) (train_loss : Loss) :
  validation_skipped dev_dataset curr_subset = true ->
  train (model st) curr_subset = Ok (m1, train_loss) ->
  process_subset dev_dataset curr_subset st =
  Ok (State m1 (best_dev_acc st) (rounds_no_increase st) (stop_early st)
        (events st ++ [EvTrain curr_subset; EvSkip (length curr_subset)])).
Proof.
  unfold validation_skipped, process_subset, log, set_model. intros Hs ->. simpl.
  destruct dev_dataset as [d|]; [rewrite Hs|]; simpl; by rewrite <- app_assoc.
Qed.

Lemma process_subset_validated (dev : Dataset) (curr_subset : list nat) (st : state)
    (m1 m2 : Model) (train_loss dev_loss : Loss) (accuracy : Q) :
  validation_skipped (Some dev) curr_subset = false ->
  train (model st) curr_subset = Ok (m1, train_loss) ->
  validate m1 dev = Ok (m2, (dev_loss, accuracy)) ->
  process_subset (Some dev) curr_subset st =
  Ok (stop_check (after_validation accuracy
        (State m2 (best_dev_acc st) (rounds_no_increase st) (stop_early st)
               (events st ++ [EvTrain curr_subset; EvValidate accuracy])))).
Proof.
  unfold validation_skipped, process_subset, log, set_model. intros Hs -> Hv. simpl.
  rewrite Hs, Hv. simpl. by rewrite <- app_assoc.
Qed.

(** An exception of a pass is the exception of the step. *)
Lemma process_subset_raises (dev_dataset : option Dataset) (curr_subset : list nat)
    (st : state) (e : exn) :
  train (model st) curr_subset = Raise e \/
  (exists m1 train_loss dev,
     train (model st) curr_subset = Ok (m1, train_loss) /\
     dev_dataset = Some dev /\ validation_skipped dev_dataset curr_subset = false /\
     validate m1 dev = Raise e) ->
  process_subset dev_dataset curr_subset st = Raise e.
Proof.
  unfold process_subset, validation_skipped.
  intros [->|(m1 & l & dev & -> & -> & Hs & Hv)]; [done|]. simpl.
  by rewrite Hs, Hv.
Qed.

(** What a step that returns has done. *)
Lemma process_subset_inv (dev_dataset : option Dataset) (curr_subset : list nat)
    (st st' : state) :
  process_subset dev_dataset curr_subset st = Ok st' ->
  exists m1 train_loss,
    train (model st) curr_subset = Ok (m1, train_loss) /\
    ((validation_skipped dev_dataset curr_subset = true /\
      st' = State m1 (best_dev_acc st) (rounds_no_increase st) (stop_early st)
              (events st ++ [EvTrain curr_subset; EvSkip (length curr_subset)])) \/
     (exists dev m2 dev_loss accuracy,
        dev_dataset = Some dev /\ validation_skipped dev_dataset curr_subset = false /\
        validate m1 dev = Ok (m2, (dev_loss, accuracy)) /\
        st' = stop_check (after_validation accuracy
                (State m2 (best_dev_acc st) (rounds_no_increase st) (stop_early st)
                       (events st ++ [EvTrain curr_subset; EvValidate accuracy]))))).
Proof.
  intros H.
  destruct (train (model st) curr_subset) as [[m1 l]|e] eqn:Ht;
    [|by rewrite (process_subset_raises _ _ _ e) in H by by left].
  exists m1, l. split; [done|].
  destruct (validation_skipped dev_dataset curr_subset) eqn:Hs.
  - left. split; [done|].
    rewrite (process_subset_skipped _ _ _ m1 l Hs Ht) in H. by injection H.
  - right. destruct dev_dataset as [dev|]; [|done].
    destruct (validate m1 dev) as [[m2 [dl acc]]|e] eqn:Hv.
    + exists dev, m2, dl, acc. split; [done|]. split; [done|]. split; [done|].
      rewrite (process_subset_validated _ _ _ m1 m2 l dl acc Hs Ht Hv) in H.
      by injection H.
    + rewrite (process_subset_raises _ _ _ e) in H; [done|].
      right. by exists m1, l, dev.
Qed.

Lemma stop_check_fields (st : state) :
  best_dev_acc (stop_check st) = best_dev_acc st /\
  rounds_no_increase (stop_check st) = rounds_no_increase st /\
  stop_early (stop_check st) =
    (stop_early st || (rounds_no_increase st =? early_stopping_rounds)) /\
  model (stop_check st) = model st /\
  trained_subsets (events (stop_check st)) = trained_subsets (events st) /\
  validation_accs (events (stop_check st)) = validation_accs (events st).
Proof.
  unfold stop_check, log, trained_subsets, validation_accs.
  destruct (rounds_no_increase st =? early_stopping_rounds);
    cbn [best_dev_acc rounds_no_increase stop_early model events];
    rewrite ?omap_app; simpl; by rewrite ?app_nil_r, ?orb_true_r, ?orb_false_r.
Qed.

(** The counter, the best accuracy and the flag after a validation that
    returned [accuracy]. *)
Lemma stop_check_after_validation (accuracy : Q) (st : state) :
  let st' := stop_check (after_validation accuracy st) in
  best_dev_acc st' = (if Qltb (best_dev_acc st) accuracy then accuracy else best_dev_acc st) /\
  rounds_no_increase st' =
    (if Qltb (best_dev_acc st) accuracy then 0 else rounds_no_increase st + 1) /\
  stop_early st' = (stop_early st || (rounds_no_increase st' =? early_stopping_rounds)) /\
  model st' = model st /\
  trained_subsets (events st') = trained_subsets (events st) /\
  validation_accs (events st') = validation_accs (events st).
Proof.
  intros st'. subst st'.
  destruct (stop_check_fields (after_validation accuracy st))
    as (-> & -> & -> & -> & -> & ->).
  unfold after_validation, log, trained_subsets, validation_accs.
  destruct (Qltb (best_dev_acc st) accuracy); cbn [best_dev_acc rounds_no_increase
    stop_early model events]; rewrite ?omap_app; simpl; by rewrite ?app_nil_r.
Qed.

Lemma stop_check_stops (st : state) :
  stop_early st = false -> stop_early (stop_check st) = true ->
  rounds_no_increase (stop_check st) = early_stopping_rounds /\
  list.last (events (stop_check st)) = Some (EvStop early_stopping_rounds).
Proof.
  unfold stop_check, log. intros Hs.
  destruct (Z.eqb_spec (rounds_no_increase st) early_stopping_rounds) as [He|He].
  - cbn [stop_early rounds_no_increase events]. intros _. split; [done|].
    by rewrite last_snoc, He.
  - by rewrite Hs.
Qed.

(** The observations after a step that returns: the subset is trained
    on; then either the validation is skipped and nothing else moves, or
    one accuracy is recorded and the counters follow it. *)
Lemma process_subset_fields (dev_dataset : option Dataset) (curr_subset : list nat)
    (st st' : state) :
  process_subset dev_dataset curr_subset st = Ok st' ->
  trained_subsets (events st') = trained_subsets (events st) ++ [curr_subset] /\
  ((validation_skipped dev_dataset curr_subset = true /\
    validation_accs (events st') = validation_accs (events st) /\
    best_dev_acc st' = best_dev_acc st /\
    rounds_no_increase st' = rounds_no_increase st /\
    stop_early st' = stop_early st) \/
   (validation_skipped dev_dataset curr_subset = false /\
    exists accuracy,
      validation_accs (events st') = validation_accs (events st) ++ [accuracy] /\
      best_dev_acc st' =
        (if Qltb (best_dev_acc st) accuracy then accuracy else best_dev_acc st) /\
      rounds_no_increase st' =
        (if Qltb (best_dev_acc st) accuracy then 0 else rounds_no_increase st + 1) /\
      stop_early st' =
        (stop_early st || (rounds_no_increase st' =? early_stopping_rounds)) /\
      (stop_early st = false -> stop_early st' = true ->
       list.last (events st') = Some (EvStop early_stopping_rounds)))).
Proof.
  intros H.
  destruct (process_subset_inv _ _ _ _ H)
    as (m1 & l & Ht & [[Hs ->]|(dev & m2 & dl & acc & -> & Hs & Hv & ->)]).
  - cbn [events best_dev_acc rounds_no_increase stop_early].
    unfold trained_subsets, validation_accs. rewrite !omap_app. simpl.
    split; [done|]. left. by rewrite app_nil_r.
  - set (st0 := State m2 (best_dev_acc st) (rounds_no_increase st) (stop_early st)
                      (events st ++ [EvTrain curr_subset; EvValidate acc])).
    destruct (stop_check_after_validation acc st0) as (Hb & Hr & Hst & _ & Htr & Hac).
    cbv zeta in Hb, Hr, Hst, Htr, Hac.
    assert (Htr0 : trained_subsets (events st0) =
                   trained_subsets (events st) ++ [curr_subset]).
    { unfold trained_subsets, st0. cbn [events]. by rewrite omap_app. }
    assert (Hac0 : validation_accs (events st0) =
                   validation_accs (events st) ++ [acc]).
    { unfold validation_accs, st0. cbn [events]. by rewrite omap_app. }
    split; [by rewrite Htr|]. right. split; [done|]. exists acc.
    split; [by rewrite Hac|]. split; [exact Hb|]. split; [exact Hr|].
    split; [exact Hst|]. intros Hs0 Hs1.
    apply stop_check_stops; [|done].
    unfold after_validation, log, st0. by destruct (Qltb _ _).
Qed.

(** A step returns when its passes do. *)
Lemma process_subset_returns (dev_dataset : option Dataset) (curr_subset : list nat)
    (st : state) :
  is_ok (train (model st) curr_subset) = true ->
  (forall m dev, dev_dataset = Some dev ->
     validation_skipped dev_dataset curr_subset = false ->
     is_ok (validate m dev) = true) ->
  exists st', process_subset dev_dataset curr_subset st = Ok st'.
Proof.
  intros Ht Hv. destruct (train (model st) curr_subset) as [[m1 l]|] eqn:Etrain; [|done].
  destruct (validation_skipped dev_dataset curr_subset) eqn:Hs.
  - rewrite (process_subset_skipped _ _ _ m1 l Hs Etrain). eauto.
  - destruct dev_dataset as [dev|]; [|done]. specialize (Hv m1 dev eq_refl eq_refl).
    destruct (validate m1 dev) as [[m2 [dl acc]]|] eqn:Eval; [|done].
    rewrite (process_subset_validated _ _ _ m1 m2 l dl acc Hs Etrain Eval). eauto.
Qed.

(** *** The loops *)

Lemma miniset_loop_run (shuffled_indices : list nat) (dev_dataset : option Dataset)
    (idxs : list Z) (st : state) :
  miniset_loop shuffled_indices dev_dataset idxs st =
  run dev_dataset (map (miniset shuffled_indices) idxs) st.
Proof.
  revert st. induction idxs as [|i idxs IH]; intros st; simpl; [done|].
  unfold miniset_body. fold (miniset shuffled_indices i).
  destruct (process_subset dev_dataset (miniset shuffled_indices i) st) as [st'|];
    simpl; [|done].
  destruct (stop_early st'); [done|apply IH].
Qed.

Lemma run_app (dev_dataset : option Dataset) (a b : list (list nat)) (st : state) :
  stop_early st = false ->
  run dev_dataset (a ++ b) st =
  do st' <- run dev_dataset a st;
  if stop_early st' then Ok st' else run dev_dataset b st'.
Proof.
  revert st. induction a as [|s a IH]; intros st Hst; simpl.
  - by rewrite Hst.
  - destruct (process_subset dev_dataset s st) as [st1|]; simpl; [|done].
    destruct (stop_early st1) eqn:E; simpl.
    + by rewrite E.
    + by apply IH.
Qed.

Lemma epoch_loop_run (len_train : nat) (randperm : Z -> list nat)
    (dev_dataset : option Dataset) (epochs : list Z) (st : state) :
  validate_every_n_steps <> 0 -> stop_early st = false ->
  epoch_loop len_train randperm dev_dataset epochs st =
  run dev_dataset
      (concat (map (fun idx_epoch => minisets (randperm idx_epoch) (num_minisets len_train))
                   epochs)) st.
Proof.
  intros Hv. revert st. induction epochs as [|e epochs IH]; intros st Hst; simpl; [done|].
  unfold floordiv. destruct (Z.eqb_spec validate_every_n_steps 0) as [?|_]; [done|]. simpl.
  rewrite miniset_loop_run, run_app by done. fold (num_minisets len_train).
  unfold minisets at 2.
  destruct (run dev_dataset _ st) as [st'|]; simpl; [|done].
  destruct (stop_early st') eqn:E; [done|]. by apply IH.
Qed.

Lemma fit_run (m : Model) (len_train : nat) (randperm : Z -> list nat)
    (num_epochs : Z) (dev_dataset : option Dataset) :
  validate_every_n_steps <> 0 ->
  fit m len_train randperm num_epochs dev_dataset =
  run dev_dataset (schedule len_train randperm num_epochs) (initial m).
Proof. intros Hv. unfold fit. by apply epoch_loop_run. Qed.

(** With an interval of 0 the division of line 235 raises. *)
Lemma fit_zero_interval (m : Model) (len_train : nat) (randperm : Z -> list nat)
    (num_epochs : Z) (dev_dataset : option Dataset) :
  validate_every_n_steps = 0 -> 0 < num_epochs ->
  fit m len_train randperm num_epochs dev_dataset = Raise ZeroDivisionError.
Proof.
  intros Hv Hn. unfold fit, range. rewrite seqZ_cons by done. simpl.
  unfold floordiv. by rewrite Hv.
Qed.

(** A run of [fit] that returns is the flattened run over its schedule. *)
Lemma fit_Ok_run (m : Model) (len_train : nat) (randperm : Z -> list nat)
    (num_epochs : Z) (dev_dataset : option Dataset) (st : state) :
  fit m len_train randperm num_epochs dev_dataset = Ok st ->
  run dev_dataset (schedule len_train randperm num_epochs) (initial m) = Ok st.
Proof.
  destruct (Z.eq_dec validate_every_n_steps 0) as [Hv|Hv].
  - destruct (Z_lt_le_dec 0 num_epochs) as [Hn|Hn].
    + by rewrite fit_zero_interval.
    + unfold fit, schedule, range. by rewrite seqZ_nil by done.
  - by rewrite fit_run by done.
Qed.

Lemma scheduled_validations_cons (dev_dataset : option Dataset) (s : list nat)
    (subsets : list (list nat)) :
  scheduled_validations dev_dataset (s :: subsets) =
  ((if validation_skipped dev_dataset s then 0 else 1) +
   scheduled_validations dev_dataset subsets)%nat.
Proof.
  unfold scheduled_validations. simpl.
  by destruct (validation_skipped dev_dataset s).
Qed.

Lemma scheduled_validations_app (dev_dataset : option Dataset)
    (a b : list (list nat)) :
  scheduled_validations dev_dataset (a ++ b) =
  (scheduled_validations dev_dataset a + scheduled_validations dev_dataset b)%nat.
Proof. unfold scheduled_validations. by rewrite filter_app, length_app. Qed.

(** The first step of a run that returns. *)
Lemma run_cons_inv (dev_dataset : option Dataset) (s : list nat)
    (subsets : list (list nat)) (st st' : state) :
  run dev_dataset (s :: subsets) st = Ok st' ->
  exists st1, process_subset dev_dataset s st = Ok st1 /\
    ((stop_early st1 = true /\ st' = st1) \/
     (stop_early st1 = false /\ run dev_dataset subsets st1 = Ok st')).
Proof.
  simpl. destruct (process_subset dev_dataset s st) as [st1|]; simpl; [|done].
  intros H. exists st1. split; [done|].
  destruct (stop_early st1); [left; by injection H|by right].
Qed.

(** A run returns when its passes do. *)
Lemma run_returns (dev_dataset : option Dataset) (subsets : list (list nat))
    (st : state) :
  train_returns subsets ->
  (forall m dev s, s ∈ subsets -> dev_dataset = Some dev ->
     validation_skipped dev_dataset s = false -> is_ok (validate m dev) = true) ->
  exists st', run dev_dataset subsets st = Ok st'.
Proof.
  revert st. induction subsets as [|s subsets IH]; intros st Ht Hv; simpl; [eauto|].
  destruct (process_subset_returns dev_dataset s st) as [st1 ->].
  - apply Ht. by left.
  - intros m dev Hd Hs. apply (Hv m dev s); [by left|done|done].
  - simpl. destruct (stop_early st1); [eauto|]. apply IH.
    + intros m s' Hs'. apply Ht. by right.
    + intros m dev s' Hs'. apply Hv. by right.
Qed.

(** What a run that returns has done: it has trained on a prefix [seen]
    of its subsets, in order, and validated after every subset of the
    prefix that is not skipped; it has gone through all subsets unless
    the flag is set, and the flag is set only by the validation after
    the last subset it trained on. *)
Lemma run_spec (dev_dataset : option Dataset) (subsets : list (list nat))
    (st st' : state) :
  stop_early st = false -> 0 <= rounds_no_increase st ->
  run dev_dataset subsets st = Ok st' ->
  exists seen rest,
    subsets = seen ++ rest /\
    trained_subsets (events st') = trained_subsets (events st) ++ seen /\
    length (validation_accs (events st')) =
      (length (validation_accs (events st)) + scheduled_validations dev_dataset seen)%nat /\
    0 <= rounds_no_increase st' /\
    (stop_early st' = false -> rest = []) /\
    (stop_early st' = true ->
     (exists seen0 s, seen = seen0 ++ [s] /\ validation_skipped dev_dataset s = false) /\
     rounds_no_increase st' = early_stopping_rounds /\
     list.last (events st') = Some (EvStop early_stopping_rounds)).
Proof.
  revert st. induction subsets as [|s subsets IH]; intros st Hs Hr Hrun.
  - simpl in Hrun. injection Hrun as <-. exists [], []. rewrite !app_nil_r, Hs.
    unfold scheduled_validations. simpl. split; [done|]. split; [done|].
    split; [lia|]. split; [done|]. split; done.
  - destruct (run_cons_inv _ _ _ _ _ Hrun) as (st1 & Hstep & Hnext).
    destruct (process_subset_fields _ _ _ _ Hstep) as (Htr & Hcase).
    assert (Hr1 : 0 <= rounds_no_increase st1).
    { destruct Hcase as [(_ & _ & _ & -> & _)|(_ & acc & _ & _ & -> & _)]; [done|].
      destruct (Qltb _ _); lia. }
    assert (Hlen : length (validation_accs (events st1)) =
                   (length (validation_accs (events st)) +
                    (if validation_skipped dev_dataset s then 0 else 1))%nat).
    { destruct Hcase as [(-> & -> & _)|(-> & acc & -> & _)]; [lia|].
      rewrite length_app. simpl. lia. }
    destruct Hnext as [[Hstop ->]|[Hstop Hrest]].
    + exists [s], subsets. split; [done|]. split; [done|].
      rewrite scheduled_validations_cons. unfold scheduled_validations at 1. simpl.
      split; [lia|]. split; [done|]. split; [congruence|]. intros _.
      destruct Hcase as [(_ & _ & _ & _ & Hsame)|(Hsk & acc & _ & _ & _ & Hflag & Hlast)];
        [congruence|].
      split; [by exists [], s|]. split; [|by apply Hlast].
      rewrite Hs, Hstop in Hflag. simpl in Hflag. symmetry in Hflag.
      by apply Z.eqb_eq in Hflag.
    + destruct (IH st1 Hstop Hr1 Hrest) as (seen & rest & -> & Htr' & Hlen' & Hr' & Hf & Ht).
      exists (s :: seen), rest. split; [done|].
      split; [by rewrite Htr', Htr, <- app_assoc|].
      rewrite scheduled_validations_cons. split; [lia|]. split; [done|].
      split; [done|]. intros Hst'. destruct (Ht Hst') as ((seen0 & s0 & -> & Hsk) & ? & ?).
      split; [by exists (s :: seen0), s0|]. done.
Qed.

Lemma run_accs_extends (dev_dataset : option Dataset) (subsets : list (list nat))
    (st st' : state) :
  run dev_dataset subsets st = Ok st' ->
  exists more,
    validation_accs (events st') = validation_accs (events st) ++ more.
Proof.
  revert st. induction subsets as [|s subsets IH]; intros st Hrun.
  - simpl in Hrun. injection Hrun as <-. exists []. by rewrite app_nil_r.
  - destruct (run_cons_inv _ _ _ _ _ Hrun) as (st1 & Hstep & Hnext).
    destruct (process_subset_fields _ _ _ _ Hstep) as (_ & Hcase).
    assert (Hone : exists one, validation_accs (events st1) =
                               validation_accs (events st) ++ one).
    { destruct Hcase as [(_ & -> & _)|(_ & acc & -> & _)]; [|eauto].
      exists []. by rewrite app_nil_r. }
    destruct Hone as [one Hone].
    destruct Hnext as [[_ ->]|[_ Hrest]]; [eauto|].
    destruct (IH st1 Hrest) as [more ->]. rewrite Hone, <- app_assoc. eauto.
Qed.

(** When every validation is skipped, nothing is validated and nothing
    stops the run. *)
Lemma run_all_skipped (dev_dataset : option Dataset) (subsets : list (list nat))
    (st st' : state) :
  Forall (fun s => validation_skipped dev_dataset s = true) subsets ->
  stop_early st = false ->
  run dev_dataset subsets st = Ok st' ->
  validation_accs (events st') = validation_accs (events st) /\
  trained_subsets (events st') = trained_subsets (events st) ++ subsets /\
  stop_early st' = false /\
  best_dev_acc st' = best_dev_acc st /\
  rounds_no_increase st' = rounds_no_increase st.
Proof.
  revert st. induction subsets as [|s subsets IH]; intros st Hall Hst Hrun.
  - simpl in Hrun. injection Hrun as <-. by rewrite app_nil_r.
  - apply Forall_cons_1 in Hall as [Hsk Hall].
    destruct (run_cons_inv _ _ _ _ _ Hrun) as (st1 & Hstep & Hnext).
    destruct (process_subset_fields _ _ _ _ Hstep) as (Htr & Hcase).
    destruct Hcase as [(_ & Ha & Hb & Hr & Hf)|(Hsk' & _)]; [|congruence].
    destruct Hnext as [[Hstop _]|[Hstop Hrest]]; [congruence|].
    destruct (IH st1 Hall Hstop Hrest) as (-> & -> & -> & -> & ->).
    by rewrite Ha, Htr, Hb, Hr, <- app_assoc.
Qed.

Lemma process_subset_best_is_max (dev_dataset : option Dataset) (curr_subset : list nat)
    (st st' : state) :
  process_subset dev_dataset curr_subset st = Ok st' ->
  best_is_max st -> best_is_max st'.
Proof.
  intros Hstep (H0 & Hall & Hin). unfold best_is_max.
  destruct (process_subset_fields _ _ _ _ Hstep) as (_ & Hcase).
  destruct Hcase as [(_ & -> & -> & _)|(_ & a & -> & -> & _)]; [done|].
  destruct (Qltb (best_dev_acc st) a) eqn:Hlt.
  - apply Qltb_lt in Hlt. split; [|split].
    + apply Qlt_le_weak. by eapply Qle_lt_trans.
    + apply Forall_app. split.
      * eapply list.Forall_impl; [exact Hall|]. simpl. intros x Hx.
        apply Qlt_le_weak. by eapply Qle_lt_trans.
      * apply Forall_singleton. apply Qle_refl.
    + right. apply elem_of_app. right. by apply list_elem_of_singleton.
  - split; [done|]. split.
    + apply Forall_app. split; [done|]. apply Forall_singleton.
      apply Qnot_lt_le. intros Hc. apply Qltb_lt in Hc. congruence.
    + destruct Hin as [?|Hin]; [by left|]. right. apply elem_of_app. by left.
Qed.

Lemma run_best_is_max (dev_dataset : option Dataset) (subsets : list (list nat))
    (st st' : state) :
  run dev_dataset subsets st = Ok st' -> best_is_max st -> best_is_max st'.
Proof.
  revert st. induction subsets as [|s subsets IH]; intros st Hrun Hst.
  - simpl in Hrun. by injection Hrun as <-.
  - destruct (run_cons_inv _ _ _ _ _ Hrun) as (st1 & Hstep & Hnext).
    pose proof (process_subset_best_is_max _ _ _ _ Hstep Hst) as H1.
    destruct Hnext as [[_ ->]|[_ Hrest]]; [done|]. by apply (IH st1).
Qed.

(** *** Early stopping with a threshold of one or zero *)

(** Once a first validation has set the best accuracy, the next
    validation that does not beat it ends the run. *)
Lemma run_after_first_validation (dev : Dataset) (subsets : list (list nat))
    (st st' : state) :
  early_stopping_rounds = 1 ->
  stop_early st = false -> rounds_no_increase st = 0 ->
  (1 <= scheduled_validations (Some dev) subsets)%nat ->
  run (Some dev) subsets st = Ok st' ->
  exists a2 more,
    validation_accs (events st') = validation_accs (events st) ++ a2 :: more /\
    ((a2 <= best_dev_acc st)%Q ->
       more = [] /\ stop_early st' = true /\ best_dev_acc st' = best_dev_acc st).
Proof.
  intros Hesr. revert st.
  induction subsets as [|s subsets IH]; intros st Hstop Hrounds Hsched Hrun.
  - unfold scheduled_validations in Hsched. simpl in Hsched. lia.
  - rewrite scheduled_validations_cons in Hsched.
    destruct (run_cons_inv _ _ _ _ _ Hrun) as (st1 & Hstep & Hnext).
    destruct (process_subset_fields _ _ _ _ Hstep) as (_ & Hcase).
    destruct Hcase as [(Hsk & Ha & Hb & Hr & Hf)|(Hsk & a2 & Ha & Hb & Hr & Hf & _)].
    + rewrite Hsk in Hsched.
      destruct Hnext as [[Hs1 _]|[Hs1 Hrest]]; [congruence|].
      destruct (IH st1 Hs1 ltac:(congruence) ltac:(lia) Hrest)
        as (a2 & more & Hacc & Hle).
      exists a2, more. rewrite Hb in Hle. by rewrite Hacc, Ha.
    + rewrite Hstop, Hrounds, Hesr in *.
      destruct (Qltb (best_dev_acc st) a2) eqn:Hlt.
      * rewrite Hr in Hf. simpl in Hf.
        destruct Hnext as [[Hs1 _]|[_ Hrest]]; [congruence|].
        destruct (run_accs_extends _ _ _ _ Hrest) as [more Hm].
        exists a2, more. split; [by rewrite Hm, Ha, <- app_assoc|].
        intros Hle. apply Qltb_lt in Hlt. exfalso.
        by apply (Qlt_not_le _ _ Hlt).
      * rewrite Hr in Hf. simpl in Hf.
        destruct Hnext as [[_ ->]|[Hs1 _]]; [|congruence].
        exists a2, []. by rewrite Ha, Hb.
Qed.

(** From the initial counters: the first validation either sets the best
    accuracy or, when its accuracy is not above zero, ends the run. *)
Lemma run_before_first_validation (dev : Dataset) (subsets : list (list nat))
    (st st' : state) :
  early_stopping_rounds = 1 ->
  stop_early st = false -> rounds_no_increase st = 0 -> best_dev_acc st = 0%Q ->
  (2 <= scheduled_validations (Some dev) subsets)%nat ->
  run (Some dev) subsets st = Ok st' ->
  exists a1 rest,
    validation_accs (events st') = validation_accs (events st) ++ a1 :: rest /\
    ((0 < a1)%Q ->
       exists a2 more, rest = a2 :: more /\
         ((a2 <= a1)%Q ->
            more = [] /\ stop_early st' = true /\ best_dev_acc st' = a1)) /\
    (~ (0 < a1)%Q -> rest = [] /\ stop_early st' = true).
Proof.
  intros Hesr. revert st.
  induction subsets as [|s subsets IH]; intros st Hstop Hrounds Hbest Hsched Hrun.
  - unfold scheduled_validations in Hsched. simpl in Hsched. lia.
  - rewrite scheduled_validations_cons in Hsched.
    destruct (run_cons_inv _ _ _ _ _ Hrun) as (st1 & Hstep & Hnext).
    destruct (process_subset_fields _ _ _ _ Hstep) as (_ & Hcase).
    destruct Hcase as [(Hsk & Ha & Hb & Hr & Hf)|(Hsk & a1 & Ha & Hb & Hr & Hf & _)].
    + rewrite Hsk in Hsched.
      destruct Hnext as [[Hs1 _]|[Hs1 Hrest]]; [congruence|].
      destruct (IH st1 Hs1 ltac:(congruence) ltac:(congruence) ltac:(lia) Hrest)
        as (a1 & rest & Hacc & H1 & H2).
      exists a1, rest. rewrite Hacc, Ha. done.
    + rewrite Hsk in Hsched. rewrite Hstop, Hrounds, Hbest, Hesr in *.
      destruct (Qltb 0 a1) eqn:Hlt.
      * rewrite Hr in Hf. simpl in Hf.
        destruct Hnext as [[Hs1 _]|[_ Hrest]]; [congruence|].
        destruct (run_after_first_validation dev subsets st1 st' Hesr Hf Hr
                    ltac:(lia) Hrest) as (a2 & more & Hacc & Hle).
        exists a1, (a2 :: more). split; [by rewrite Hacc, Ha, <- app_assoc|]. split.
        -- intros _. exists a2, more. split; [done|]. by rewrite <- Hb.
        -- intros Hn. apply Qltb_lt in Hlt. done.
      * rewrite Hr in Hf. simpl in Hf.
        destruct Hnext as [[_ ->]|[Hs1 _]]; [|congruence].
        exists a1, []. split; [by rewrite Ha|]. split; [|done].
        intros Hp. apply Qltb_lt in Hp. congruence.
Qed.

Lemma run_zero_patience (dev : Dataset) (subsets : list (list nat)) (st st' : state) :
  early_stopping_rounds = 0 ->
  stop_early st = false -> best_dev_acc st = 0%Q ->
  (1 <= scheduled_validations (Some dev) subsets)%nat ->
  run (Some dev) subsets st = Ok st' ->
  exists a1 rest,
    validation_accs (events st') = validation_accs (events st) ++ a1 :: rest /\
    ((0 < a1)%Q ->
       rest = [] /\ stop_early st' = true /\ best_dev_acc st' = a1).
Proof.
  intros Hesr. revert st.
  induction subsets as [|s subsets IH]; intros st Hstop Hbest Hsched Hrun.
  - unfold scheduled_validations in Hsched. simpl in Hsched. lia.
  - rewrite scheduled_validations_cons in Hsched.
    destruct (run_cons_inv _ _ _ _ _ Hrun) as (st1 & Hstep & Hnext).
    destruct (process_subset_fields _ _ _ _ Hstep) as (_ & Hcase).
    destruct Hcase as [(Hsk & Ha & Hb & Hr & Hf)|(Hsk & a1 & Ha & Hb & Hr & Hf & _)].
    + rewrite Hsk in Hsched.
      destruct Hnext as [[Hs1 _]|[Hs1 Hrest]]; [congruence|].
      destruct (IH st1 Hs1 ltac:(congruence) ltac:(lia) Hrest) as (a1 & rest & Hacc & H1).
      exists a1, rest. rewrite Hacc, Ha. done.
    + rewrite Hstop, Hbest, Hesr in *.
      destruct (Qltb 0 a1) eqn:Hlt.
      * rewrite Hr in Hf. simpl in Hf.
        destruct Hnext as [[_ ->]|[Hs1 _]]; [|congruence].
        exists a1, []. by rewrite Ha, Hb.
      * assert (Hno : ~ (0 < a1)%Q).
        { intros Hp. apply Qltb_lt in Hp. congruence. }
        destruct Hnext as [[_ ->]|[_ Hrest]].
        -- exists a1, []. by rewrite Ha.
        -- destruct (run_accs_extends _ _ _ _ Hrest) as [more Hm].
           exists a1, more. split; [by rewrite Hm, Ha, <- app_assoc|done].
Qed.

(** A validation that is not skipped, seen from the results of the two
    passes. *)
Lemma process_subset_validated_fields (dev : Dataset) (curr_subset : list nat)
    (st : state) (m1 m2 : Model) (train_loss dev_loss : Loss) (accuracy : Q) :
  validation_skipped (Some dev) curr_subset = false ->
  train (model st) curr_subset = Ok (m1, train_loss) ->
  validate m1 dev = Ok (m2, (dev_loss, accuracy)) ->
  exists st',
    process_subset (Some dev) curr_subset st = Ok st' /\
    model st' = m2 /\
    validation_accs (events st') = validation_accs (events st) ++ [accuracy] /\
    best_dev_acc st' =
      (if Qltb (best_dev_acc st) accuracy then accuracy else best_dev_acc st) /\
    rounds_no_increase st' =
      (if Qltb (best_dev_acc st) accuracy then 0 else rounds_no_increase st + 1) /\
    stop_early st' =
      (stop_early st || (rounds_no_increase st' =? early_stopping_rounds)).
Proof.
  intros Hs Ht Hv. eexists. split; [by eapply process_subset_validated|].
  set (st0 := State m2 (best_dev_acc st) (rounds_no_increase st) (stop_early st)
                    (events st ++ [EvTrain curr_subset; EvValidate accuracy])).
  destruct (stop_check_after_validation accuracy st0) as (Hb & Hr & Hst & Hm & _ & Hac).
  cbv zeta in Hb, Hr, Hst, Hm, Hac.
  split; [exact Hm|]. split; [|by split].
  rewrite Hac. unfold validation_accs, st0. cbn [events]. by rewrite omap_app.
Qed.

(** An exception of a pass leaves the run at the subset where it is
    raised. *)
Lemma run_raises (dev_dataset : option Dataset) (before after : list (list nat))
    (s : list nat) (st st1 : state) (e : exn) :
  stop_early st = false ->
  run dev_dataset before st = Ok st1 -> stop_early st1 = false ->
  process_subset dev_dataset s st1 = Raise e ->
  run dev_dataset (before ++ s :: after) st = Raise e.
Proof.
  intros Hst Hrun Hst1 Hstep. rewrite run_app, Hrun by done. simpl.
  by rewrite Hst1, Hstep.
Qed.

(** The minisets of a small training set are all below the threshold of
    the skip. *)
Lemma schedule_all_skipped (len_train : nat) (randperm : Z -> list nat)
    (num_epochs : Z) (dev_dataset : option Dataset) :
  (forall idx_epoch, length (randperm idx_epoch) = len_train) ->
  Z.of_nat len_train < validate_every_n_steps / 2 ->
  Forall (fun s => validation_skipped dev_dataset s = true)
         (schedule len_train randperm num_epochs).
Proof.
  intros Hlen Hsmall.
  apply list.Forall_forall. intros s Hs. unfold schedule in Hs.
  apply list_elem_of_In, in_concat in Hs as (ms & Hms & Hin).
  apply in_map_iff in Hms as (e & <- & _).
  unfold minisets in Hin. apply in_map_iff in Hin as (i & <- & _).
  apply validation_skipped_spec. right.
  pose proof (length_slice_le (randperm e) (i * validate_every_n_steps)
                ((i + 1) * validate_every_n_steps)) as Hle.
  unfold miniset. rewrite (Hlen e) in Hle. lia.
Qed.

(** [fit] returns when the passes return on the subsets of the schedule
    and on the validation set. *)
Lemma fit_returns (m : Model) (len_train : nat) (randperm : Z -> list nat)
    (num_epochs : Z) (dev_dataset : option Dataset) :
  validate_every_n_steps <> 0 ->
  train_returns (schedule len_train randperm num_epochs) ->
  validate_returns dev_dataset ->
  exists st, fit m len_train randperm num_epochs dev_dataset = Ok st.
Proof.
  intros Hv Ht Hd. rewrite fit_run by done. apply run_returns; [done|].
  intros m0 dev s _ Hdev _. by apply Hd.
Qed.

(** *** The claims on [fit] *)

(** C3 (amended). For a positive [validate_every_n_steps], in every epoch
    [fit] cuts the permutation drawn for that epoch into consecutive
    minisets of [validate_every_n_steps] indices, the last one possibly
    shorter: the minisets glue back to the permutation, every miniset
    but the last is full and none is empty, two different minisets share
    no index, and the sizes add up to the size of the training set; for
    10000 examples and an interval of 3000 the sizes are 3000, 3000,
    3000, 1000.  These minisets are what [fit] trains on: an epoch of
    [fit] is the run over the minisets of its permutation, and [fit] is
    the run over the minisets of its epochs, one epoch after the other.
    When the two passes return on them, [fit] returns; and when [fit]
    returns it has trained, in order, on an initial part of that
    sequence and validated after each of its minisets that is not
    skipped: on all of the sequence if the flag is not set or if there
    is no validation set, and up to the miniset whose validation brought
    the counter to the threshold if the flag is set. *)
Theorem fit_minisets_partition (len_train : nat) (randperm : Z -> list nat) :
  0 < validate_every_n_steps ->
  (forall idx_epoch, randperm idx_epoch ≡ₚ seq 0 len_train) ->
  (forall idx_epoch,
     let ms := minisets (randperm idx_epoch) (num_minisets len_train) in
     concat ms = randperm idx_epoch /\
     (forall i s, ms !! i = Some s ->
        (0 < length s)%nat /\
        Z.of_nat (length s) <= validate_every_n_steps /\
        (Z.of_nat i + 1 < num_minisets len_train ->
         Z.of_nat (length s) = validate_every_n_steps)) /\
     (forall i j s t x, i <> j -> ms !! i = Some s -> ms !! j = Some t ->
        x ∈ s -> x ∉ t) /\
     sum_list (length <$> ms) = len_train /\
     (Z.of_nat len_train = 10000 -> validate_every_n_steps = 3000 ->
      (fun s => Z.of_nat (length s)) <$> ms = [3000; 3000; 3000; 1000])) /\
  (forall dev_dataset idx_epoch epochs st,
     epoch_loop len_train randperm dev_dataset (idx_epoch :: epochs) st =
     do st' <- run dev_dataset
                 (minisets (randperm idx_epoch) (num_minisets len_train)) st;
     if stop_early st' then Ok st'
     else epoch_loop len_train randperm dev_dataset epochs st') /\
  (forall m num_epochs dev_dataset,
     let scheduled := schedule len_train randperm num_epochs in
     fit m len_train randperm num_epochs dev_dataset =
       run dev_dataset scheduled (initial m) /\
     (train_returns scheduled -> validate_returns dev_dataset ->
      exists st, fit m len_train randperm num_epochs dev_dataset = Ok st) /\
     (forall st,
        fit m len_train randperm num_epochs dev_dataset = Ok st ->
        exists seen rest,
          scheduled = seen ++ rest /\
          trained_subsets (events st) = seen /\
          length (validation_accs (events st)) =
            scheduled_validations dev_dataset seen /\
          (stop_early st = false -> rest = []) /\
          (dev_dataset = None -> rest = []) /\
          (stop_early st = true ->
           (exists seen0 s, seen = seen0 ++ [s] /\
              validation_skipped dev_dataset s = false) /\
           rounds_no_increase st = early_stopping_rounds))).
Proof.
  intros Hv Hperm. split; [|split].
  - intros e ms.
    assert (Hlen : length (randperm e) = len_train).
    { by rewrite (Permutation_length (Hperm e)), length_seq. }
    assert (Hcat : concat ms = randperm e) by by apply concat_minisets.
    pose proof (num_minisets_bounds len_train Hv) as Hk.
    split; [done|]. split; [|split; [|split]].
    + intros i s Hi. apply lookup_minisets in Hi as [Hik ->].
      pose proof (length_miniset len_train (randperm e) (Z.of_nat i) Hv
                    ltac:(lia) Hlen) as Hl.
      nia.
    + intros i j s t x Hij Hi Hj Hs Ht.
      eapply (NoDup_concat_disjoint ms i j s t x); eauto.
      rewrite Hcat, (Hperm e). apply NoDup_seq.
    + by rewrite <- length_concat, Hcat.
    + intros Hn H3000. subst ms. unfold minisets, num_minisets.
      rewrite H3000, Hn. change ((10000 + 3000 - 1) / 3000) with 4.
      change (range 4) with [0; 1; 2; 3]. cbn [map fmap list_fmap].
      pose proof (fun i Hi => length_miniset len_train (randperm e) i Hv Hi Hlen) as Hl.
      rewrite H3000, Hn in Hl.
      pose proof (Hl 0 ltac:(lia)). pose proof (Hl 1 ltac:(lia)).
      pose proof (Hl 2 ltac:(lia)). pose proof (Hl 3 ltac:(lia)).
      repeat f_equal; lia.
  - intros dev_dataset e epochs st. simpl. unfold floordiv.
    destruct (Z.eqb_spec validate_every_n_steps 0) as [?|_]; [lia|]. simpl.
    by rewrite miniset_loop_run.
  - intros m num_epochs dev_dataset scheduled. split; [apply fit_run; lia|]. split.
    + intros Ht Hd. apply fit_returns; [lia|done|done].
    + intros st Hfit. apply fit_Ok_run in Hfit.
      destruct (run_spec dev_dataset _ (initial m) st eq_refl ltac:(done) Hfit)
        as (seen & rest & Hsched & Htr & Hlen & _ & Hfalse & Htrue).
      exists seen, rest. split; [done|]. split; [done|]. split; [done|].
      split; [done|]. split.
      * intros ->. apply Hfalse.
        destruct (run_all_skipped None (schedule len_train randperm num_epochs)
                    (initial m) st) as (_ & _ & Hs & _);
          [by apply list.Forall_forall|done|done|done].
      * intros Hs. by destruct (Htrue Hs) as (? & ? & _).
Qed.


(** C2 (amended). With [early_stopping_rounds = 1] and at least two
    validations scheduled, [fit] returns when the two passes do, and
    when it returns it has validated at least once; if the first
    validation has an accuracy above zero it has validated twice, and if
    the second accuracy does not exceed the first it has performed
    exactly two validations and stopped early, the best accuracy being
    the first one; a first accuracy that is not above zero already stops
    the run.  After every validation that returns the counter is 0 and
    the best accuracy is the new one if the accuracy is strictly above
    the best so far, otherwise the counter grows by one and the best
    accuracy stays; the flag is set as soon as the counter equals the
    threshold, and a set flag ends the miniset loop and the epoch loop
    at once.  Every call of [fit] starts from a best accuracy of 0 and a
    counter of 0. *)
Theorem fit_early_stopping :
  (forall m len_train randperm num_epochs dev,
     early_stopping_rounds = 1 ->
     (2 <= scheduled_validations (Some dev)
             (schedule len_train randperm num_epochs))%nat ->
     (validate_every_n_steps <> 0 ->
      train_returns (schedule len_train randperm num_epochs) ->
      validate_returns (Some dev) ->
      exists st, fit m len_train randperm num_epochs (Some dev) = Ok st) /\
     (forall st,
        fit m len_train randperm num_epochs (Some dev) = Ok st ->
        exists a1 rest,
          validation_accs (events st) = a1 :: rest /\
          ((0 < a1)%Q ->
             exists a2 more, rest = a2 :: more /\
               ((a2 <= a1)%Q ->
                  more = [] /\ stop_early st = true /\ best_dev_acc st = a1)) /\
          (~ (0 < a1)%Q -> rest = [] /\ stop_early st = true))) /\
  (forall dev curr_subset st m1 m2 train_loss dev_loss accuracy,
     validation_skipped (Some dev) curr_subset = false ->
     train (model st) curr_subset = Ok (m1, train_loss) ->
     validate m1 dev = Ok (m2, (dev_loss, accuracy)) ->
     exists st',
       process_subset (Some dev) curr_subset st = Ok st' /\
       ((best_dev_acc st < accuracy)%Q ->
          rounds_no_increase st' = 0 /\ best_dev_acc st' = accuracy) /\
       (~ (best_dev_acc st < accuracy)%Q ->
          rounds_no_increase st' = rounds_no_increase st + 1 /\
          best_dev_acc st' = best_dev_acc st) /\
       stop_early st' =
         (stop_early st || (rounds_no_increase st' =? early_stopping_rounds))) /\
  (forall shuffled_indices dev_dataset idx_miniset rest st st',
     miniset_body shuffled_indices dev_dataset idx_miniset st = Ok st' ->
     stop_early st' = true ->
     miniset_loop shuffled_indices dev_dataset (idx_miniset :: rest) st = Ok st') /\
  (forall len_train randperm dev_dataset idx_epoch rest st st',
     validate_every_n_steps <> 0 ->
     miniset_loop (randperm idx_epoch) dev_dataset
       (range (num_minisets len_train)) st = Ok st' ->
     stop_early st' = true ->
     epoch_loop len_train randperm dev_dataset (idx_epoch :: rest) st = Ok st') /\
  (forall m len_train randperm num_epochs dev_dataset,
     fit m len_train randperm num_epochs dev_dataset =
     epoch_loop len_train randperm dev_dataset (range num_epochs) (State m 0 0 false [])).
Proof.
  split; [|split; [|split; [|split]]].
  - intros m len_train randperm num_epochs dev Hesr Hsched. split.
    + intros Hv Ht Hd. by apply fit_returns.
    + intros st Hfit. apply fit_Ok_run in Hfit.
      destruct (run_before_first_validation dev _ (initial m) st Hesr eq_refl eq_refl
                  eq_refl Hsched Hfit) as (a1 & rest & Hacc & H1 & H2).
      exists a1, rest. split; [exact Hacc|]. by split.
  - intros dev curr_subset st m1 m2 train_loss dev_loss accuracy Hs Ht Hval.
    destruct (process_subset_validated_fields dev curr_subset st m1 m2 train_loss
                dev_loss accuracy Hs Ht Hval) as (st' & Hstep & _ & _ & Hb & Hr & Hst).
    exists st'. split; [done|]. split; [|split; [|done]].
    + intros Hlt. apply Qltb_lt in Hlt. by rewrite Hb, Hr, Hlt.
    + intros Hlt. assert (Qltb (best_dev_acc st) accuracy = false) as Hf.
      { destruct (Qltb _ _) eqn:E; [|done]. by apply Qltb_lt in E. }
      by rewrite Hb, Hr, Hf.
  - intros shuffled_indices dev_dataset idx_miniset rest st st' Hbody Hs. simpl.
    rewrite Hbody. simpl. by rewrite Hs.
  - intros len_train randperm dev_dataset idx_epoch rest st st' Hv Hloop Hs. simpl.
    unfold floordiv. destruct (Z.eqb_spec validate_every_n_steps 0) as [?|_]; [done|].
    simpl. fold (num_minisets len_train). rewrite Hloop. simpl. by rewrite Hs.
  - done.
Qed.

(** *** Further properties of [fit] *)

(** X1. With a validation interval of 0, [fit] raises
    [ZeroDivisionError] as soon as there is an epoch to run, before any
    training; without epochs it returns the initial state. *)
Theorem fit_interval_zero_raises (m : Model) (len_train : nat)
    (randperm : Z -> list nat) (num_epochs : Z) (dev_dataset : option Dataset) :
  validate_every_n_steps = 0 ->
  (0 < num_epochs ->
   fit m len_train randperm num_epochs dev_dataset = Raise ZeroDivisionError) /\
  (num_epochs <= 0 ->
   fit m len_train randperm num_epochs dev_dataset = Ok (initial m)).
Proof.
  intros Hv. split.
  - intros Hn. by apply fit_zero_interval.
  - intros Hn. unfold fit, range. by rewrite seqZ_nil.
Qed.

(** X2. When [fit] returns, its best accuracy is the maximum of 0 and
    the accuracies of the validations it performed: no validation
    accuracy exceeds it, it is not negative, and it is either 0 or the
    accuracy of one of the validations. *)
Theorem fit_best_dev_acc_is_max (m : Model) (len_train : nat)
    (randperm : Z -> list nat) (num_epochs : Z) (dev_dataset : option Dataset)
    (st : state) :
  fit m len_train randperm num_epochs dev_dataset = Ok st ->
  (0 <= best_dev_acc st)%Q /\
  Forall (fun a => (a <= best_dev_acc st)%Q) (validation_accs (events st)) /\
  (best_dev_acc st = 0%Q \/ best_dev_acc st ∈ validation_accs (events st)).
Proof.
  intros Hfit. apply fit_Ok_run in Hfit. apply (run_best_is_max _ _ _ _ Hfit).
  split; [apply Qle_refl|]. split; [constructor|by left].
Qed.

(** X3. When [fit] returns, it has performed at most the scheduled
    number of validations, and exactly that number if it did not stop
    early; if it stopped early, the counter equals
    [early_stopping_rounds] and the stop is the last thing the run did.
    The counter is never negative. *)
Theorem fit_validation_count (m : Model) (len_train : nat)
    (randperm : Z -> list nat) (num_epochs : Z) (dev_dataset : option Dataset)
    (st : state) :
  fit m len_train randperm num_epochs dev_dataset = Ok st ->
  let scheduled :=
    scheduled_validations dev_dataset (schedule len_train randperm num_epochs) in
  0 <= rounds_no_increase st /\
  (length (validation_accs (events st)) <= scheduled)%nat /\
  (stop_early st = false -> length (validation_accs (events st)) = scheduled) /\
  (stop_early st = true ->
   rounds_no_increase st = early_stopping_rounds /\
   list.last (events st) = Some (EvStop early_stopping_rounds)).
Proof.
  intros Hfit scheduled. apply fit_Ok_run in Hfit.
  destruct (run_spec dev_dataset _ (initial m) st eq_refl ltac:(done) Hfit)
    as (seen & rest & Hsched & _ & Hlen & Hr & Hfalse & Htrue).
  simpl in Hlen. subst scheduled. rewrite Hsched, scheduled_validations_app.
  split; [done|]. split; [lia|]. split.
  - intros Hs. rewrite (Hfalse Hs). unfold scheduled_validations at 2. simpl. lia.
  - intros Hs. by destruct (Htrue Hs) as (_ & ? & ?).
Qed.

(** X4. A negative [early_stopping_rounds] switches early stopping off:
    when [fit] returns it has not stopped early, has trained on every
    miniset of every epoch and has performed every scheduled validation;
    and it returns when the two passes do. *)
Theorem fit_negative_patience_never_stops (m : Model) (len_train : nat)
    (randperm : Z -> list nat) (num_epochs : Z) (dev_dataset : option Dataset) :
  early_stopping_rounds < 0 ->
  (validate_every_n_steps <> 0 ->
   train_returns (schedule len_train randperm num_epochs) ->
   validate_returns dev_dataset ->
   exists st, fit m len_train randperm num_epochs dev_dataset = Ok st) /\
  (forall st,
     fit m len_train randperm num_epochs dev_dataset = Ok st ->
     stop_early st = false /\
     trained_subsets (events st) = schedule len_train randperm num_epochs /\
     length (validation_accs (events st)) =
       scheduled_validations dev_dataset (schedule len_train randperm num_epochs)).
Proof.
  intros Hesr. split; [intros Hv Ht Hd; by apply fit_returns|].
  intros st Hfit. apply fit_Ok_run in Hfit.
  destruct (run_spec dev_dataset _ (initial m) st eq_refl ltac:(done) Hfit)
    as (seen & rest & Hsched & Htr & Hlen & Hr & Hfalse & Htrue).
  assert (Hs : stop_early st = false).
  { destruct (stop_early st) eqn:E; [|done]. destruct (Htrue eq_refl) as (_ & Heq & _). lia. }
  specialize (Hfalse Hs). subst rest. rewrite app_nil_r in Hsched. subst seen.
  split; [done|]. by split.
Qed.

(** X5. A training set with fewer examples than
    [validate_every_n_steps // 2] is never validated on, with or without
    a validation set: every miniset is below the threshold, so [fit]
    returns when the training pass returns on the minisets, whatever the
    validation pass does, and when it returns it has trained on all
    minisets, recorded no accuracy and not stopped early. *)
Theorem fit_small_train_set_never_validates (m : Model) (len_train : nat)
    (randperm : Z -> list nat) (num_epochs : Z) (dev_dataset : option Dataset) :
  (forall idx_epoch, length (randperm idx_epoch) = len_train) ->
  Z.of_nat len_train < validate_every_n_steps / 2 ->
  (train_returns (schedule len_train randperm num_epochs) ->
   exists st, fit m len_train randperm num_epochs dev_dataset = Ok st) /\
  (forall st,
     fit m len_train randperm num_epochs dev_dataset = Ok st ->
     validation_accs (events st) = [] /\ stop_early st = false /\
     best_dev_acc st = 0%Q /\
     trained_subsets (events st) = schedule len_train randperm num_epochs).
Proof.
  intros Hlen Hsmall.
  assert (Hv : validate_every_n_steps <> 0).
  { intros E. rewrite E in Hsmall. change (0 / 2) with 0 in Hsmall. lia. }
  pose proof (schedule_all_skipped len_train randperm num_epochs dev_dataset
                Hlen Hsmall) as Hall.
  split.
  - intros Ht. rewrite fit_run by done. apply run_returns; [done|].
    intros m0 dev s Hs _ Hval.
    rewrite list.Forall_forall in Hall. rewrite (Hall s Hs) in Hval. done.
  - intros st Hfit. apply fit_Ok_run in Hfit.
    destruct (run_all_skipped dev_dataset _ (initial m) st Hall eq_refl Hfit)
      as (Ha & Ht & Hs & Hb & _).
    by rewrite Ha, Ht, Hs, Hb.
Qed.

(** X6. With [early_stopping_rounds = 0] the check after a validation
    fires when the counter has just been reset: if a validation is
    scheduled, [fit] returns when the two passes do, and when it returns
    after a first validation with an accuracy above 0, it has stopped
    early after that single validation. *)
Theorem fit_zero_patience_stops_at_first_improvement (m : Model) (len_train : nat)
    (randperm : Z -> list nat) (num_epochs : Z) (dev : Dataset) :
  early_stopping_rounds = 0 ->
  (1 <= scheduled_validations (Some dev)
          (schedule len_train randperm num_epochs))%nat ->
  (validate_every_n_steps <> 0 ->
   train_returns (schedule len_train randperm num_epochs) ->
   validate_returns (Some dev) ->
   exists st, fit m len_train randperm num_epochs (Some dev) = Ok st) /\
  (forall st,
     fit m len_train randperm num_epochs (Some dev) = Ok st ->
     exists a1 rest,
       validation_accs (events st) = a1 :: rest /\
       ((0 < a1)%Q -> rest = [] /\ stop_early st = true /\ best_dev_acc st = a1)).
Proof.
  intros Hesr Hsched. split; [intros Hv Ht Hd; by apply fit_returns|].
  intros st Hfit. apply fit_Ok_run in Hfit.
  destruct (run_zero_patience dev _ (initial m) st Hesr eq_refl eq_refl Hsched Hfit)
    as (a1 & rest & Hacc & H1).
  exists a1, rest. split; [exact Hacc|exact H1].
Qed.

(** X27. An exception of a pass leaves [fit]: when the run over the
    minisets before some miniset of the schedule returns without
    stopping early, and the training pass raises on that miniset, or the
    validation after it is not skipped and raises, [fit] raises that
    exception. *)
Theorem fit_propagates_pass_exceptions (m : Model) (len_train : nat)
    (randperm : Z -> list nat) (num_epochs : Z) (dev_dataset : option Dataset)
    (before after : list (list nat)) (s : list nat) (st1 : state) (e : exn) :
  validate_every_n_steps <> 0 ->
  schedule len_train randperm num_epochs = before ++ s :: after ->
  run dev_dataset before (initial m) = Ok st1 -> stop_early st1 = false ->
  (train (model st1) s = Raise e \/
   exists m1 train_loss dev,
     train (model st1) s = Ok (m1, train_loss) /\
     dev_dataset = Some dev /\ validation_skipped dev_dataset s = false /\
     validate m1 dev = Raise e) ->
  fit m len_train randperm num_epochs dev_dataset = Raise e.
Proof.
  intros Hv Hsched Hrun Hst1 Hraise. rewrite fit_run, Hsched by done.
  eapply run_raises; [done|exact Hrun|exact Hst1|].
  by apply process_subset_raises.
Qed.

End WithPasses.

(** *** Concrete runs *)

(** A stand-in for the two passes: the model counts the training passes,
    and the accuracy of a validation is read off a table indexed by that
    count.  As in [train], the mean over the batches of an empty subset
    is a division by zero. *)
Definition count_train (m : nat) (curr_subset : list nat) : result (nat * unit) :=
  match curr_subset with
  | [] => Raise ZeroDivisionError
  | _ :: _ => Ok (S m, tt)
  end.

Definition table_validate (acc : nat -> Q) (m : nat) (dev : unit) :
    result (nat * (unit * Q)) :=
  Ok (m, (tt, acc m)).

Definition nonempty (curr_subset : list nat) : bool :=
  match curr_subset with
  | [] => false
  | _ :: _ => true
  end.

Definition validations_of (r : result (@state nat)) : list Q :=
  match r with
  | Ok st => validation_accs (events st)
  | Raise _ => []
  end.

Definition stopped_early (r : result (@state nat)) : bool :=
  match r with
  | Ok st => stop_early st
  | Raise _ => false
  end.

Lemma count_train_returns (subsets : list (list nat)) :
  forallb nonempty subsets = true -> train_returns count_train subsets.
Proof.
  intros Hall m s Hs. rewrite forallb_forall in Hall.
  specialize (Hall s ltac:(by apply list_elem_of_In)). by destruct s.
Qed.

Lemma table_validate_returns (acc : nat -> Q) (dev_dataset : option unit) :
  validate_returns (table_validate acc) dev_dataset.
Proof. by intros m dev _. Qed.

(** A training set of 7 examples cut every 3 examples, one epoch, no
    early stop within it. *)
Lemma fit_minisets_partition_witness :
  let randperm := fun _ : Z => [3; 1; 6; 0; 5; 2; 4]%nat in
  0 < 3 /\ (forall idx_epoch : Z, randperm idx_epoch ≡ₚ seq 0 7) /\
  minisets 3 (randperm 0) (num_minisets 3 7) = [[3; 1; 6]; [0; 5; 2]; [4]]%nat /\
  sum_list (length <$> minisets 3 (randperm 0) (num_minisets 3 7)) = 7%nat /\
  exists st,
    fit count_train (table_validate (fun _ => 1 # 2)) 3 5 0%nat 7 randperm 1 (Some tt)
      = Ok st /\
    trained_subsets (events st) = [[3; 1; 6]; [0; 5; 2]; [4]]%nat /\
    length (validation_accs (events st)) = 3%nat.
Proof.
  intros randperm.
  assert (Hperm : forall idx_epoch : Z, randperm idx_epoch ≡ₚ seq 0 7).
  { intros e. unfold randperm. apply NoDup_Permutation.
    - apply NoDup_ListNoDup.
      repeat (constructor; [simpl; lia|]). constructor.
    - apply NoDup_seq.
    - intros x. rewrite !list_elem_of_In, in_seq. simpl. lia. }
  pose proof (fit_minisets_partition count_train (table_validate (fun _ => 1 # 2))
                3 5 7 randperm ltac:(lia) Hperm) as (Hp & _ & Hf).
  pose proof (Hp 0) as Hp0. cbv zeta in Hp0. destruct Hp0 as (_ & _ & _ & Hsum & _).
  split; [lia|]. split; [exact Hperm|]. split; [reflexivity|].
  split; [exact Hsum|].
  destruct (Hf 0%nat 1 (Some tt)) as (_ & Hex & Hall).
  destruct Hex as [st Hfit];
    [by apply count_train_returns|apply table_validate_returns|].
  destruct (Hall st Hfit) as (seen & rest & Hsched & Htr & Hlen & Hfalse & _).
  assert (Hstop : stop_early st = false).
  { revert Hfit. vm_compute. by intros [= <-]. }
  rewrite (Hfalse Hstop), app_nil_r in Hsched. subst seen.
  exists st. split; [exact Hfit|]. split; [exact Htr|].
  rewrite Hlen. vm_compute. reflexivity.
Defined.

(** C3, as it is stated, fails for an interval that is not positive.
    With an interval of -3 and one example, the single miniset of the
    epoch is the empty slice [[0:-3]]: the sizes sum to 0, not to 1, and
    the training pass on it divides by zero.  With an interval of -1 and
    three examples the number of minisets is -1: the epoch has no
    miniset and [fit] returns without having trained.  With an interval
    of 0 the number of minisets is a division by zero. *)
Lemma fit_nonpositive_interval_no_partition :
  let one_empty := minisets (-3) [0%nat] (num_minisets (-3) 1) in
  let none := minisets (-1) [2; 0; 1]%nat (num_minisets (-1) 3) in
  (one_empty = [[]] /\ sum_list (length <$> one_empty) <> 1%nat /\
   fit count_train (table_validate (fun _ => 1 # 2)) (-3) 1 0%nat 1
       (fun _ => [0%nat]) 2 (Some tt) = Raise ZeroDivisionError) /\
  (none = [] /\ sum_list (length <$> none) <> 3%nat /\
   fit count_train (table_validate (fun _ => 1 # 2)) (-1) 1 0%nat 3
       (fun _ => [2; 0; 1]%nat) 2 (Some tt) = Ok (initial 0%nat)) /\
  fit count_train (table_validate (fun _ => 1 # 2)) 0 1 0%nat 3
      (fun _ => [2; 0; 1]%nat) 2 (Some tt) = Raise ZeroDivisionError.
Proof. vm_compute. repeat split; congruence. Qed.

(** C2, as it is stated, fails on two runs with [early_stopping_rounds = 1].
    In the first the accuracy is 0 at every validation, so no validation
    exceeds the first: the run of 3 epochs with 3 minisets each stops after
    a single validation.  In the second the accuracy is 1/2 throughout, but
    the single epoch has a single miniset: the run ends after one
    validation without stopping early. *)
Lemma fit_one_validation_only :
  let zero_acc := fit count_train (table_validate (fun _ => 0%Q)) 2 1 0%nat 6
                      (fun _ => seq 0 6) 3 (Some tt) in
  let one_miniset := fit count_train (table_validate (fun _ => 1 # 2)) 4 1 0%nat 4
                         (fun _ => seq 0 4) 1 (Some tt) in
  (scheduled_validations 2 (Some tt) (schedule 2 6 (fun _ => seq 0 6) 3) = 9%nat /\
   is_ok zero_acc = true /\
   validations_of zero_acc = [0%Q] /\ stopped_early zero_acc = true) /\
  (is_ok one_miniset = true /\
   validations_of one_miniset = [1 # 2] /\ stopped_early one_miniset = false) /\
  length (validations_of zero_acc) <> 2%nat /\
  length (validations_of one_miniset) <> 2%nat.
Proof. vm_compute. repeat split; congruence. Qed.

(** Two minisets of 2 examples, an accuracy of 1/2 at every validation. *)
Lemma fit_early_stopping_witness :
  1 = 1 /\ 2 <> 0 /\
  (2 <= scheduled_validations 2 (Some tt) (schedule 2 4 (fun _ => seq 0 4) 1))%nat /\
  exists st a1 a2,
    fit count_train (table_validate (fun _ => 1 # 2)) 2 1 0%nat 4
        (fun _ => seq 0 4) 1 (Some tt) = Ok st /\
    validation_accs (events st) = [a1; a2] /\ stop_early st = true.
Proof.
  assert (H2 : (2 <= scheduled_validations 2 (Some tt)
                       (schedule 2 4 (fun _ => seq 0 4) 1))%nat).
  { vm_compute. lia. }
  split; [reflexivity|]. split; [lia|]. split; [exact H2|].
  destruct (proj1 (fit_early_stopping count_train (table_validate (fun _ => 1 # 2)) 2 1)
              0%nat 4%nat (fun _ => seq 0 4) 1 tt eq_refl H2) as [Hex Hall].
  destruct Hex as [st Hfit];
    [lia|by apply count_train_returns|apply table_validate_returns|].
  destruct (Hall st Hfit) as (a1 & rest & Hacc & Hpos & _).
  assert (Ha1 : a1 = 1 # 2).
  { revert Hacc. revert Hfit. vm_compute. intros [= <-]. simpl. congruence. }
  destruct Hpos as (a2 & more & -> & Hle); [by rewrite Ha1|].
  assert (Ha2 : a2 = 1 # 2).
  { revert Hacc. revert Hfit. vm_compute. intros [= <-]. simpl. congruence. }
  destruct Hle as (-> & Hstop & _); [rewrite Ha1, Ha2; discriminate|].
  by exists st, a1, a2.
Defined.



(** An accuracy table that improves once and then decays. *)
Definition rise_then_fall (m : nat) : Q :=
  match m with
  | 1%nat => 1 # 2
  | 2%nat => 3 # 4
  | _ => 1 # 4
  end.

(** Interval 0, one epoch over 4 examples. *)
Lemma fit_interval_zero_raises_witness :
  0 = 0 /\
  fit count_train (table_validate rise_then_fall) 0 1 0%nat 4
      (fun _ => seq 0 4) 1 (Some tt) = Raise ZeroDivisionError.
Proof.
  split; [reflexivity|].
  apply (fit_interval_zero_raises count_train (table_validate rise_then_fall) 0 1
           0%nat 4%nat (fun _ => seq 0 4) 1 (Some tt) eq_refl).
  lia.
Defined.

(** Two epochs over 6 examples cut every 2, patience 2: the accuracies
    are 1/2, 3/4, 1/4, 1/4 and the best one is 3/4. *)
Lemma fit_best_dev_acc_is_max_witness :
  exists st,
    fit count_train (table_validate rise_then_fall) 2 2 0%nat 6
        (fun _ => seq 0 6) 2 (Some tt) = Ok st /\
    validation_accs (events st) = [1 # 2; 3 # 4; 1 # 4; 1 # 4] /\
    Forall (fun a => (a <= best_dev_acc st)%Q) (validation_accs (events st)).
Proof.
  destruct (fit count_train (table_validate rise_then_fall) 2 2 0%nat 6
              (fun _ => seq 0 6) 2 (Some tt)) as [st|e] eqn:Hfit;
    [|vm_compute in Hfit; discriminate].
  exists st. split; [reflexivity|]. split.
  - revert Hfit. vm_compute. by intros [= <-].
  - exact (proj1 (proj2 (fit_best_dev_acc_is_max count_train
             (table_validate rise_then_fall) 2 2 0%nat 6%nat (fun _ => seq 0 6) 2
             (Some tt) st Hfit))).
Defined.

(** The same run: 4 of the 6 scheduled validations take place. *)
Lemma fit_validation_count_witness :
  exists st,
    fit count_train (table_validate rise_then_fall) 2 2 0%nat 6
        (fun _ => seq 0 6) 2 (Some tt) = Ok st /\
    scheduled_validations 2 (Some tt) (schedule 2 6 (fun _ => seq 0 6) 2) = 6%nat /\
    (length (validation_accs (events st)) <= 6)%nat /\
    rounds_no_increase st = 2.
Proof.
  destruct (fit count_train (table_validate rise_then_fall) 2 2 0%nat 6
              (fun _ => seq 0 6) 2 (Some tt)) as [st|e] eqn:Hfit;
    [|vm_compute in Hfit; discriminate].
  exists st. split; [reflexivity|].
  assert (Hs : scheduled_validations 2 (Some tt)
                 (schedule 2 6 (fun _ => seq 0 6) 2) = 6%nat) by (vm_compute; reflexivity).
  split; [exact Hs|].
  destruct (fit_validation_count count_train (table_validate rise_then_fall) 2 2
              0%nat 6%nat (fun _ => seq 0 6) 2 (Some tt) st Hfit)
    as (_ & Hle & _ & Hstop).
  rewrite Hs in Hle. split; [exact Hle|].
  apply Hstop. revert Hfit. vm_compute. by intros [= <-].
Defined.

(** Patience -1 on the same data: all 6 validations take place. *)
Lemma fit_negative_patience_never_stops_witness :
  -1 < 0 /\ 2 <> 0 /\
  exists st,
    fit count_train (table_validate rise_then_fall) 2 (-1) 0%nat 6
        (fun _ => seq 0 6) 2 (Some tt) = Ok st /\
    stop_early st = false /\ length (validation_accs (events st)) = 6%nat.
Proof.
  split; [lia|]. split; [lia|].
  destruct (fit_negative_patience_never_stops count_train
              (table_validate rise_then_fall) 2 (-1) 0%nat 6%nat (fun _ => seq 0 6) 2
              (Some tt) ltac:(lia)) as [Hex Hall].
  destruct Hex as [st Hfit];
    [lia|by apply count_train_returns|apply table_validate_returns|].
  destruct (Hall st Hfit) as (Hstop & _ & Hlen).
  exists st. split; [exact Hfit|]. split; [exact Hstop|].
  rewrite Hlen. vm_compute. reflexivity.
Defined.

(** 4 examples, interval 10: the only miniset has 4 < 5 examples. *)
Lemma fit_small_train_set_never_validates_witness :
  (forall idx_epoch : Z, length (seq 0 4) = 4%nat) /\ Z.of_nat 4 < 10 / 2 /\
  exists st,
    fit count_train (table_validate rise_then_fall) 10 1 0%nat 4
        (fun _ => seq 0 4) 3 (Some tt) = Ok st /\
    validation_accs (events st) = [] /\
    trained_subsets (events st) = [seq 0 4; seq 0 4; seq 0 4].
Proof.
  split; [reflexivity|]. split; [vm_compute; reflexivity|].
  destruct (fit_small_train_set_never_validates count_train
              (table_validate rise_then_fall) 10 1 0%nat 4%nat (fun _ => seq 0 4) 3
              (Some tt) ltac:(reflexivity) ltac:(vm_compute; reflexivity))
    as [Hex Hall].
  destruct Hex as [st Hfit]; [by apply count_train_returns|].
  destruct (Hall st Hfit) as (Hacc & _ & _ & Htr).
  exists st. split; [exact Hfit|]. split; [exact Hacc|].
  rewrite Htr. vm_compute. reflexivity.
Defined.

(** Patience 0: the first validation (accuracy 1/2) ends the run. *)
Lemma fit_zero_patience_stops_at_first_improvement_witness :
  0 = 0 /\ 2 <> 0 /\
  (1 <= scheduled_validations 2 (Some tt) (schedule 2 6 (fun _ => seq 0 6) 2))%nat /\
  exists st,
    fit count_train (table_validate rise_then_fall) 2 0 0%nat 6
        (fun _ => seq 0 6) 2 (Some tt) = Ok st /\
    validation_accs (events st) = [1 # 2] /\ stop_early st = true.
Proof.
  assert (H1 : (1 <= scheduled_validations 2 (Some tt)
                       (schedule 2 6 (fun _ => seq 0 6) 2))%nat).
  { vm_compute. lia. }
  split; [reflexivity|]. split; [lia|]. split; [exact H1|].
  destruct (fit_zero_patience_stops_at_first_improvement count_train
              (table_validate rise_then_fall) 2 0 0%nat 6%nat (fun _ => seq 0 6) 2 tt
              eq_refl H1) as [Hex Hall].
  destruct Hex as [st Hfit];
    [lia|by apply count_train_returns|apply table_validate_returns|].
  destruct (Hall st Hfit) as (a1 & rest & Hacc & Himp).
  assert (Ha1 : a1 = 1 # 2).
  { revert Hacc. revert Hfit. vm_compute. intros [= <-]. simpl. congruence. }
  destruct Himp as (-> & Hstop & _); [by rewrite Ha1|].
  exists st. split; [exact Hfit|]. split; [by rewrite Hacc, Ha1|exact Hstop].
Defined.

(** Interval -3, one example: the only miniset is empty and the training
    pass on it raises. *)
Lemma fit_propagates_pass_exceptions_witness :
  -3 <> 0 /\
  schedule (-3) 1 (fun _ => [0%nat]) 1 = [] ++ [] :: [] /\
  fit count_train (table_validate rise_then_fall) (-3) 1 0%nat 1
      (fun _ => [0%nat]) 1 (Some tt) = Raise ZeroDivisionError.
Proof.
  split; [lia|]. split; [reflexivity|].
  apply (fit_propagates_pass_exceptions count_train (table_validate rise_then_fall)
           (-3) 1 0%nat 1%nat (fun _ => [0%nat]) 1 (Some tt) [] [] []
           (initial 0%nat) ZeroDivisionError);
    [lia|reflexivity|reflexivity|reflexivity|by left].
Defined.

End Fit.
(** ** The script of [bert.py]: the configured features *)

Module Main.
Import Torch.
Import Classifier.
Import Controller.

(** The arguments of the command line that reach the controller. *)
Record Args : Type := MkArgs {
  batch_size : Z;
  lr : R;
  dropout : R;
  early_stopping_rounds : Z;
  validate_every_n_examples : Z;
  include_upostag : bool;
  upostag_emb_size : Z;
  include_ufeats : bool;
  ufeats_emb_size : Z;
  pooling_type : string
}.

(** Lines 304-310.  [ufeats_names] is [list(UFEATS2IDX.keys())]. *)
Definition feature_sizes (args : Args) (ufeats_names : list string) : odict Z :=
  let feature_sizes : odict Z := [] in
  let feature_sizes :=
    if include_upostag args
    then odict_set feature_sizes "upostag" (upostag_emb_size args)
    else feature_sizes in
  if include_ufeats args
  then fold_left (fun d f => odict_set d f (ufeats_emb_size args)) ufeats_names
                 feature_sizes
  else feature_sizes.

Section WithRegistry.
Variable UPOS2IDX : gmap string Z.
Variable UFEATS2IDX : gmap string (gmap string Z).
Variable PAD : string.
Variable nn_LSTM : Z -> result (Tensor3 R -> result (Tensor2 R)).
Variable fresh : string -> nat -> nat -> R.
Variable module_name_error : string -> option string.

(** Lines 312-321: the controller that the script builds. *)
Definition trainer (args : Args) (num_labels : Z) (pretrained : result Encoder)
    (ufeats_names : list string) : result BertController :=
  Controller.init UPOS2IDX UFEATS2IDX PAD nn_LSTM fresh module_name_error num_labels
    (batch_size args)
    (dropout args) (lr args) (early_stopping_rounds args)
    (validate_every_n_examples args) pretrained
    (Some (feature_sizes args ufeats_names)) (Some (pooling_type args)).

Lemma feature_sizes_eq (args : Args) (ufeats_names : list string) :
  NoDup ufeats_names -> "upostag"%string ∉ ufeats_names ->
  feature_sizes args ufeats_names =
  (if include_upostag args then [("upostag"%string, upostag_emb_size args)] else []) ++
  (if include_ufeats args
   then map (fun f => (f, ufeats_emb_size args)) ufeats_names else []).
Proof.
  intros Hnd Hup. unfold feature_sizes. cbn [odict_set].
  destruct (include_ufeats args); [|by rewrite app_nil_r].
  assert (Hmap : forall (names : list string) (d : odict Z),
            fold_left (fun d f => odict_set d f (ufeats_emb_size args)) names d =
            fold_left (fun d fv => odict_set d (fst fv) (snd fv))
                      (map (fun f => (f, ufeats_emb_size args)) names) d).
  { induction names as [|f names IH]; intros d; simpl; [done|apply IH]. }
  rewrite Hmap. apply fold_set_fresh. rewrite map_map. simpl. rewrite map_id.
  destruct (include_upostag args); simpl; [|done].
  by apply list.NoDup_cons.
Qed.

(** X24. With distinct feature names, none of them ["upostag"], the
    dictionary of the configured features lists ["upostag"] with its
    size first when [--include_upostag] is given, then every name of
    [UFEATS2IDX] with the one size of [--ufeats_emb_size] when
    [--include_ufeats] is given; its keys are distinct, and its sizes
    add up to what the classifier takes besides the hidden size. *)
Theorem feature_sizes_entries (args : Args) (ufeats_names : list string) :
  NoDup ufeats_names -> "upostag"%string ∉ ufeats_names ->
  feature_sizes args ufeats_names =
    (if include_upostag args then [("upostag"%string, upostag_emb_size args)] else []) ++
    (if include_ufeats args
     then map (fun f => (f, ufeats_emb_size args)) ufeats_names else []) /\
  NoDup (map fst (feature_sizes args ufeats_names)) /\
  foldr Z.add 0 (map snd (feature_sizes args ufeats_names)) =
    (if include_upostag args then upostag_emb_size args else 0) +
    (if include_ufeats args
     then Z.of_nat (length ufeats_names) * ufeats_emb_size args else 0).
Proof.
  intros Hnd Hup. rewrite (feature_sizes_eq args ufeats_names Hnd Hup).
  split; [done|].
  assert (Hsum : forall names : list string,
            foldr Z.add 0 (map snd (map (fun f => (f, ufeats_emb_size args)) names)) =
            Z.of_nat (length names) * ufeats_emb_size args).
  { induction names as [|f names IH]; [done|].
    cbn [map foldr snd length]. rewrite IH. lia. }
  split.
  - rewrite map_app. apply list.NoDup_app. split; [|split].
    + destruct (include_upostag args); simpl; [apply NoDup_singleton|apply NoDup_nil_2].
    + intros k Hk Hk'. destruct (include_upostag args); simpl in Hk;
        [|by apply elem_of_nil in Hk].
      apply list_elem_of_singleton in Hk as ->.
      destruct (include_ufeats args); simpl in Hk'; [|by apply elem_of_nil in Hk'].
      rewrite map_map, map_id in Hk'. done.
    + destruct (include_ufeats args); simpl; [|apply NoDup_nil_2].
      by rewrite map_map, map_id.
  - rewrite map_app, foldr_app.
    destruct (include_ufeats args), (include_upostag args); simpl;
      rewrite ?Hsum; lia.
Qed.

(** X25. The script run with [--include_ufeats], without
    [--include_upostag] and with [--pooling_type lstm] or [weighted],
    over a registry that has at least one feature: the controller cannot
    be built, its constructor raises the [KeyError] of ["upostag"]. *)
Theorem trainer_needs_upostag_for_pooler (args : Args) (num_labels : Z)
    (pretrained : result Encoder) (ufeats_names : list string) :
  NoDup ufeats_names -> "upostag"%string ∉ ufeats_names -> ufeats_names <> [] ->
  include_ufeats args = true -> include_upostag args = false ->
  pooling_type args = "lstm"%string \/ pooling_type args = "weighted"%string ->
  trainer args num_labels pretrained ufeats_names = Raise (KeyError "upostag").
Proof.
  intros Hnd Hup Hne Huf Hupos Htype. unfold trainer, Controller.init, Classifier.init.
  rewrite (feature_sizes_eq args ufeats_names Hnd Hup), Huf, Hupos. simpl.
  unfold init_pooler.
  assert (Hlen : (0 <? length (map (fun f => (f, ufeats_emb_size args)) ufeats_names))%nat
                 = true).
  { destruct ufeats_names; [done|]. done. }
  rewrite Hlen.
  rewrite (odict_get_missing _ "upostag"); [|by rewrite map_map, map_id].
  destruct Htype as [-> | ->]; done.
Qed.

End WithRegistry.

(** The defaults of the script with the features of the registry only. *)
Lemma feature_sizes_entries_witness :
  let args := MkArgs 16 (1 / 50000) (1 / 5) 5 5000 true 50 true 15 "mean" in
  let ufeats_names := ["Case"%string; "Number"%string] in
  NoDup ufeats_names /\ ("upostag"%string ∉ ufeats_names) /\
  feature_sizes args ufeats_names =
    [("upostag"%string, 50); ("Case"%string, 15); ("Number"%string, 15)] /\
  foldr Z.add 0 (map snd (feature_sizes args ufeats_names)) = 80.
Proof.
  intros args ufeats_names.
  assert (Hnd : NoDup ufeats_names).
  { apply NoDup_ListNoDup. repeat (constructor; [simpl; intuition discriminate|]).
    constructor. }
  assert (Hup : "upostag"%string ∉ ufeats_names).
  { intros H. apply list_elem_of_In in H. simpl in H. intuition discriminate. }
  split; [exact Hnd|]. split; [exact Hup|].
  destruct (feature_sizes_entries args ufeats_names Hnd Hup) as (Heq & _ & Hsum).
  split; [exact Heq|exact Hsum].
Defined.

Lemma trainer_needs_upostag_for_pooler_witness :
  let args := MkArgs 16 (1 / 50000) (1 / 5) 5 5000 false 50 true 15 "weighted" in
  trainer toy_upos toy_ufeats "PAD" no_lstm toy_fresh toy_module_name_error args 2 (Ok two_unit_encoder)
          ["Case"%string] = Raise (KeyError "upostag").
Proof.
  intros args.
  apply (trainer_needs_upostag_for_pooler toy_upos toy_ufeats "PAD" no_lstm toy_fresh toy_module_name_error
           args 2 (Ok two_unit_encoder) ["Case"%string]).
  - apply NoDup_singleton.
  - intros H. apply list_elem_of_singleton in H. discriminate.
  - discriminate.
  - reflexivity.
  - reflexivity.
  - right. reflexivity.
Defined.

End Main.


(** ** [preprocess.py]: the features of the tagged tokens

    The tagger of [stanza] and [json.dumps] are inputs of the model. *)

Module Preprocess.

(** [s.split(sep)] for a separator of one character. *)
Fixpoint split (sep : ascii) (s : string) : list string :=
  match s with
  | EmptyString => [EmptyString]
  | String c s' =>
      if Ascii.eqb c sep then EmptyString :: split sep s'
      else match split sep s' with
           | [] => [String c EmptyString]
           | part :: parts => String c part :: parts
           end
  end.

(** [sep.join(parts)] *)
Fixpoint join (sep : ascii) (parts : list string) : string :=
  match parts with
  | [] => EmptyString
  | [part] => part
  | part :: parts' => part +:+ String sep (join sep parts')
  end.

(** [s.count(c)] *)
Fixpoint count (c : ascii) (s : string) : nat :=
  match s with
  | EmptyString => 0
  | String c' s' => (if Ascii.eqb c' c then 1 else 0) + count c s'
  end.

(** [l[-1]] *)
Definition getitem_last {A} (l : list A) : result A :=
  match list.last l with
  | Some x => Ok x
  | None => Raise IndexError
  end.

(** A loop that updates an accumulator and stops at the first exception. *)
Fixpoint foldM {A B} (f : B -> A -> result B) (l : list A) (b : B) : result B :=
  match l with
  | [] => Ok b
  | x :: l' => do b' <- f b x; foldM f l' b'
  end.

(** A word of a [stanza] document: [text], [feats] and [upos]. *)
Record Word : Type := MkWord {
  text : string;
  feats : option string;
  upos : option string
}.

Record Sentence : Type := MkSentence { words : list Word }.

Record Document : Type := MkDocument { sentences : list Sentence }.

(** [feat, val = feat_val_pair.split("=")]: unpacking asks for exactly
    two parts. *)
Definition unpack_pair (parts : list string) : result (string * string) :=
  match parts with
  | [feat; val] => Ok (feat, val)
  | _ => Raise ValueError
  end.

(** Lines 65-67: one turn of the loop over the pairs. *)
Definition add_feat (processed_feats : odict string) (feat_val_pair : string)
    : result (odict string) :=
  do (feat, val) <- unpack_pair (split "=" feat_val_pair);
  Ok (odict_set processed_feats feat val).

(** [os.path.join(a, b)] of [posixpath]. *)
Definition os_path_join (a b : string) : string :=
  match b with
  | String "/" _ => b
  | _ => if String.eqb a "" then b
         else match getitem_last (list_ascii_of_string a) with
              | Ok "/"%char => a +:+ b
              | _ => a +:+ String "/" b
              end
  end.

Section WithTagger.
(** The padding tag of [utils], the pipeline [nlp] and [json.dumps]. *)
Variable PAD : string.
Variable nlp : string -> result Document.
Variable json_dumps : list (list (odict string)) -> string.

(** Lines 59-74: the features of one token. *)
Definition process_word (curr_token : Word) : result (odict string) :=
  let processed_feats := [("form"%string, text curr_token)] in
  do processed_feats <-
    match feats curr_token with
    | Some token_feats => foldM add_feat (split "|" token_feats) processed_feats
    | None => Ok processed_feats
    end;
  let token_upos := default PAD (upos curr_token) in
  Ok (odict_set processed_feats "upostag" token_upos).

(** [extract_features] *)
Definition extract_features (stanza_output : Document)
    : result (list (list (odict string))) :=
  mapM (fun curr_sent => mapM process_word (words curr_sent)) (sentences stanza_output).

(** Lines 89-103: the loop over the examples.  Only a [RuntimeError] of
    the pipeline is caught. *)
Fixpoint main_loop (examples : list string) (features : list string)
    (take_mask : list bool) : result (list string * list bool) :=
  match examples with
  | [] => Ok (features, take_mask)
  | curr_ex :: rest =>
      match nlp curr_ex with
      | Raise RuntimeError => main_loop rest features (take_mask ++ [false])
      | Raise e => Raise e
      | Ok output =>
          do ex_features <- extract_features output;
          main_loop rest (features ++ [json_dumps ex_features]) (take_mask ++ [true])
      end
  end.

(** [df.loc[take_mask]]: the rows whose mask entry is [True]. *)
Definition loc {A} (rows : list A) (take_mask : list bool) : list A :=
  map fst (List.filter snd (zip rows take_mask)).

End WithTagger.

(** Line 110: [data_path.split(os.sep)[-1]] *)
Definition file_name_of (os_sep : ascii) (data_path : string) : result string :=
  getitem_last (split os_sep data_path).

(** *** Facts on monadic loops *)

Lemma mapM_Ok_Forall2 {A B} (f : A -> result B) (l : list A) (ys : list B) :
  mapM f l = Ok ys -> Forall2 (fun x y => f x = Ok y) l ys.
Proof.
  revert ys. induction l as [|x l IH]; intros ys; simpl.
  - intros [= <-]. constructor.
  - destruct (f x) as [y|] eqn:Hx; simpl; [|done].
    destruct (mapM f l) as [ys'|]; simpl; [|done].
    intros [= <-]. constructor; [done|by apply IH].
Qed.

Lemma mapM_is_ok {A B} (f : A -> result B) (l : list A) :
  is_ok (mapM f l) = true <-> forall x, x ∈ l -> is_ok (f x) = true.
Proof.
  induction l as [|x l IH]; simpl.
  - split; [intros _ x Hx; by apply elem_of_nil in Hx|done].
  - split.
    + intros H y Hy. destruct (f x) as [b|] eqn:Hx; simpl in H; [|done].
      destruct (mapM f l) as [ys|]; simpl in H; [|done].
      apply elem_of_cons in Hy as [->|Hy]; [by rewrite Hx|]. by apply IH.
    + intros H. pose proof (H x ltac:(by left)) as Hx.
      destruct (f x) as [b|]; [|done]. simpl.
      assert (Hl : is_ok (mapM f l) = true) by (apply IH; intros; apply H; by right).
      by destruct (mapM f l).
Qed.

Lemma mapM_Raise_inv {A B} (f : A -> result B) (l : list A) (e : exn) :
  mapM f l = Raise e -> exists x, x ∈ l /\ f x = Raise e.
Proof.
  induction l as [|x l IH]; simpl; [done|].
  destruct (f x) as [y|e'] eqn:Hx; simpl.
  - destruct (mapM f l) as [ys|e'']; simpl; [done|].
    intros [= ->]. destruct (IH eq_refl) as (z & Hz & Hfz).
    exists z. split; [by right|done].
  - intros [= ->]. exists x. split; [by left|done].
Qed.

(** *** Facts on [split] *)

Lemma split_nonempty (sep : ascii) (s : string) : split sep s <> [].
Proof.
  destruct s as [|c s]; simpl; [done|].
  destruct (Ascii.eqb c sep); [done|]. by destruct (split sep s).
Qed.

Lemma count_app (c : ascii) (s t : string) :
  count c (s +:+ t) = (count c s + count c t)%nat.
Proof. induction s as [|c' s IH]; simpl; [done|]. rewrite IH. lia. Qed.

Lemma length_split (sep : ascii) (s : string) :
  length (split sep s) = S (count sep s).
Proof.
  induction s as [|c s IH]; simpl; [done|].
  destruct (Ascii.eqb c sep); simpl; [by rewrite IH|].
  pose proof (split_nonempty sep s). destruct (split sep s); [done|].
  simpl in *. lia.
Qed.

Lemma split_parts (sep : ascii) (s : string) :
  Forall (fun part => count sep part = 0%nat) (split sep s).
Proof.
  induction s as [|c s IH]; simpl; [by repeat constructor|].
  destruct (Ascii.eqb c sep) eqn:Hc; [by constructor|].
  destruct (split sep s) as [|part parts]; simpl.
  - repeat constructor. simpl. by rewrite Hc.
  - apply Forall_cons_1 in IH as [Hp Hps]. constructor; [|done]. simpl.
    by rewrite Hc, Hp.
Qed.

Lemma join_split (sep : ascii) (s : string) : join sep (split sep s) = s.
Proof.
  induction s as [|c s IH]; simpl; [done|].
  pose proof (split_nonempty sep s) as Hne.
  destruct (Ascii.eqb_spec c sep) as [->|Hc].
  - destruct (split sep s) as [|part parts]; [done|].
    change (join sep (EmptyString :: part :: parts))
      with (String sep (join sep (part :: parts))). by rewrite IH.
  - destruct (split sep s) as [|part [|part' parts]]; [done| |].
    + simpl in *. by rewrite IH.
    + change (join sep (String c part :: part' :: parts))
        with (String c (part +:+ String sep (join sep (part' :: parts)))).
      f_equal. exact IH.
Qed.

(** The last part is what follows the last separator. *)
Lemma last_split (sep : ascii) (s : string) :
  exists pre part,
    list.last (split sep s) = Some part /\ s = pre +:+ part /\
    count sep part = 0%nat /\
    ((pre = EmptyString /\ split sep s = [part]) \/
     (exists p, pre = p +:+ String sep EmptyString)).
Proof.
  induction s as [|c s IH]; simpl.
  - exists EmptyString, EmptyString. split; [done|]. split; [done|]. split; [done|].
    by left.
  - destruct IH as (pre & part & Hlast & Hs & Hcount & Hpre).
    pose proof (split_nonempty sep s) as Hne.
    destruct (Ascii.eqb_spec c sep) as [->|Hc].
    + exists (String sep pre), part. rewrite last_cons, Hlast.
      split; [done|]. split; [rewrite Hs; reflexivity|]. split; [done|]. right.
      destruct Hpre as [[-> _]|[p ->]].
      * by exists EmptyString.
      * by exists (String sep p).
    + destruct Hpre as [[-> Hsingle]|[p ->]].
      * rewrite Hsingle. exists EmptyString, (String c part).
        split; [done|]. split; [rewrite Hs; reflexivity|]. split.
        { simpl. destruct (Ascii.eqb_spec c sep); [done|]. by rewrite Hcount. }
        by left.
      * destruct (split sep s) as [|part0 parts] eqn:Hsplit; [done|].
        exists (String c (p +:+ String sep EmptyString)), part.
        assert (Hparts : parts <> []).
        { intros ->. pose proof (length_split sep s) as Hl. rewrite Hsplit in Hl.
          simpl in Hl. rewrite Hs, !count_app in Hl. simpl in Hl.
          rewrite Ascii.eqb_refl in Hl. lia. }
        split.
        { rewrite last_cons. rewrite last_cons in Hlast.
          destruct (list.last parts) eqn:Hlp; [done|].
          by apply last_None in Hlp. }
        split; [rewrite Hs; reflexivity|]. split; [done|]. right.
        by exists (String c p).
Qed.

(** *** The features of one token *)

Lemma add_feat_spec (d : odict string) (feat_val_pair : string) :
  (count "=" feat_val_pair = 1%nat ->
   exists feat val, split "=" feat_val_pair = [feat; val] /\
                    add_feat d feat_val_pair = Ok (odict_set d feat val)) /\
  (count "=" feat_val_pair <> 1%nat -> add_feat d feat_val_pair = Raise ValueError).
Proof.
  pose proof (length_split "=" feat_val_pair) as Hl. unfold add_feat.
  destruct (split "=" feat_val_pair) as [|a [|b [|c l]]]; simpl in *;
    (split; intros H; [try lia|try done]).
  - by exists a, b.
  - lia.
Qed.

Lemma foldM_add_feat_well_formed (pairs : list string) (d : odict string) :
  Forall (fun pair => count "=" pair = 1%nat) pairs ->
  exists d', foldM add_feat pairs d = Ok d' /\
    (NoDup (map fst d) -> NoDup (map fst d')) /\
    (forall k v rest, d = (k, v) :: rest -> exists v' rest', d' = (k, v') :: rest').
Proof.
  revert d. induction pairs as [|pair pairs IH]; intros d Hall; simpl.
  - exists d. split; [done|]. split; [done|]. intros k v rest ->. eauto.
  - apply Forall_cons_1 in Hall as [Hp Hall].
    destruct (proj1 (add_feat_spec d pair) Hp) as (feat & val & _ & ->). simpl.
    destruct (IH (odict_set d feat val) Hall) as (d' & Hd' & Hnd & Hhead).
    exists d'. split; [done|]. split.
    + intros H. by apply Hnd, odict_set_NoDup.
    + intros k v rest ->.
      destruct (odict_set_head rest feat k v val) as (v1 & rest1 & Hset).
      by apply (Hhead k v1 rest1).
Qed.

Lemma foldM_add_feat_malformed (pairs : list string) (d : odict string) :
  ~ Forall (fun pair => count "=" pair = 1%nat) pairs ->
  foldM add_feat pairs d = Raise ValueError.
Proof.
  revert d. induction pairs as [|pair pairs IH]; intros d Hall; simpl.
  - exfalso. apply Hall. constructor.
  - destruct (decide (count "=" pair = 1%nat)) as [Hp|Hp].
    + destruct (proj1 (add_feat_spec d pair) Hp) as (feat & val & _ & ->). simpl.
      apply IH. intros H. apply Hall. by constructor.
    + by rewrite (proj2 (add_feat_spec d pair) Hp).
Qed.

Lemma foldM_add_feat_Ok (pairs : list string) (fvs : list (string * string))
    (d : odict string) :
  Forall2 (fun pair fv => split "=" pair = [fst fv; snd fv]) pairs fvs ->
  foldM add_feat pairs d = Ok (fold_left (fun d fv => odict_set d (fst fv) (snd fv)) fvs d).
Proof.
  intros H. revert d. induction H as [|pair fv pairs fvs Hp _ IH]; intros d; simpl.
  - done.
  - unfold add_feat at 1. rewrite Hp. simpl. apply IH.
Qed.

(** The last write to a key wins. *)
Lemma odict_get_fold_set (fvs : list (string * string)) (d : odict string)
    (key : string) :
  odict_get (fold_left (fun d fv => odict_set d (fst fv) (snd fv)) fvs d) key =
  match list.last (List.filter (fun fv => String.eqb (fst fv) key) fvs) with
  | Some fv => Ok (snd fv)
  | None => odict_get d key
  end.
Proof.
  revert d. induction fvs as [|[f v] fvs IH]; intros d; simpl; [done|].
  rewrite IH. destruct (String.eqb_spec f key) as [->|Hne].
  - rewrite last_cons.
    destruct (list.last (List.filter _ fvs)); [done|]. simpl.
    by rewrite odict_get_set_eq.
  - destruct (list.last (List.filter _ fvs)); [done|].
    by rewrite odict_get_set_ne.
Qed.

Section Tokens.
Variable PAD : string.

Lemma process_word_Ok (curr_token : Word) :
  (forall token_feats, feats curr_token = Some token_feats ->
     Forall (fun pair => count "=" pair = 1%nat) (split "|" token_feats)) ->
  exists d,
    process_word PAD curr_token = Ok d /\
    NoDup (map fst d) /\
    odict_get d "upostag" = Ok (default PAD (upos curr_token)) /\
    (exists v rest, d = ("form"%string, v) :: rest) /\
    (feats curr_token = None ->
     d = [("form"%string, text curr_token);
          ("upostag"%string, default PAD (upos curr_token))]).
Proof.
  intros Hwf. unfold process_word.
  destruct (feats curr_token) as [token_feats|].
  - destruct (foldM_add_feat_well_formed (split "|" token_feats)
                [("form"%string, text curr_token)] (Hwf _ eq_refl))
      as (d' & -> & Hnd & Hhead).
    simpl. eexists. split; [done|]. split.
    { apply odict_set_NoDup, Hnd. simpl. apply NoDup_singleton. }
    split; [apply odict_get_set_eq|]. split; [|done].
    destruct (Hhead _ _ _ eq_refl) as (v' & rest' & ->).
    apply odict_set_head.
  - simpl. eexists. split; [done|]. split.
    { apply list.NoDup_cons. split; [|apply NoDup_singleton].
      intros H. apply list_elem_of_singleton in H. discriminate. }
    split; [done|]. split; [eauto|done].
Qed.

Lemma process_word_Raise (curr_token : Word) (token_feats : string) :
  feats curr_token = Some token_feats ->
  ~ Forall (fun pair => count "=" pair = 1%nat) (split "|" token_feats) ->
  process_word PAD curr_token = Raise ValueError.
Proof.
  intros Hf Hbad. unfold process_word. rewrite Hf.
  by rewrite foldM_add_feat_malformed.
Qed.

(** The feature strings of a document are well formed when every pair
    between two bars holds exactly one equals sign. *)
Definition well_formed (stanza_output : Document) : Prop :=
  forall curr_sent curr_token token_feats,
    curr_sent ∈ sentences stanza_output -> curr_token ∈ words curr_sent ->
    feats curr_token = Some token_feats ->
    Forall (fun pair => count "=" pair = 1%nat) (split "|" token_feats).

Lemma process_word_is_ok (curr_token : Word) :
  is_ok (process_word PAD curr_token) = true <->
  forall token_feats, feats curr_token = Some token_feats ->
    Forall (fun pair => count "=" pair = 1%nat) (split "|" token_feats).
Proof.
  split.
  - intros Hok token_feats Hf.
    destruct (Forall_dec (fun pair => count "=" pair = 1%nat)
                (fun pair => decide (count "=" pair = 1%nat)) (split "|" token_feats))
      as [H|H]; [done|].
    by rewrite (process_word_Raise curr_token token_feats Hf H) in Hok.
  - intros Hwf. by destruct (process_word_Ok curr_token Hwf) as (d & -> & _).
Qed.

(** X17. When [extract_features] returns, its result has one list per
    sentence and one dictionary per token, in order.  Every dictionary
    has distinct keys, starts with the key ["form"] and holds under
    ["upostag"] the tag of the token, or [PAD] when the tagger gave
    none; a token without features gives exactly the two entries
    ["form"] and ["upostag"]. *)
Theorem extract_features_tokens (stanza_output : Document)
    (relevant_features : list (list (odict string))) :
  extract_features PAD stanza_output = Ok relevant_features ->
  Forall2
    (fun curr_sent sent_features =>
       Forall2
         (fun curr_token d =>
            NoDup (map fst d) /\
            odict_get d "upostag" = Ok (default PAD (upos curr_token)) /\
            (exists v rest, d = ("form"%string, v) :: rest) /\
            (feats curr_token = None ->
             d = [("form"%string, text curr_token);
                  ("upostag"%string, default PAD (upos curr_token))]))
         (words curr_sent) sent_features)
    (sentences stanza_output) relevant_features.
Proof.
  intros H. apply mapM_Ok_Forall2 in H.
  eapply list.Forall2_impl; [exact H|]. intros curr_sent sent_features Hs. simpl in Hs.
  apply mapM_Ok_Forall2 in Hs.
  eapply list.Forall2_impl; [exact Hs|]. intros curr_token d Hd. simpl in Hd.
  assert (Hok : is_ok (process_word PAD curr_token) = true) by by rewrite Hd.
  destruct (process_word_Ok curr_token (proj1 (process_word_is_ok curr_token) Hok))
    as (d' & Hd' & Hrest).
  rewrite Hd in Hd'. injection Hd' as <-. exact Hrest.
Qed.

(** X18. [extract_features] returns exactly when every feature string
    is well formed: split at the bars, each part holds exactly one
    equals sign.  Otherwise it raises, and the only exception it raises
    is the [ValueError] of the unpacking; an empty feature string is
    such a case. *)
Theorem extract_features_raises_on_malformed_pair (stanza_output : Document) :
  (is_ok (extract_features PAD stanza_output) = true <-> well_formed stanza_output) /\
  (forall e, extract_features PAD stanza_output = Raise e -> e = ValueError) /\
  (forall curr_sent curr_token,
     curr_sent ∈ sentences stanza_output -> curr_token ∈ words curr_sent ->
     feats curr_token = Some EmptyString ->
     extract_features PAD stanza_output = Raise ValueError).
Proof.
  assert (Hiff : is_ok (extract_features PAD stanza_output) = true <->
                 well_formed stanza_output).
  { unfold extract_features, well_formed. rewrite mapM_is_ok. split.
    - intros H curr_sent curr_token token_feats Hs Hw Hf.
      specialize (H curr_sent Hs). rewrite mapM_is_ok in H.
      by apply (proj1 (process_word_is_ok curr_token) (H curr_token Hw)).
    - intros H curr_sent Hs. rewrite mapM_is_ok. intros curr_token Hw.
      apply process_word_is_ok. intros token_feats Hf. by eapply H. }
  assert (Hval : forall e, extract_features PAD stanza_output = Raise e ->
                           e = ValueError).
  { intros e H. unfold extract_features in H.
    apply mapM_Raise_inv in H as (curr_sent & _ & H).
    apply mapM_Raise_inv in H as (curr_token & _ & H).
    destruct (feats curr_token) as [token_feats|] eqn:Hf.
    - destruct (Forall_dec (fun pair => count "=" pair = 1%nat)
                  (fun pair => decide (count "=" pair = 1%nat)) (split "|" token_feats))
        as [Hwf|Hbad].
      + destruct (process_word_Ok curr_token) as (d & Hd & _);
          [intros tf Htf; rewrite Hf in Htf; by injection Htf as <-|congruence].
      + rewrite (process_word_Raise curr_token token_feats Hf Hbad) in H. congruence.
    - destruct (process_word_Ok curr_token) as (d & Hd & _);
        [intros tf Htf; congruence|congruence]. }
  split; [exact Hiff|]. split; [exact Hval|].
  intros curr_sent curr_token Hs Hw Hf.
  destruct (extract_features PAD stanza_output) as [out|e] eqn:Hex.
  - exfalso. pose proof (proj1 Hiff eq_refl) as Hok.
    specialize (Hok curr_sent curr_token EmptyString Hs Hw Hf).
    simpl in Hok. apply Forall_cons_1 in Hok as [Hc _]. simpl in Hc. lia.
  - f_equal. by apply Hval.
Qed.

(** X19. For a token whose feature string is well formed, with the
    pairs [fvs] in order, the dictionary answers every key other than
    ["upostag"] with the value written last under that key, the raw word
    counting as a first write under ["form"]: a feature that is itself
    named ["form"] replaces the raw word, and a feature named
    ["upostag"] is replaced by the tag. *)
Theorem process_word_last_write_wins (curr_token : Word) (token_feats : string)
    (fvs : list (string * string)) :
  feats curr_token = Some token_feats ->
  Forall2 (fun pair fv => split "=" pair = [fst fv; snd fv]) (split "|" token_feats) fvs ->
  exists d,
    process_word PAD curr_token = Ok d /\
    odict_get d "upostag" = Ok (default PAD (upos curr_token)) /\
    forall key, key <> "upostag"%string ->
      odict_get d key =
      match list.last (List.filter (fun fv => String.eqb (fst fv) key)
                         (("form"%string, text curr_token) :: fvs)) with
      | Some fv => Ok (snd fv)
      | None => Raise (KeyError key)
      end.
Proof.
  intros Hf Hfvs. unfold process_word. rewrite Hf.
  rewrite (foldM_add_feat_Ok _ fvs _ Hfvs). cbn [bind]. eexists. split; [done|].
  split; [apply odict_get_set_eq|]. intros key Hkey.
  rewrite odict_get_set_ne by done. rewrite odict_get_fold_set.
  cbn [List.filter fst odict_get].
  destruct (String.eqb "form" key).
  - rewrite last_cons. destruct (list.last (List.filter _ fvs)); done.
  - destruct (list.last (List.filter _ fvs)); done.
Qed.

(** X20. For a token whose feature names are distinct and differ from
    ["form"] and ["upostag"], the dictionary lists the raw word, then
    the features in the order of the feature string, then the tag. *)
Theorem process_word_entries_in_order (curr_token : Word) (token_feats : string)
    (fvs : list (string * string)) :
  feats curr_token = Some token_feats ->
  Forall2 (fun pair fv => split "=" pair = [fst fv; snd fv]) (split "|" token_feats) fvs ->
  NoDup ("form"%string :: map fst fvs ++ ["upostag"%string]) ->
  process_word PAD curr_token =
  Ok (("form"%string, text curr_token) :: fvs ++
      [("upostag"%string, default PAD (upos curr_token))]).
Proof.
  intros Hf Hfvs Hnd. unfold process_word. rewrite Hf.
  rewrite (foldM_add_feat_Ok _ fvs _ Hfvs). simpl.
  apply list.NoDup_cons in Hnd as [Hform Hnd].
  apply list.NoDup_app in Hnd as (Hfv & Hdisj & _).
  rewrite (fold_set_fresh fvs [("form"%string, text curr_token)]).
  - rewrite odict_set_fresh; [done|]. simpl. intros Hin.
    apply elem_of_cons in Hin as [Heq|Hin]; [discriminate|].
    apply (Hdisj _ Hin). by left.
  - simpl. apply list.NoDup_cons. split; [|done].
    intros Hin. apply Hform. apply elem_of_app. by left.
Qed.

End Tokens.

(** *** The loop over the examples *)

Section Examples.
Variable PAD : string.
Variable nlp : string -> result Document.
Variable json_dumps : list (list (odict string)) -> string.

(** What the loop appends to [features] for one example, if anything. *)
Definition kept (curr_ex : string) : option string :=
  match nlp curr_ex with
  | Ok output =>
      match extract_features PAD output with
      | Ok ex_features => Some (json_dumps ex_features)
      | Raise _ => None
      end
  | Raise _ => None
  end.

Lemma loc_app {A} (rows rows' : list A) (mask mask' : list bool) :
  length rows = length mask ->
  loc (rows ++ rows') (mask ++ mask') = loc rows mask ++ loc rows' mask'.
Proof.
  intros Hl. unfold loc. rewrite zip_with_app by done.
  by rewrite filter_app, map_app.
Qed.

Lemma main_loop_spec (examples : list string) (features : list string)
    (take_mask : list bool) (features' : list string) (take_mask' : list bool) :
  main_loop PAD nlp json_dumps examples features take_mask = Ok (features', take_mask') ->
  exists fs tm,
    features' = features ++ fs /\ take_mask' = take_mask ++ tm /\
    Forall2 (fun curr_ex taken =>
               if taken : bool then is_ok (nlp curr_ex) = true
               else nlp curr_ex = Raise RuntimeError) examples tm /\
    fs = omap kept examples /\
    length (loc examples tm) = length fs.
Proof.
  revert features take_mask.
  induction examples as [|curr_ex rest IH]; intros features take_mask; simpl.
  - intros [= <- <-]. exists [], []. rewrite !app_nil_r.
    split; [done|]. split; [done|]. split; [constructor|]. done.
  - unfold kept at 1. destruct (nlp curr_ex) as [output|e] eqn:Hnlp.
    + destruct (extract_features PAD output) as [ex_features|] eqn:Hex; simpl; [|done].
      intros H. destruct (IH _ _ H) as (fs & tm & -> & -> & Hall & Hfs & Hlen).
      exists (json_dumps ex_features :: fs), (true :: tm).
      rewrite <- !app_assoc. split; [done|]. split; [done|].
      split; [constructor; [by rewrite Hnlp|done]|].
      split; [by rewrite Hfs|]. unfold loc in *. simpl. by rewrite Hlen.
    + destruct e; try done.
      intros H. destruct (IH _ _ H) as (fs & tm & -> & -> & Hall & Hfs & Hlen).
      exists fs, (false :: tm).
      rewrite <- !app_assoc. split; [done|]. split; [done|].
      split; [by constructor|]. split; [done|]. unfold loc in *. simpl. exact Hlen.
Qed.

(** X21. When the loop over the examples ends, [take_mask] has one entry
    per example: [False] where the pipeline raised a [RuntimeError],
    [True] where it returned.  [features] holds the serialised features
    of the examples that were kept, in order, so the rows selected by
    [df.loc[take_mask]] are as many as the entries of [features]. *)
Theorem main_loop_mask_selects_kept_examples (examples : list string)
    (features : list string) (take_mask : list bool) :
  main_loop PAD nlp json_dumps examples [] [] = Ok (features, take_mask) ->
  length take_mask = length examples /\
  Forall2 (fun curr_ex taken =>
             if taken : bool then is_ok (nlp curr_ex) = true
             else nlp curr_ex = Raise RuntimeError) examples take_mask /\
  features = omap kept examples /\
  length (loc examples take_mask) = length features.
Proof.
  intros H. destruct (main_loop_spec _ _ _ _ _ H) as (fs & tm & -> & -> & Hall & Hfs & Hl).
  simpl. split; [symmetry; by eapply Forall2_length|]. done.
Qed.

Lemma main_loop_app (before after : list string) (features : list string)
    (take_mask : list bool) :
  main_loop PAD nlp json_dumps (before ++ after) features take_mask =
  do r <- main_loop PAD nlp json_dumps before features take_mask;
  main_loop PAD nlp json_dumps after (fst r) (snd r).
Proof.
  revert features take_mask. induction before as [|x before IH];
    intros features take_mask; simpl; [done|].
  destruct (nlp x) as [output|e].
  - destruct (extract_features PAD output); simpl; [apply IH|done].
  - destruct e; first [done|apply IH].
Qed.

(** X22. Only a [RuntimeError] of the pipeline is caught.  Once the
    examples before it went through, an example on which the pipeline
    raises another exception, or whose features [extract_features]
    cannot unpack, ends the loop with that exception: nothing is
    written for any example. *)
Theorem main_loop_aborts_on_other_exceptions (before after : list string)
    (curr_ex : string) (e : exn) (r : list string * list bool) :
  main_loop PAD nlp json_dumps before [] [] = Ok r ->
  (nlp curr_ex = Raise e /\ e <> RuntimeError) \/
  (exists output, nlp curr_ex = Ok output /\ extract_features PAD output = Raise e) ->
  main_loop PAD nlp json_dumps (before ++ curr_ex :: after) [] [] = Raise e.
Proof.
  intros Hbefore Hex. rewrite main_loop_app, Hbefore. simpl.
  destruct Hex as [[-> Hne]|(output & -> & ->)]; [|done].
  by destruct e.
Qed.

End Examples.

(** *** The name of the written file *)

(** X23. The file name taken from [data_path] is what follows the last
    separator: it holds no separator, [data_path] ends with it, and what
    precedes it is empty or ends with a separator; taking the last part
    never fails.  With the separator [/], joining it to [target_dir]
    keeps [target_dir] as the start of the target path. *)
Theorem file_name_of_last_component (os_sep : ascii) (data_path target_dir : string) :
  exists pre file_name,
    file_name_of os_sep data_path = Ok file_name /\
    data_path = pre +:+ file_name /\ count os_sep file_name = 0%nat /\
    (pre = EmptyString \/ exists p, pre = p +:+ String os_sep EmptyString) /\
    (count os_sep data_path = 0%nat -> file_name = data_path) /\
    (os_sep = "/"%char ->
     exists mid, os_path_join target_dir file_name = target_dir +:+ (mid +:+ file_name) /\
                 (mid = EmptyString \/ mid = "/"%string)).
Proof.
  destruct (last_split os_sep data_path) as (pre & file_name & Hlast & Hs & Hc & Hpre).
  exists pre, file_name. unfold file_name_of, getitem_last. rewrite Hlast.
  split; [done|]. split; [done|]. split; [done|]. split.
  { destruct Hpre as [[-> _]|?]; [by left|by right]. }
  split.
  { intros H0. destruct Hpre as [[-> _]|[p ->]]; [by rewrite Hs|].
    rewrite Hs, !count_app in H0. simpl in H0. rewrite Ascii.eqb_refl in H0. lia. }
  intros ->. unfold os_path_join.
  assert (Hstart : forall rest, file_name <> String "/" rest).
  { intros rest ->. simpl in Hc. lia. }
  assert (Hjoin :
    (if String.eqb target_dir "" then file_name
     else match getitem_last (list_ascii_of_string target_dir) with
          | Ok "/"%char => target_dir +:+ file_name
          | _ => target_dir +:+ String "/" file_name
          end) = match file_name with
                 | String "/"%char _ => file_name
                 | _ => if String.eqb target_dir "" then file_name
                        else match getitem_last (list_ascii_of_string target_dir) with
                             | Ok "/"%char => target_dir +:+ file_name
                             | _ => target_dir +:+ String "/" file_name
                             end
                 end).
  { destruct file_name as [|c rest]; [done|].
    destruct (Ascii.eqb_spec c "/") as [->|Hne]; [by destruct (Hstart rest)|].
    destruct c as [[] [] [] [] [] [] [] []]; try done. }
  rewrite <- Hjoin.
  destruct (String.eqb_spec target_dir "") as [->|Hd].
  - exists EmptyString. split; [done|by left].
  - destruct (getitem_last (list_ascii_of_string target_dir)) as [c|].
    + destruct (Ascii.eqb_spec c "/") as [->|Hne].
      * exists EmptyString. split; [done|by left].
      * exists "/"%string. split; [|by right].
        destruct c as [[] [] [] [] [] [] [] []]; try done.
    + exists "/"%string. split; [done|by right].
Qed.

(** *** A small document *)

(** One sentence: a noun with two features and a full stop without
    features and without a tag. *)
Definition toy_document : Document :=
  MkDocument
    [MkSentence [MkWord "Haus" (Some "Case=Nom|Number=Sing"%string) (Some "NOUN"%string);
                 MkWord "." None None]].

(** A pipeline that fails on two inputs and tags every other input as
    one word without features. *)
Definition toy_nlp (curr_ex : string) : result Document :=
  if String.eqb curr_ex "bad" then Raise RuntimeError
  else if String.eqb curr_ex "worse" then Raise IndexError
  else Ok (MkDocument [MkSentence [MkWord curr_ex None None]]).

Definition toy_json_dumps (ex_features : list (list (odict string))) : string :=
  match ex_features with
  | [[("form"%string, form) :: _]] => form
  | _ => EmptyString
  end.

Lemma extract_features_tokens_witness :
  exists relevant_features,
    extract_features "<PAD>" toy_document = Ok relevant_features /\
    Forall2 (fun curr_sent sent_features =>
               length (words curr_sent) = length sent_features)
            (sentences toy_document) relevant_features.
Proof.
  destruct (extract_features "<PAD>" toy_document) as [relevant_features|e] eqn:Hex;
    [|vm_compute in Hex; discriminate Hex].
  exists relevant_features. split; [reflexivity|].
  eapply list.Forall2_impl;
    [exact (extract_features_tokens "<PAD>" toy_document relevant_features Hex)|].
  intros curr_sent sent_features H. eapply Forall2_length. exact H.
Defined.

(** A feature that is itself named [form]. *)
Lemma process_word_last_write_wins_witness :
  let curr_token := MkWord "Haus" (Some "form=x|Case=Nom"%string) (Some "NOUN"%string) in
  exists d,
    process_word "<PAD>" curr_token = Ok d /\ odict_get d "form" = Ok "x"%string.
Proof.
  intros curr_token.
  destruct (process_word_last_write_wins "<PAD>" curr_token "form=x|Case=Nom"
              [("form"%string, "x"%string); ("Case"%string, "Nom"%string)] eq_refl)
    as (d & Hd & _ & Hget).
  { repeat constructor. }
  exists d. split; [exact Hd|]. rewrite Hget; [reflexivity|discriminate].
Defined.

Lemma process_word_entries_in_order_witness :
  let curr_token :=
    MkWord "Haus" (Some "Case=Nom|Number=Sing"%string) (Some "NOUN"%string) in
  process_word "<PAD>" curr_token =
  Ok [("form"%string, "Haus"%string); ("Case"%string, "Nom"%string);
      ("Number"%string, "Sing"%string); ("upostag"%string, "NOUN"%string)].
Proof.
  intros curr_token.
  apply (process_word_entries_in_order "<PAD>" curr_token "Case=Nom|Number=Sing"
           [("Case"%string, "Nom"%string); ("Number"%string, "Sing"%string)] eq_refl).
  - repeat constructor.
  - apply NoDup_ListNoDup. simpl.
    repeat (constructor; [simpl; intuition discriminate|]). constructor.
Defined.

(** Three examples, the second of which the pipeline cannot tag. *)
Lemma main_loop_mask_selects_kept_examples_witness :
  let examples := ["a"%string; "bad"%string; "b"%string] in
  main_loop "<PAD>" toy_nlp toy_json_dumps examples [] [] =
    Ok (["a"%string; "b"%string], [true; false; true]) /\
  length (loc examples [true; false; true]) = 2%nat.
Proof.
  intros examples.
  assert (H : main_loop "<PAD>" toy_nlp toy_json_dumps examples [] [] =
              Ok (["a"%string; "b"%string], [true; false; true])) by reflexivity.
  split; [exact H|].
  exact (proj2 (proj2 (proj2 (main_loop_mask_selects_kept_examples "<PAD>" toy_nlp
                                 toy_json_dumps examples _ _ H)))).
Defined.

(** The pipeline raises an [IndexError] on the third example. *)
Lemma main_loop_aborts_on_other_exceptions_witness :
  main_loop "<PAD>" toy_nlp toy_json_dumps
            (["a"%string; "bad"%string] ++ "worse"%string :: ["b"%string]) [] [] =
  Raise IndexError.
Proof.
  apply (main_loop_aborts_on_other_exceptions "<PAD>" toy_nlp toy_json_dumps
           ["a"%string; "bad"%string] ["b"%string] "worse" IndexError
           (["a"%string], [true; false]) eq_refl).
  left. split; [reflexivity|discriminate].
Defined.

End Preprocess.
